(** * Outfit shopping pipeline: item extraction, product matching, result fusion

    A shallow embedding of the two services that make up the pipeline,
    [ShoppingSearchService] (api/src/services, matcher and fusion) and
    [ItemExtractionService] (extractor), together with the properties the
    specification states about them.

    Conventions of the embedding:
    - a JavaScript string is a [string]: a sequence of code units below 256
      (Latin-1 text), which is where [toLowerCase], [\w], [\s] and [trim]
      are defined below;
    - integral JavaScript numbers (scores, indices, clock readings) are [Z] or
      [nat]; fractional ones (confidence, bounding boxes) are exact rationals
      [Q], the idealisation of the doubles the program computes with;
    - an array of objects is a list of references into a store, where the
      program compares objects by identity ([indexOf]);
    - remote services are oracles threaded through an explicit world;
    - the md5 digest is computed as RFC 1321 defines it, on the UTF-8
      encoding of the string.

    The development then goes on to the code around the pipeline: the
    helpers of the search backends, the model catalogue ([ModelService],
    [ModelController], [validatePagination]) and [OutfitService], with
    further properties of all of them. *)

From Stdlib Require Import ZArith QArith Qminmax Qround String Ascii List Lia Lqa Bool DecimalString Sorted Permutation.
From stdpp Require Import gmap strings list sorting.

Local Open Scope string_scope.
Local Open Scope list_scope.

(** ** JavaScript string primitives *)

Module JsString.

Definition code (c : ascii) : N := N_of_ascii c.

Definition inRange (lo hi : N) (c : ascii) : bool :=
  ((lo <=? code c) && (code c <=? hi))%N.

Definition isUpper (c : ascii) : bool := inRange 65 90 c.
Definition isLower (c : ascii) : bool := inRange 97 122 c.
Definition isDigit (c : ascii) : bool := inRange 48 57 c.

(** The class [\w]: letters, digits and the underscore. *)
Definition isWordChar (c : ascii) : bool :=
  isUpper c || isLower c || isDigit c || (code c =? 95)%N.

(** The class [\s] (and what [trim] strips): TAB, LF, VT, FF, CR, SPACE and
    the no-break space. *)
Definition isSpace (c : ascii) : bool :=
  inRange 9 13 c || (code c =? 32)%N || (code c =? 160)%N.

(** [toLowerCase] on one code unit: A-Z, and the accented capitals
    0xC0-0xDE without the multiplication sign 0xD7. *)
Definition lowerChar (c : ascii) : ascii :=
  if isUpper c || (inRange 192 222 c && negb (code c =? 215)%N)
  then ascii_of_N (code c + 32) else c.

Fixpoint toLowerCase (s : string) : string :=
  match s with
  | EmptyString => EmptyString
  | String c s' => String (lowerChar c) (toLowerCase s')
  end.

(** [s.replace(/[^...]/g, '')] for a character class given by [keep]. *)
Fixpoint keepChars (keep : ascii -> bool) (s : string) : string :=
  match s with
  | EmptyString => EmptyString
  | String c s' =>
      if keep c then String c (keepChars keep s') else keepChars keep s'
  end.

(** [s.replace(/\s+/g, ' ')]: [inRun] tells that the previous code unit was
    white space, already replaced. *)
Fixpoint collapseFrom (inRun : bool) (s : string) : string :=
  match s with
  | EmptyString => EmptyString
  | String c s' =>
      if isSpace c
      then (if inRun then collapseFrom true s'
            else String " " (collapseFrom true s'))
      else String c (collapseFrom false s')
  end.

Definition collapseWhitespace (s : string) : string := collapseFrom false s.

Fixpoint trimStart (s : string) : string :=
  match s with
  | EmptyString => EmptyString
  | String c s' => if isSpace c then trimStart s' else s
  end.

Fixpoint trimEnd (s : string) : string :=
  match s with
  | EmptyString => EmptyString
  | String c s' =>
      match trimEnd s' with
      | EmptyString => if isSpace c then EmptyString else String c EmptyString
      | t => String c t
      end
  end.

Definition trim (s : string) : string := trimEnd (trimStart s).

(** [s.substring(0, n)]. *)
Fixpoint substring0 (n : nat) (s : string) : string :=
  match n, s with
  | S n', String c s' => String c (substring0 n' s')
  | _, _ => EmptyString
  end.

(** [s.split(sep)] for a one-character separator: the empty string gives
    one empty field, and adjacent separators give empty fields. *)
Fixpoint split (sep : ascii) (s : string) : list string :=
  match s with
  | EmptyString => [EmptyString]
  | String c s' =>
      if Ascii.eqb c sep then EmptyString :: split sep s'
      else match split sep s' with
           | w :: ws => String c w :: ws
           | [] => [String c EmptyString]
           end
  end.

(** Decimal rendering of a number, as string concatenation does it. *)
Definition ofNat (n : nat) : string := NilZero.string_of_uint (Nat.to_uint n).
Definition ofZ (z : Z) : string := NilZero.string_of_int (Z.to_int z).

End JsString.

(** ** Property reads on object literals

    [table[key]] on an object literal also finds the members the literal
    inherits from [Object.prototype].  Each is an object (a native function;
    [__proto__] reads the prototype itself), listed here with the string it
    converts to. *)

Module JsObject.

Fixpoint assoc {A : Type} (k : string) (l : list (string * A)) : option A :=
  match l with
  | [] => None
  | (k', v) :: l' => if String.eqb k k' then Some v else assoc k l'
  end.

Definition nativeFunction (name : string) : string :=
  "function " +:+ name +:+ "() { [native code] }".

Definition objectPrototype : list (string * string) :=
  [ ("constructor", nativeFunction "Object");
    ("__defineGetter__", nativeFunction "__defineGetter__");
    ("__defineSetter__", nativeFunction "__defineSetter__");
    ("hasOwnProperty", nativeFunction "hasOwnProperty");
    ("__lookupGetter__", nativeFunction "__lookupGetter__");
    ("__lookupSetter__", nativeFunction "__lookupSetter__");
    ("isPrototypeOf", nativeFunction "isPrototypeOf");
    ("propertyIsEnumerable", nativeFunction "propertyIsEnumerable");
    ("toString", nativeFunction "toString");
    ("valueOf", nativeFunction "valueOf");
    ("__proto__", "[object Object]");
    ("toLocaleString", nativeFunction "toLocaleString") ].

(** Truthiness of a string and of an optional string property. *)
Definition truthy (s : string) : bool := negb (String.eqb s "").

Definition truthyOpt (o : option string) : bool :=
  match o with Some s => truthy s | None => false end.

End JsObject.

(** ** The data model (ItemExtractionService.ts, ShoppingSearchService.ts) *)

Module BoundingBox.
Record t := mk { x : Q; y : Q; width : Q; height : Q }.
End BoundingBox.

Module Item.
Record ExtractedItem := mk {
  id : string;
  pieceType : string;
  description : string;
  boundingBox : BoundingBox.t;
  confidence : Q;
  extractedImagePath : option string;
  extractedImageUrl : option string;
  color : option string;
  pattern : option string;
  style : option string
}.
End Item.

(** ** Result fusion and ranking (ShoppingSearchService) *)

Module Fusion.
Import JsString JsObject.

Record ProductResult := mkProduct {
  title : string;
  price : string;
  currency : string;
  url : string;
  retailer : string;
  imageUrl : option string;
  rating : option Q;
  reviewCount : option Z;
  availability : string;
  source : string
}.

(** The objects the ranking step builds: the product's own fields (the
    spread) and [relevanceScore].  Read as a [ProductResult] it is its
    [product]. *)
Record RankedProduct := mkRanked {
  product : ProductResult;
  relevanceScore : Z
}.

Definition normalizeProductTitle (t : string) : string :=
  substring0 60
    (trim
       (collapseWhitespace
          (keepChars (fun c => isWordChar c || isSpace c) (toLowerCase t)))).

(** What a property read [table[key] || 0] can yield on an object literal:
    a number of the table, or a member inherited from [Object.prototype],
    which is an object and hence truthy.  [JObj] carries the string the
    member converts to under a relational operator. *)
Inductive jsvalue :=
| JNum (z : Z)
| JObj (repr : string).

Definition sourceScores : list (string * Z) :=
  [ ("gemini_web_search", 5%Z);
    ("google_lens", 4%Z);
    ("google_reverse", 3%Z);
    ("bing_reverse", 2%Z);
    ("gemini_web_search_fallback", 1%Z) ].

Definition getSourceScore (src : string) : jsvalue :=
  match assoc src sourceScores with
  | Some n => JNum n
  | None =>
      match assoc src objectPrototype with
      | Some r => JObj r
      | None => JNum 0
      end
  end.

(** [a > b]: numeric on two numbers, by code units on two strings, and
    false when a non-numeric string meets a number (NaN). *)
Definition jsGt (a b : jsvalue) : bool :=
  match a, b with
  | JNum x, JNum y => (y <? x)%Z
  | JObj s, JObj t => String.ltb t s
  | _, _ => false
  end.

Definition preferredRetailers : list string :=
  [ "Amazon"; "Target"; "Nordstrom"; "Zara"; "H&M"; "ASOS"; "Macy's"; "Walmart" ].

Definition sourceBase (src : string) : Z :=
  if String.eqb src "gemini_web_search" then 25
  else if String.eqb src "google_lens" then 20
  else if String.eqb src "google_reverse" then 15
  else if String.eqb src "bing_reverse" then 10
  else if String.eqb src "gemini_web_search_fallback" then 8
  else 0.

Definition calculateRelevance (p : ProductResult) (item : Item.ExtractedItem) : Z :=
  let score := sourceBase (source p) in
  let score :=
    if existsb (String.eqb (retailer p)) preferredRetailers
    then (score + 3)%Z else score in
  let score :=
    if truthy (price p) && negb (String.eqb (price p) "Price not available")
    then (score + 2)%Z else score in
  let score := if truthyOpt (imageUrl p) then (score + 1)%Z else score in
  score.

(** *** The store and the deduplication loop *)

Definition ref := nat.
Definition store := ref -> ProductResult.

Record dedupState := mkDedup {
  seenUrls : gset string;
  seenTitles : gmap string ref;
  unique : list ref
}.

Definition dedupInit : dedupState :=
  {| seenUrls := ∅; seenTitles := ∅; unique := [] |}.

(** [arr.indexOf(x)] on references. *)
Fixpoint indexOf (x : ref) (l : list ref) : option nat :=
  match l with
  | [] => None
  | y :: l' => if Nat.eqb y x then Some 0 else option_map S (indexOf x l')
  end.

(** [if (index > -1) arr.splice(index, 1)]. *)
Definition spliceOut (x : ref) (l : list ref) : list ref :=
  match indexOf x l with
  | Some i => delete i l
  | None => l
  end.

(** One turn of the [for (const product of products)] loop. *)
Definition dedupStep (h : store) (st : dedupState) (p : ref) : dedupState :=
  if decide (url (h p) ∈ seenUrls st) then st
  else
    let titleKey := normalizeProductTitle (title (h p)) in
    match seenTitles st !! titleKey with
    | Some existing =>
        let currentScore := getSourceScore (source (h p)) in
        let existingScore := getSourceScore (source (h existing)) in
        if jsGt currentScore existingScore then
          {| unique := spliceOut existing (unique st) ++ [p];
             seenUrls := {[ url (h p) ]} ∪ (seenUrls st ∖ {[ url (h existing) ]});
             seenTitles := <[ titleKey := p ]> (seenTitles st) |}
        else st
    | None =>
        {| unique := unique st ++ [p];
           seenUrls := {[ url (h p) ]} ∪ seenUrls st;
           seenTitles := <[ titleKey := p ]> (seenTitles st) |}
    end.

Definition dedupLoop (h : store) (products : list ref) : dedupState :=
  fold_left (dedupStep h) products dedupInit.

(** *** Ranking: [map] then [sort((a, b) => b.relevanceScore - a.relevanceScore)]

    [Array.prototype.sort] is stable; with this comparator its result is
    the one stable arrangement by descending score, computed here by
    insertion from the right. *)

Definition rank (item : Item.ExtractedItem) (p : ProductResult) : RankedProduct :=
  {| product := p; relevanceScore := calculateRelevance p item |}.

Fixpoint insertDesc (x : RankedProduct) (l : list RankedProduct) : list RankedProduct :=
  match l with
  | [] => [x]
  | y :: l' =>
      if (relevanceScore x <? relevanceScore y)%Z
      then y :: insertDesc x l'
      else x :: y :: l'
  end.

Definition sortDesc (l : list RankedProduct) : list RankedProduct :=
  fold_right insertDesc [] l.

Definition deduplicateAndRankProducts
    (h : store) (products : list ref) (item : Item.ExtractedItem) : list RankedProduct :=
  let unique := unique (dedupLoop h products) in
  let ranked := sortDesc (map (fun r => rank item (h r)) unique) in
  ranked.

(** *** Vocabulary of the statements about this module *)

(** Descending order of scores, and the candidates of one score. *)
Definition descending (a b : RankedProduct) : Prop :=
  (relevanceScore b <= relevanceScore a)%Z.

Definition scored (s : Z) (r : RankedProduct) : bool := (relevanceScore r =? s)%Z.

(** The points a candidate gets besides the base score of its source. *)
Definition bonus (p : ProductResult) : Z :=
  ((if existsb (String.eqb (retailer p)) preferredRetailers then 3 else 0) +
   (if truthy (price p) && negb (String.eqb (price p) "Price not available") then 2 else 0) +
   (if truthyOpt (imageUrl p) then 1 else 0))%Z.

(** The array that holds the objects of a list, at fresh references. *)
Definition arrayOf (d : ProductResult) (l : list ProductResult) : store * list ref :=
  (fun r => nth r l d, seq 0 (length l)).

Section Invariant.
Variable h : store.

Definition urlOf (r : ref) : string := url (h r).
Definition keyOf (r : ref) : string := normalizeProductTitle (title (h r)).

(** What the loop maintains: the kept candidates have pairwise distinct
    urls, [seenUrls] holds exactly their urls, and [seenTitles] maps each
    title key to the one kept candidate that has it. *)
Record dedupInv (st : dedupState) : Prop := {
  inv_urls : NoDup (map urlOf (unique st));
  inv_seen : forall u, u ∈ seenUrls st <-> u ∈ map urlOf (unique st);
  inv_titles : forall k r, seenTitles st !! k = Some r <-> r ∈ unique st ∧ keyOf r = k
}.
End Invariant.

End Fusion.

(** ** Effects: remote calls that may throw, over an explicit state *)

Module Effects.

Inductive Result (A : Type) :=
| Ok (a : A)
| Throw (msg : string).
Arguments Ok {A} a.
Arguments Throw {A} msg.

Definition M (S A : Type) : Type := S -> Result A * S.

Definition ret {S A : Type} (a : A) : M S A := fun s => (Ok a, s).

Definition throw {S A : Type} (msg : string) : M S A := fun s => (Throw msg, s).

Definition bind {S A B : Type} (m : M S A) (k : A -> M S B) : M S B :=
  fun s =>
    match m s with
    | (Ok a, s') => k a s'
    | (Throw e, s') => (Throw e, s')
    end.

(** [try { body } catch (error) { handler }]. *)
Definition tryCatch {S A : Type} (body : M S A) (handler : string -> M S A) : M S A :=
  fun s =>
    match body s with
    | (Ok a, s') => (Ok a, s')
    | (Throw e, s') => handler e s'
    end.

Declare Scope js_scope.
Delimit Scope js_scope with js.
Notation "x <- m ;; k" := (bind m (fun x => k))
  (at level 100, m at next level, right associativity) : js_scope.

End Effects.

(** ** Product matcher (ShoppingSearchService.searchProductsForExtractedItems) *)

Module Matcher.
Import JsObject Effects Fusion.

Record ShoppingSearchResults := mkResults {
  itemId : string;
  pieceType : string;
  extractedImageUrl : option string;
  products : list ProductResult;
  searchMethod : string;
  confidence : Q;
  totalResults : nat
}.

(** An element of the [products] array of the model's JSON answer whose
    [title], [price], [url] and [retailer] are strings or missing.  An
    element with another JSON value there is outside this embedding: the
    code copies any truthy value as it is. *)
Record RawProduct := mkRaw {
  rawTitle : option string;
  rawPrice : option string;
  rawUrl : option string;
  rawRetailer : option string
}.

(** The outbound calls of the service, recorded with the item they are
    made for. *)
Inductive BackendCall :=
| AxiosGet (item : Item.ExtractedItem) (target : string)
| GenerateContent (item : Item.ExtractedItem).

Definition callItem (c : BackendCall) : Item.ExtractedItem :=
  match c with
  | AxiosGet item _ => item
  | GenerateContent item => item
  end.

Section Service.
(** The outside world, the fetched image bytes, and the collaborators:
    - [genAI]: the client exists (an API key was configured);
    - [axiosGet]: the HTTP fetch of the item image;
    - [generateContent]: the grounded model call, giving [response.text];
    - [parseProductsJson]: the [products] array of the JSON object found
      in a response text ([None]: no object found, [JSON.parse] throws or
      there is no such array); a [None] element is a [null] entry. *)
Variable World : Type.
Variable Image : Type.
Variable genAI : bool.
Variable axiosGet : string -> World -> Result Image * World.
Variable generateContent :
  Item.ExtractedItem -> Image -> World -> Result (option string) * World.
Variable parseProductsJson : string -> option (list (option RawProduct)).

Record state := mkState {
  world : World;
  calls : list BackendCall
}.

Definition remote {A : Type} (c : BackendCall)
    (f : World -> Result A * World) : M state A :=
  fun s =>
    let (r, w') := f (world s) in
    (r, {| world := w'; calls := calls s ++ [c] |}).

Definition hasUrlAndTitle (p : RawProduct) : bool :=
  truthyOpt (rawUrl p) && truthyOpt (rawTitle p).

Definition orDefault (o : option string) (d : string) : string :=
  match o with
  | Some s => if truthy s then s else d
  | None => d
  end.

Definition toProduct (p : RawProduct) : ProductResult :=
  {| title := orDefault (rawTitle p) "";
     price := orDefault (rawPrice p) "Price not available";
     currency := "USD";
     url := orDefault (rawUrl p) "";
     retailer := orDefault (rawRetailer p) "Unknown Store";
     imageUrl := None;
     rating := None;
     reviewCount := None;
     availability := "available";
     source := "gemini_web_search" |}.

(** Reading a property of a [null] entry throws inside the [try], and the
    [catch] returns the empty list. *)
Fixpoint allPresent (l : list (option RawProduct)) : option (list RawProduct) :=
  match l with
  | [] => Some []
  | None :: _ => None
  | Some p :: l' => option_map (cons p) (allPresent l')
  end.

Definition parseGeminiWebSearchResponse (responseText : string) : list ProductResult :=
  match parseProductsJson responseText with
  | None => []
  | Some arr =>
      match allPresent arr with
      | None => []
      | Some ps => map toProduct (List.filter hasUrlAndTitle ps)
      end
  end.

Definition searchWithGeminiWebSearch (item : Item.ExtractedItem)
    : M state (list ProductResult) :=
  if negb genAI || negb (truthyOpt (Item.extractedImageUrl item)) then ret []
  else
    let target := orDefault (Item.extractedImageUrl item) "" in
    tryCatch
      (imageResponse <- remote (AxiosGet item target) (axiosGet target) ;;
       response <- remote (GenerateContent item) (generateContent item imageResponse) ;;
       let responseText := orDefault response "" in
       ret (parseGeminiWebSearchResponse responseText))%js
      (fun _ => ret []).

Definition searchByImage (item : Item.ExtractedItem) : M state (list ProductResult) :=
  if negb (truthyOpt (Item.extractedImageUrl item)) then ret []
  else
    tryCatch
      (if genAI then searchWithGeminiWebSearch item else ret [])
      (fun _ => ret []).

Definition foundResult (item : Item.ExtractedItem) (products : list ProductResult)
    : ShoppingSearchResults :=
  {| itemId := Item.id item;
     pieceType := Item.pieceType item;
     extractedImageUrl := Item.extractedImageUrl item;
     products := products;
     searchMethod :=
       if truthyOpt (Item.extractedImageUrl item) && (0 <? length products)%nat
       then "gemini_web_search" else "no_image_available";
     confidence := Item.confidence item;
     totalResults := length products |}.

Definition failedResult (item : Item.ExtractedItem) : ShoppingSearchResults :=
  {| itemId := Item.id item;
     pieceType := Item.pieceType item;
     extractedImageUrl := Item.extractedImageUrl item;
     products := [];
     searchMethod := "visual_search_failed";
     confidence := Item.confidence item;
     totalResults := 0 |}.

(** The body of the loop over the items: the [try] block and its
    [catch].  The pacing delay between items has no effect on the
    state. *)
Definition searchOne (item : Item.ExtractedItem) : M state ShoppingSearchResults :=
  tryCatch
    (products <-
       (if truthyOpt (Item.extractedImageUrl item)
        then searchByImage item
        else ret []) ;;
     ret (foundResult item products))%js
    (fun _ => ret (failedResult item)).

Fixpoint searchLoop (extractedItems : list Item.ExtractedItem)
    (results : list ShoppingSearchResults) : M state (list ShoppingSearchResults) :=
  match extractedItems with
  | [] => ret results
  | item :: rest =>
      (r <- searchOne item ;; searchLoop rest (results ++ [r]))%js
  end.

Definition searchProductsForExtractedItems (extractedItems : list Item.ExtractedItem)
    : M state (list ShoppingSearchResults) :=
  searchLoop extractedItems [].

End Service.

Arguments world {World} _.
Arguments calls {World} _.
Arguments mkState {World} _ _.

(** *** Vocabulary of the statements about this module *)

Definition hasImage (item : Item.ExtractedItem) : bool :=
  truthyOpt (Item.extractedImageUrl item).

(** A run that returns normally and whose calls are all made for [item]. *)
Definition returns {World A : Type} (item : Item.ExtractedItem)
    (m : M (state World) A) (s : state World) (a : A) (s' : state World) : Prop :=
  m s = (Ok a, s') /\
  exists new, calls s' = calls s ++ new /\ Forall (fun c => callItem c = item) new.

(** The result that belongs to an item. *)
Definition resultFor (item : Item.ExtractedItem) (r : ShoppingSearchResults) : Prop :=
  exists ps, r = foundResult item ps /\ (hasImage item = false -> ps = []).

End Matcher.

(** ** Item extractor (ItemExtractionService) *)

Module Extraction.
Import JsString JsObject Effects.
Import Item.

(** *** Duplicate removal *)

Definition typeMap : list (string * string) :=
  [ ("shoe", "shoes"); ("boot", "shoes"); ("boots", "shoes");
    ("sneaker", "shoes"); ("sneakers", "shoes");
    ("sandal", "shoes"); ("sandals", "shoes");
    ("heel", "shoes"); ("heels", "shoes");
    ("earring", "earrings"); ("glove", "gloves");
    ("sock", "socks"); ("stocking", "socks") ].

(** [typeMap[type] || type] is a string, or the inherited member that the
    lower-cased type happens to name. *)
Inductive typeValue :=
| TStr (s : string)
| TObj (repr : string).

Definition normalizePieceType (pieceType : string) : typeValue :=
  let type := toLowerCase pieceType in
  match assoc type typeMap with
  | Some t => TStr t
  | None =>
      match assoc type objectPrototype with
      | Some r => TObj r
      | None => TStr type
      end
  end.

(** The value inside a template literal. *)
Definition typeToString (v : typeValue) : string :=
  match v with TStr s => s | TObj r => r end.

(** [a === b]. *)
Definition typeEq (a b : typeValue) : bool :=
  match a, b with
  | TStr s, TStr t => String.eqb s t
  | TObj r, TObj r' => String.eqb r r'
  | _, _ => false
  end.

Definition stopWords : list string := [ "left"; "right"; "pair"; "pairs"; "both" ].

Fixpoint dropChars (n : nat) (s : string) : string :=
  match n, s with
  | S n', String _ s' => dropChars n' s'
  | _, _ => s
  end.

(** [\b] after a word: the input ends or goes on with a non-word
    character. *)
Definition boundaryAhead (rest : string) : bool :=
  match rest with
  | EmptyString => true
  | String c _ => negb (isWordChar c)
  end.

(** The first alternative of [(left|right|pair|pairs|both)\b] that matches
    at the head of [s], by its length. *)
Fixpoint matchAlternative (alts : list string) (s : string) : option nat :=
  match alts with
  | [] => None
  | w :: alts' =>
      if String.prefix w s && boundaryAhead (dropChars (String.length w) s)
      then Some (String.length w)
      else matchAlternative alts' s
  end.

(** [s.replace(/\b(left|right|pair|pairs|both)\b/g, '')], scanning from the
    left: [prevWord] tells whether the previous character is a word
    character (no [\b] here then, all alternatives starting with a letter),
    [skip] counts the characters of a match still to drop. *)
Fixpoint stripStopWords (prevWord : bool) (skip : nat) (s : string) : string :=
  match s with
  | EmptyString => EmptyString
  | String c s' =>
      match skip with
      | S k => stripStopWords (isWordChar c) k s'
      | O =>
          match (if prevWord then None else matchAlternative stopWords s) with
          | Some (S k) => stripStopWords (isWordChar c) k s'
          | _ => String c (stripStopWords (isWordChar c) 0 s')
          end
      end
  end.

Definition normalizeDescription (description : string) : string :=
  substring0 50
    (trim (collapseWhitespace (stripStopWords false 0 (toLowerCase description)))).

Definition generateItemKey (item : ExtractedItem) : string :=
  let normalizedType := normalizePieceType (pieceType item) in
  let normalizedColor :=
    match color item with
    | Some c => if truthy c then toLowerCase c else "unknown"
    | None => "unknown"
    end in
  let normalizedDescription := normalizeDescription (description item) in
  typeToString normalizedType +:+ "-" +:+ normalizedColor +:+ "-" +:+ normalizedDescription.

Definition colorGroups : list (list string) :=
  [ [ "black"; "dark"; "charcoal" ];
    [ "white"; "cream"; "ivory"; "off-white" ];
    [ "blue"; "navy"; "denim" ];
    [ "brown"; "tan"; "beige"; "camel" ];
    [ "red"; "burgundy"; "wine" ];
    [ "pink"; "rose"; "blush" ] ].

Definition inList (s : string) (l : list string) : bool := existsb (String.eqb s) l.

Definition colorsMatch (color1 color2 : option string) : bool :=
  if negb (truthyOpt color1) || negb (truthyOpt color2) then true
  else
    match color1, color2 with
    | Some a, Some b =>
        let c1 := toLowerCase a in
        let c2 := toLowerCase b in
        if String.eqb c1 c2 then true
        else existsb (fun group => inList c1 group && inList c2 group) colorGroups
    | _, _ => true
    end.

(** [new Set(desc.split(' ').filter(w => w.length > 2))], as its elements. *)
Definition wordSet (desc : string) : list string :=
  nodup String.string_dec
    (List.filter (fun w => (2 <? String.length w)%nat) (split " " desc)).

Definition ratio (a b : nat) : Q :=
  (inject_Z (Z.of_nat a) / inject_Z (Z.of_nat b))%Q.

Definition calculateDescriptionSimilarity (desc1 desc2 : string) : Q :=
  let words1 := wordSet desc1 in
  let words2 := wordSet desc2 in
  let intersection := List.filter (fun w => inList w words2) words1 in
  let union := nodup String.string_dec (words1 ++ words2)%list in
  if (0 <? length union)%nat then ratio (length intersection) (length union) else 0%Q.

Definition Qgtb (a b : Q) : bool := negb (Qle_bool a b).

Definition calculateSpatialSimilarity (box1 box2 : BoundingBox.t) : Q :=
  let x1 := Qmax (BoundingBox.x box1) (BoundingBox.x box2) in
  let y1 := Qmax (BoundingBox.y box1) (BoundingBox.y box2) in
  let x2 := Qmin (BoundingBox.x box1 + BoundingBox.width box1)
                 (BoundingBox.x box2 + BoundingBox.width box2) in
  let y2 := Qmin (BoundingBox.y box1 + BoundingBox.height box1)
                 (BoundingBox.y box2 + BoundingBox.height box2) in
  if Qle_bool x2 x1 || Qle_bool y2 y1 then 0%Q
  else
    let overlapArea := ((x2 - x1) * (y2 - y1))%Q in
    let box1Area := (BoundingBox.width box1 * BoundingBox.height box1)%Q in
    let box2Area := (BoundingBox.width box2 * BoundingBox.height box2)%Q in
    let unionArea := (box1Area + box2Area - overlapArea)%Q in
    if Qgtb unionArea 0 then (overlapArea / unionArea)%Q else 0%Q.

Definition pairedTypes : list string := [ "shoes"; "earrings"; "gloves"; "socks" ].

Definition isPairedType (v : typeValue) : bool :=
  match v with
  | TStr s => inList s pairedTypes
  | TObj _ => false
  end.

(** The test made on one existing item inside the loop of
    [isDuplicatePairedItem]. *)
Definition duplicateOf (newItem existingItem : ExtractedItem) : bool :=
  let newItemType := normalizePieceType (pieceType newItem) in
  let existingType := normalizePieceType (pieceType existingItem) in
  if typeEq existingType newItemType then
    let colorMatch := colorsMatch (color newItem) (color existingItem) in
    let descriptionSimilarity :=
      calculateDescriptionSimilarity
        (normalizeDescription (description newItem))
        (normalizeDescription (description existingItem)) in
    let spatialSimilarity :=
      calculateSpatialSimilarity (boundingBox newItem) (boundingBox existingItem) in
    colorMatch && (Qgtb descriptionSimilarity 0.6 || Qgtb spatialSimilarity 0.3)
  else false.

Definition isDuplicatePairedItem (newItem : ExtractedItem)
    (existingItems : list ExtractedItem) : bool :=
  let newItemType := normalizePieceType (pieceType newItem) in
  if negb (isPairedType newItemType) then false
  else existsb (duplicateOf newItem) existingItems.

Record dedupState := mkDedup {
  deduplicatedItems : list ExtractedItem;
  seenItems : gset string
}.

Definition removeStep (st : dedupState) (item : ExtractedItem) : dedupState :=
  let itemKey := generateItemKey item in
  if negb (bool_decide (itemKey ∈ seenItems st)) then
    {| seenItems := {[ itemKey ]} ∪ seenItems st;
       deduplicatedItems := deduplicatedItems st ++ [item] |}
  else
    let isDuplicate := isDuplicatePairedItem item (deduplicatedItems st) in
    if negb isDuplicate then
      {| seenItems := seenItems st;
         deduplicatedItems := deduplicatedItems st ++ [item] |}
    else st.

Definition removeDuplicateItems (items : list ExtractedItem) : list ExtractedItem :=
  deduplicatedItems
    (fold_left removeStep items {| deduplicatedItems := []; seenItems := ∅ |}).

(** The pair-duplicate predicate of the specification, on two items of an
    extraction result: a paired piece type shared by both, matching colour
    group, and description overlap above 0.6 or box overlap above 0.3. *)
Definition pairDuplicate (a b : ExtractedItem) : bool :=
  isPairedType (normalizePieceType (pieceType a)) && duplicateOf a b.

(** *** Description enhancement *)

Definition meaningful (o : option string) (excluded : list string) : list string :=
  match o with
  | Some s => if truthy s && negb (inList s excluded) then [s] else []
  | None => []
  end.

Fixpoint join (sep : string) (parts : list string) : string :=
  match parts with
  | [] => EmptyString
  | [p] => p
  | p :: rest => p +:+ sep +:+ join sep rest
  end.

Definition enhanceItemDescription (item : ExtractedItem) : string :=
  let parts := meaningful (color item) [ "various"; "unknown" ] in
  let parts := (parts ++ meaningful (pattern item) [ "solid"; "unknown" ])%list in
  let parts := (parts ++ [ pieceType item ])%list in
  let parts := (parts ++ meaningful (style item) [ "unknown" ])%list in
  let type := toLowerCase (pieceType item) in
  let parts :=
    (if String.eqb type "dress" then parts ++ [ "women's"; "fashion" ]
     else if String.eqb type "shoes" then parts ++ [ "footwear" ]
     else if String.eqb type "bag" then parts ++ [ "handbag"; "accessory" ]
     else if String.eqb type "sunglasses" then parts ++ [ "eyewear"; "accessory" ]
     else parts)%list in
  join " " parts.

(** *** Keyword scan of the raw response *)

Definition clothingTypes : list string :=
  [ "dress"; "shirt"; "pants"; "shoes"; "bag"; "sunglasses"; "jewelry";
    "jacket"; "coat"; "skirt"; "shorts" ].

(** Case folding of the [i] flag on one code unit: the upper-case form when
    it is again one code unit of the same range. *)
Definition canonicalize (c : ascii) : ascii :=
  if isLower c || (inRange 224 254 c && negb (code c =? 247)%N)
  then ascii_of_N (code c - 32) else c.

Fixpoint prefixIgnoreCase (pat s : string) : bool :=
  match pat, s with
  | EmptyString, _ => true
  | String a pat', String b s' =>
      Ascii.eqb (canonicalize a) (canonicalize b) && prefixIgnoreCase pat' s'
  | String _ _, EmptyString => false
  end.

(** [new RegExp(type, 'gi').test(text)] for a pattern of plain letters. *)
Fixpoint regexTest (pat text : string) : bool :=
  prefixIgnoreCase pat text ||
  match text with
  | EmptyString => false
  | String _ text' => regexTest pat text'
  end.

(* Applied to the keywords of the table only, all of lower-case letters. *)
Definition capitalize (s : string) : string :=
  match s with
  | EmptyString => EmptyString
  | String c s' => String (canonicalize c) s'
  end.

(** [a % b]: the remainder of the division truncated towards zero. *)
Definition truncate (q : Q) : Z := Z.quot (Qnum q) (Zpos (Qden q)).

Definition Qrem (a b : Q) : Q :=
  (a - b * inject_Z (truncate (a / b)))%Q.

(** The box of the keyword at index [i]; [Qred] keeps each coordinate in
    lowest terms. *)
Definition placeholderBox (i : nat) : BoundingBox.t :=
  let n := inject_Z (Z.of_nat i) in
  {| BoundingBox.x := Qred (0.1 + Qrem (n * 0.1) 0.8);
     BoundingBox.y := Qred (0.1 + inject_Z (Z.of_nat (i / 3)) * 0.3);
     BoundingBox.width := 0.3;
     BoundingBox.height := 0.3 |}.

Definition keywordItem (i : nat) (type : string) : ExtractedItem :=
  {| id := "extracted-fallback-" +:+ ofNat i;
     pieceType := type;
     description := capitalize type +:+ " identified in flat lay";
     boundingBox := placeholderBox i;
     confidence := 0.7;
     extractedImagePath := None;
     extractedImageUrl := None;
     color := Some "various";
     pattern := Some "unknown";
     style := Some "casual" |}.

(** The loop [for (let i = 0; i < clothingTypes.length; i++)], from index
    [i] on over the rest of the table. *)
Fixpoint scanKeywords (analysisText : string) (i : nat) (types : list string)
    (items : list ExtractedItem) : list ExtractedItem :=
  match types with
  | [] => items
  | type :: rest =>
      let items :=
        (if regexTest type analysisText then items ++ [ keywordItem i type ]
         else items)%list in
      scanKeywords analysisText (S i) rest items
  end.

Definition extractItemsWithRegex (analysisText flatLayImageUrl : string)
    : list ExtractedItem :=
  let items := scanKeywords analysisText 0 clothingTypes [] in
  take 5 items.

(** *** Parsing the model's answer *)

(** A string property of a parsed element as [JSON.parse] leaves it: the
    key is missing, its value is [null], or it is a string. *)
Inductive Property :=
| Missing
| Null
| Text (s : string).

(** An element of the parsed JSON array whose properties have the types of
    the [ExtractedItem] interface: strings, a box of numbers, a number.
    [None] is a key that is missing or whose value is [null]; for
    [pieceType] the two are kept apart, as a template literal prints them
    differently.  An element with a property of another JSON type is
    outside this embedding: the code copies such a value as it is, and a
    truthy [pieceType], [description] or [color] that is no string makes
    duplicate removal throw. *)
Record RawItem := mkRawItem {
  rawPieceType : Property;
  rawDescription : option string;
  rawBoundingBox : option BoundingBox.t;
  rawConfidence : option Q;
  rawColor : option string;
  rawPattern : option string;
  rawStyle : option string
}.

Definition orElse (o : option string) (d : string) : string :=
  match o with
  | Some s => if truthy s then s else d
  | None => d
  end.

(** [item.pieceType || d]. *)
Definition textOr (p : Property) (d : string) : string :=
  match p with
  | Text s => if truthy s then s else d
  | Missing | Null => d
  end.

(** A property inside a template literal. *)
Definition interpolate (p : Property) : string :=
  match p with
  | Missing => "undefined"
  | Null => "null"
  | Text s => s
  end.

Definition defaultBox : BoundingBox.t :=
  {| BoundingBox.x := 0.1; BoundingBox.y := 0.1;
     BoundingBox.width := 0.8; BoundingBox.height := 0.8 |}.

Definition isZero (q : Q) : bool := Qeq_bool q 0.

Section Parsing.
(** [md5hex s] is [createHash('md5').update(s).digest('hex')];
    [parseJsonArray text] is the array [JSON.parse] yields on the
    bracketed part of the text ([None]: it throws or the value is not an
    array), a [None] element being a [null] entry. *)
Variable md5hex : string -> string.
Variable parseJsonArray : string -> option (list (option RawItem)).

Definition parsedItem (flatLayImageUrl : string) (index : nat) (item : RawItem)
    : ExtractedItem :=
  {| id := "extracted-" +:+ substring0 8 (md5hex (flatLayImageUrl +:+ ofNat index));
     pieceType := textOr (rawPieceType item) "unknown";
     description := orElse (rawDescription item)
                      (interpolate (rawPieceType item) +:+ " item");
     boundingBox := match rawBoundingBox item with Some b => b | None => defaultBox end;
     confidence := match rawConfidence item with
                   | Some c => if isZero c then 0.8%Q else c
                   | None => 0.8%Q
                   end;
     extractedImagePath := None;
     extractedImageUrl := None;
     color := rawColor item;
     pattern := rawPattern item;
     style := rawStyle item |}.

(** [parsedItems.map((item, index) => ...)]; reading a property of a
    [null] entry throws. *)
Fixpoint mapItems (flatLayImageUrl : string) (index : nat)
    (parsedItems : list (option RawItem)) : option (list ExtractedItem) :=
  match parsedItems with
  | [] => Some []
  | None :: _ => None
  | Some item :: rest =>
      option_map (cons (parsedItem flatLayImageUrl index item))
                 (mapItems flatLayImageUrl (S index) rest)
  end.

Definition parseGeminiResponse (analysisText flatLayImageUrl : string)
    : list ExtractedItem :=
  match parseJsonArray analysisText with
  | Some parsedItems =>
      match mapItems flatLayImageUrl 0 parsedItems with
      | Some items => items
      | None => extractItemsWithRegex analysisText flatLayImageUrl
      end
  | None => extractItemsWithRegex analysisText flatLayImageUrl
  end.

End Parsing.

(** *** The service *)

Definition basename (path : string) : string := List.last (split "/" path) EmptyString.

(** [value || undefined]. *)
Definition orUndefined (o : option string) : option string :=
  if truthyOpt o then o else None.

Section Service.
(** The outside world and the collaborators of the service:
    - [genAI], [model]: the client and the model handle exist (both are
      created in the constructor when an API key is configured);
    - [port]: the configured port, as it prints;
    - [now]: [Date.now()];
    - [axiosGet]: the HTTP fetch of the flat-lay image;
    - [generateText]: the analysis call, giving [response.text()];
    - [generateImage alt item image]: the isolation call for one item
      (with the cropping prompt when [alt]), giving the first inline
      image part of the first candidate, if any;
    - [writeFile]: creating the directory and writing the image. *)
Variable World : Type.
Variable Image : Type.
Variable InlineData : Type.
Variable genAI : bool.
Variable model : bool.
Variable port : string.
Variable md5hex : string -> string.
Variable parseJsonArray : string -> option (list (option RawItem)).
Variable now : World -> Z * World.
Variable axiosGet : string -> World -> Result Image * World.
Variable generateText : Image -> World -> Result string * World.
Variable generateImage :
  bool -> ExtractedItem -> Image -> World -> Result (option InlineData) * World.
Variable writeFile : string -> InlineData -> World -> Result unit * World.

Definition dateNow : M World Z :=
  fun w => let (t, w') := now w in (Ok t, w').

Definition generateFallbackItems (flatLayImageUrl : string)
    : M World (list ExtractedItem) :=
  (t1 <- dateNow ;;
   t2 <- dateNow ;;
   t3 <- dateNow ;;
   ret
     [ {| id := "fallback-dress-" +:+ ofZ t1;
          pieceType := "dress";
          description := "Dress from flat lay outfit";
          boundingBox := {| BoundingBox.x := 0.2; BoundingBox.y := 0.1;
                            BoundingBox.width := 0.6; BoundingBox.height := 0.7 |};
          confidence := 0.6;
          extractedImagePath := None;
          extractedImageUrl := None;
          color := Some "various";
          pattern := Some "unknown";
          style := Some "casual" |};
       {| id := "fallback-shoes-" +:+ ofZ t2;
          pieceType := "shoes";
          description := "Shoes from flat lay outfit";
          boundingBox := {| BoundingBox.x := 0.1; BoundingBox.y := 0.8;
                            BoundingBox.width := 0.3; BoundingBox.height := 0.15 |};
          confidence := 0.6;
          extractedImagePath := None;
          extractedImageUrl := None;
          color := Some "various";
          pattern := Some "unknown";
          style := Some "casual" |};
       {| id := "fallback-bag-" +:+ ofZ t3;
          pieceType := "bag";
          description := "Bag from flat lay outfit";
          boundingBox := {| BoundingBox.x := 0.7; BoundingBox.y := 0.3;
                            BoundingBox.width := 0.25; BoundingBox.height := 0.3 |};
          confidence := 0.6;
          extractedImagePath := None;
          extractedImageUrl := None;
          color := Some "various";
          pattern := Some "unknown";
          style := Some "casual" |} ])%js.

Definition saveExtractedItemImage (inlineData : InlineData) (outputPath : string)
    : M World string :=
  tryCatch
    (_ <- writeFile outputPath inlineData ;;
     let publicUrl := "/generated/items/" +:+ basename outputPath in
     ret ("http://localhost:" +:+ port +:+ publicUrl))%js
    (fun error => throw error).

Definition tryAlternativeExtraction (item : ExtractedItem) (image : Image)
    (itemPath : string) : M World (option string) :=
  if negb genAI || negb model then ret None
  else
    tryCatch
      (part <- generateImage true item image ;;
       match part with
       | Some inlineData =>
           (saved <- saveExtractedItemImage inlineData itemPath ;; ret (Some saved))
       | None => ret None
       end)%js
      (fun _ => ret None).

Definition withDescription (item : ExtractedItem) (d : string) : ExtractedItem :=
  {| id := id item; pieceType := pieceType item; description := d;
     boundingBox := boundingBox item; confidence := confidence item;
     extractedImagePath := extractedImagePath item;
     extractedImageUrl := extractedImageUrl item;
     color := color item; pattern := pattern item; style := style item |}.

Definition withImage (item : ExtractedItem) (imagePath imageUrl : option string)
    (d : string) : ExtractedItem :=
  {| id := id item; pieceType := pieceType item; description := d;
     boundingBox := boundingBox item; confidence := confidence item;
     extractedImagePath := imagePath;
     extractedImageUrl := imageUrl;
     color := color item; pattern := pattern item; style := style item |}.

(** The body of the loop of [generateItemImages]: the [try] block and its
    [catch]. *)
Definition generateItemImage (item : ExtractedItem) (image : Image)
    : M World ExtractedItem :=
  tryCatch
    (let itemHash := md5hex (id item +:+ description item) in
     stamp <- dateNow ;;
     let itemFilename := "item_" +:+ itemHash +:+ "_" +:+ ofZ stamp +:+ ".png" in
     let itemPath := "public/generated/items/" +:+ itemFilename in
     startTime <- dateNow ;;
     part <- generateImage false item image ;;
     endTime <- dateNow ;;
     saved <- match part with
              | Some inlineData =>
                  (savedUrl <- saveExtractedItemImage inlineData itemPath ;;
                   ret (Some itemPath, Some savedUrl))
              | None => ret (None, None)
              end ;;
     let extractedImagePath := fst saved in
     extractedImageUrl <-
       (if negb (truthyOpt (snd saved))
        then tryAlternativeExtraction item image itemPath
        else ret (snd saved)) ;;
     ret (withImage item (orUndefined extractedImagePath)
            (orUndefined extractedImageUrl) (enhanceItemDescription item)))%js
    (fun _ => ret (withDescription item (enhanceItemDescription item))).

Fixpoint generateItemImagesLoop (items : list ExtractedItem) (image : Image)
    (itemsWithImages : list ExtractedItem) : M World (list ExtractedItem) :=
  match items with
  | [] => ret itemsWithImages
  | item :: rest =>
      (enhancedItem <- generateItemImage item image ;;
       generateItemImagesLoop rest image (itemsWithImages ++ [ enhancedItem ]))%js
  end.

Definition generateItemImages (items : list ExtractedItem) (image : Image)
    : M World (list ExtractedItem) :=
  if negb genAI || negb model then ret items
  else generateItemImagesLoop items image [].

Definition extractIndividualItems (flatLayImageUrl : string)
    : M World (list ExtractedItem) :=
  if negb genAI || negb model then throw "Gemini API not configured"
  else
    tryCatch
      (imageResponse <- axiosGet flatLayImageUrl ;;
       startTime <- dateNow ;;
       analysisText <- generateText imageResponse ;;
       endTime <- dateNow ;;
       let extractedItems :=
         parseGeminiResponse md5hex parseJsonArray analysisText flatLayImageUrl in
       let deduplicatedItems := removeDuplicateItems extractedItems in
       itemsWithImages <- generateItemImages deduplicatedItems imageResponse ;;
       ret itemsWithImages)%js
      (fun _ => generateFallbackItems flatLayImageUrl).

End Service.

(** *** Vocabulary of the statements about this module *)

(** The keyword table with its indices, the entries found in a text, and
    the item of an entry. *)
Definition indexed (i : nat) (types : list string) : list (nat * string) :=
  combine (seq i (length types)) types.

Definition found (analysisText : string) (entry : nat * string) : bool :=
  regexTest (snd entry) analysisText.

Definition entryItem (entry : nat * string) : ExtractedItem :=
  keywordItem (fst entry) (snd entry).

(** A code unit that the pattern of a keyword accepts for its letter [k]
    under the [i] flag: the letter itself or its capital. *)
Definition sameLetter (k c : ascii) : bool :=
  Ascii.eqb c k || (code c + 32 =? code k)%N.

(** [word] spells the keyword [type] letter by letter, in any mix of
    small and capital letters. *)
Fixpoint spelled (type word : string) : bool :=
  match type, word with
  | EmptyString, EmptyString => true
  | String k type', String c word' => sameLetter k c && spelled type' word'
  | _, _ => false
  end.

(** The keyword occurs in the text. *)
Definition occursIn (type text : string) : Prop :=
  exists before word after,
    text = before +:+ word +:+ after /\ spelled type word = true.

(** A box inside the image, whose sides run from 0 to 1. *)
Definition withinImage (box : BoundingBox.t) : Prop :=
  (0 <= BoundingBox.x box /\ 0 <= BoundingBox.y box /\
   BoundingBox.x box + BoundingBox.width box <= 1 /\
   BoundingBox.y box + BoundingBox.height box <= 1)%Q.

(** What duplicate removal maintains: [seenItems] holds the keys of the kept
    items, and an item kept although its key had been seen is no paired
    duplicate of anything kept before it. *)
Definition checkedState (st : dedupState) : Prop :=
  (forall k, k ∈ seenItems st <->
             exists E, E ∈ deduplicatedItems st /\ generateItemKey E = k) /\
  (forall j L,
      deduplicatedItems st !! j = Some L ->
      (exists E, E ∈ take j (deduplicatedItems st) /\
                 generateItemKey E = generateItemKey L) ->
      isDuplicatePairedItem L (take j (deduplicatedItems st)) = false).


#[export] Instance Q_eq_dec : EqDecision Q.
Proof. solve_decision. Defined.

End Extraction.

(** ** The model catalogue and its outfits (ModelService, OutfitService,
       ModelController, validatePagination) *)

Module Catalogue.
Import JsString JsObject.

Record Model := mkModel {
  id : string;
  name : string;
  imageUrl : string;
  originalSource : string;
  createdAt : string
}.

Record Outfit := mkOutfit {
  outfitId : string;
  modelId : string;
  flatLayUrl : option string;
  geminiProcessedAt : option string;
  styleTags : list string;
  outfitCreatedAt : string
}.

Definition modelImages : list string :=
  [ "https://img01.ztat.net/article/spp-media-p1/c2f929754cfd44ca98d12e11884a6ec4/6d1326596f2b4fc39ddc0363e1890dde.jpg?imwidth=1800";
    "https://plus.unsplash.com/premium_photo-1673758905770-a62f4309c43c?w=900&auto=format&fit=crop&q=60&ixlib=rb-4.1.0&ixid=M3wxMjA3fDB8MHxzZWFyY2h8MXx8bW9kZWx8ZW58MHx8MHx8fDA%3D";
    "https://images.unsplash.com/photo-1515886657613-9f3515b0c78f?w=900&auto=format&fit=crop&q=60&ixlib=rb-4.1.0&ixid=M3wxMjA3fDB8MHxzZWFyY2h8Mnx8bW9kZWx8ZW58MHx8MHx8fDA%3D";
    "https://images.unsplash.com/photo-1516726817505-f5ed825624d8?w=900&auto=format&fit=crop&q=60&ixlib=rb-4.1.0&ixid=M3wxMjA3fDB8MHxzZWFyY2h8MTB8fG1vZGVsfGVufDB8fDB8fHww";
    "https://plus.unsplash.com/premium_photo-1661775820832-f971657b13f6?w=900&auto=format&fit=crop&q=60&ixlib=rb-4.1.0&ixid=M3wxMjA3fDB8MHxzZWFyY2h8MTd8fG1vZGVsfGVufDB8fDB8fHww";
    "https://images.unsplash.com/photo-1562572159-4efc207f5aff?w=900&auto=format&fit=crop&q=60&ixlib=rb-4.1.0&ixid=M3wxMjA3fDB8MHxzZWFyY2h8MjB8fG1vZGVsfGVufDB8fDB8fHww" ].

(** [arr.slice(start, end)] on integral arguments: a negative index counts
    from the end, and both are clamped to the array. *)
Definition relativeIndex (len : nat) (i : Z) : nat :=
  if (i <? 0)%Z then Z.to_nat (Z.max (Z.of_nat len + i) 0)
  else Nat.min (Z.to_nat i) len.

Definition slice {A : Type} (start final : Z) (l : list A) : list A :=
  let k := relativeIndex (length l) start in
  let final := relativeIndex (length l) final in
  take (final - k) (drop k l).

(** [parseInt(text) || fallback], on what [parseInt] gave ([None]: NaN). *)
Definition orNumber (parsed : option Z) (fallback : Z) : Z :=
  match parsed with
  | Some n => if (n =? 0)%Z then fallback else n
  | None => fallback
  end.

(** What [validatePagination] does with a request: a 400 response, or
    [next()] with the query rewritten. *)
Inductive Validation :=
| BadRequest (error message : string)
| Next (page limit : string).

Section Validation.
(** [numberToString n] is [n.toString()] for an integral number [n]: its
    decimal numeral below 10^21, the exponent form from there on. *)
Variable numberToString : Z -> string.

Definition validatePagination (parsedPage parsedLimit : option Z) : Validation :=
  let page := orNumber parsedPage 1 in
  let limit := orNumber parsedLimit 20 in
  if (page <? 1)%Z then
    BadRequest "Invalid pagination" "Page must be greater than 0"
  else if (limit <? 1)%Z || (100 <? limit)%Z then
    BadRequest "Invalid pagination" "Limit must be between 1 and 100"
  else Next (numberToString page) (numberToString limit).

End Validation.

Record Page := mkPage {
  models : list Model;
  total : nat
}.

Record PaginatedResponse := mkResponse {
  data : list Model;
  page : Z;
  limit : Z;
  responseTotal : nat;
  hasMore : bool
}.

Section Service.
(** [stamp i]: the time [new Date().toISOString()] gives when the model at
    index [i] is built; [clock]: the time it gives when an outfit is. *)
Variable stamp : nat -> string.
Variable clock : string.

Definition mockModels : list Model :=
  map (fun index =>
         {| id := "model-" +:+ ofNat (index + 1);
            name := "Fashion Model " +:+ ofNat (index + 1);
            imageUrl := nth (index mod length modelImages) modelImages "";
            originalSource := "Unsplash";
            createdAt := stamp index |})
      (seq 0 100).

Definition getModels (page limit : Z) : Page :=
  let offset := ((page - 1) * limit)%Z in
  let models := slice offset (offset + limit) mockModels in
  {| models := models; total := length mockModels |}.

(** [find(...) || null]. *)
Definition getModelById (id' : string) : option Model :=
  List.find (fun model => String.eqb (id model) id') mockModels.

Definition getModelOutfit (modelId : string) : option Outfit :=
  match getModelById modelId with
  | None => None
  | Some _ =>
      Some {| outfitId := "outfit-" +:+ modelId;
              modelId := modelId;
              flatLayUrl := None;
              geminiProcessedAt := None;
              styleTags := [ "casual"; "street-style" ];
              outfitCreatedAt := clock |}
  end.

(** [OutfitService.getOutfitById]; a missing array element prints as
    [undefined]. *)
Definition getOutfitById (id' : string) : Outfit :=
  {| outfitId := id';
     modelId := "model-" +:+ nth 1 (split "-" id') "undefined";
     flatLayUrl := Some ("https://picsum.photos/600/400?random=" +:+ id');
     geminiProcessedAt := Some clock;
     styleTags := [ "casual"; "street-style"; "trendy" ];
     outfitCreatedAt := clock |}.

(** The body of [ModelController.getModels] that answers a request. *)
Definition getModelsResponse (parsedPage parsedLimit : option Z) : PaginatedResponse :=
  let page := orNumber parsedPage 1 in
  let limit := orNumber parsedLimit 20 in
  let result := getModels page limit in
  {| data := models result;
     page := page;
     limit := limit;
     responseTotal := total result;
     hasMore := (page * limit <? Z.of_nat (total result))%Z |}.

End Service.
End Catalogue.

(** ** Helpers of the search backends (ShoppingSearchService) *)

Module Shopping.
Import JsString JsObject Fusion.

(** [s.includes(sub)]. *)
Fixpoint includes (s sub : string) : bool :=
  String.prefix sub s ||
  match s with
  | EmptyString => false
  | String _ s' => includes s' sub
  end.

Definition shoppingDomains : list string :=
  [ "amazon.com"; "ebay.com"; "etsy.com"; "target.com"; "walmart.com";
    "zara.com"; "hm.com"; "asos.com"; "nordstrom.com"; "macys.com";
    "gap.com"; "jcrew.com"; "bananarepublic.com"; "anthropologie.com";
    "urbanoutfitters.com"; "forever21.com"; "shein.com"; "zappos.com";
    "saks.com"; "barneys.com"; "bloomingdales.com"; "kohls.com";
    "tjmaxx.com"; "marshalls.com"; "oldnavy.com"; "uniqlo.com" ].

Definition isShoppingDomain (url : string) : bool :=
  existsb (fun domain => includes (toLowerCase url) domain) shoppingDomains.

Definition irrelevantTerms : list string :=
  [ "men's"; "boys"; "kids"; "children"; "baby"; "toddler" ].

Definition isValidProduct (product : ProductResult) : bool :=
  if negb (truthy (title product)) || negb (truthy (url product)) then false
  else
    let title := toLowerCase (title product) in
    if existsb (fun term => includes title term && negb (includes title "women"))
               irrelevantTerms
    then false
    else true.

(** The class [[\d,]]. *)
Definition isPriceChar (c : ascii) : bool := isDigit c || (code c =? 44)%N.

Fixpoint takeWhile (p : ascii -> bool) (s : string) : string :=
  match s with
  | EmptyString => EmptyString
  | String c s' => if p c then String c (takeWhile p s') else EmptyString
  end.

Fixpoint dropWhile (p : ascii -> bool) (s : string) : string :=
  match s with
  | EmptyString => EmptyString
  | String c s' => if p c then dropWhile p s' else s
  end.

(** The match of [[\d,]+\.?\d*] at the head of [s]: each part is greedy and
    nothing follows that could make it give a character back. *)
Definition matchAmount (s : string) : option string :=
  let whole := takeWhile isPriceChar s in
  if truthy whole then
    match dropWhile isPriceChar s with
    | String "."%char rest => Some (whole +:+ "." +:+ takeWhile isDigit rest)
    | _ => Some whole
    end
  else None.

(** The match of [\$[\d,]+\.?\d*] at the head of [s]. *)
Definition matchPrice (s : string) : option string :=
  match s with
  | String "$"%char rest => option_map (String "$"%char) (matchAmount rest)
  | _ => None
  end.

(** [s.match(re)[0]] for a global [re]: the match at the leftmost position
    that has one. *)
Fixpoint firstMatch (matchAt : string -> option string) (s : string) : option string :=
  match matchAt s with
  | Some m => Some m
  | None =>
      match s with
      | EmptyString => None
      | String _ s' => firstMatch matchAt s'
      end
  end.

Definition extractPriceFromSnippet (snippet : string) : string :=
  match firstMatch matchPrice snippet with
  | Some m => m
  | None => "Price not available"
  end.

(** The match of [\$?[\d,]+\.?\d*] at the head of [s]: with the dollar
    sign when one is there (without it the amount would have to start at
    the sign), else the bare amount. *)
Definition matchOptionalPrice (s : string) : option string :=
  match s with
  | String "$"%char _ => matchPrice s
  | _ => matchAmount s
  end.

Definition startsWithDollar (s : string) : bool := String.prefix "$" s.

Definition extractPrice (priceText : string) : string :=
  if negb (truthy priceText) then "Price not available"
  else
    let cleaned :=
      keepChars (fun c => isDigit c || (code c =? 46)%N || (code c =? 44)%N
                          || (code c =? 36)%N) priceText in
    match firstMatch matchOptionalPrice cleaned with
    | Some m => if startsWithDollar m then m else "$" +:+ m
    | None => priceText
    end.

End Shopping.

(** ** Vocabulary of further statements

    *** Source trust along the deduplication loop *)

Module Trust.
Import Fusion.

Section Loop.
Variable h : store.

Definition trustOf (r : ref) : jsvalue := getSourceScore (source (h r)).

(** Every candidate seen so far has its title key in [seenTitles], held by
    a candidate it does not beat on source trust. *)
Definition represented (done : list ref) (st : dedupState) : Prop :=
  forall r, r ∈ done ->
    exists e, seenTitles st !! keyOf h r = Some e /\ jsGt (trustOf r) (trustOf e) = false.

(** Sources whose trust is a number of the table (or the default 0). *)
Definition numeric (r : ref) : Prop := exists n, trustOf r = JNum n.

(** The holder of a title key beats every earlier candidate of that key. *)
Definition earliest (done : list ref) (st : dedupState) : Prop :=
  forall k e, seenTitles st !! k = Some e ->
    exists i, done !! i = Some e /\
      forall j r, (j < i)%nat -> done !! j = Some r -> keyOf h r = k ->
                  jsGt (trustOf e) (trustOf r) = true.

End Loop.
End Trust.

(** *** The calls of the matcher *)

Module Protocol.
Import JsObject Fusion Matcher.

(** The address the image of an item is fetched from. *)
Definition target (item : Item.ExtractedItem) : string :=
  orDefault (Item.extractedImageUrl item) "".

(** The calls one item can cause: none, the fetch alone, or the fetch and
    then the model call. *)
Definition itemCalls (item : Item.ExtractedItem) (cs : list BackendCall) : Prop :=
  cs = [] \/
  cs = [ AxiosGet item (target item) ] \/
  cs = [ AxiosGet item (target item); GenerateContent item ].

(** The fields the matcher sets itself on every product it builds from the
    model's answer. *)
Definition wellFormed (p : ProductResult) : Prop :=
  source p = "gemini_web_search" /\
  currency p = "USD" /\ imageUrl p = None /\ availability p = "available".

(** The result and the calls that belong to an item. *)
Definition served (genAI : bool) (item : Item.ExtractedItem)
    (rc : ShoppingSearchResults * list BackendCall) : Prop :=
  exists ps,
    fst rc = foundResult item ps /\
    Forall wellFormed ps /\
    itemCalls item (snd rc) /\
    (ps <> [] -> snd rc = [ AxiosGet item (target item); GenerateContent item ]) /\
    (hasImage item && genAI = false -> snd rc = []).

End Protocol.

(** *** Lists that duplicate removal leaves alone *)

Module Settled.
Import JsString JsObject Extraction Item.

(** A list on which duplicate removal has nothing to do: an item that
    repeats the key of an earlier one is no paired duplicate of the items
    before it. *)
Definition settled (l : list ExtractedItem) : Prop :=
  forall j L,
    l !! j = Some L ->
    (exists E, E ∈ take j l /\ generateItemKey E = generateItemKey L) ->
    isDuplicatePairedItem L (take j l) = false.

Definition unpaired (item : ExtractedItem) : bool :=
  negb (isPairedType (normalizePieceType (pieceType item))).

End Settled.

(** *** Character sets of strings *)

Module Charset.
Import JsString.

(** All code units of a string satisfy [P]. *)
Fixpoint allChars (P : ascii -> bool) (s : string) : bool :=
  match s with
  | EmptyString => true
  | String c s' => P c && allChars P s'
  end.

(** The code units of a normalized title: a-z, 0-9, underscore, space. *)
Definition isKeyChar (c : ascii) : bool :=
  isLower c || isDigit c || (code c =? 95)%N || (code c =? 32)%N.

(** No two spaces in a row. *)
Fixpoint singleSpaced (s : string) : bool :=
  match s with
  | String a ((String b _) as s') =>
      negb ((code a =? 32)%N && (code b =? 32)%N) && singleSpaced s'
  | _ => true
  end.

End Charset.

(** *** Amounts of money *)

Module ShoppingShapes.
Import JsString JsObject Fusion Shopping Charset.

(** An amount as the price patterns match it: a digit or comma, then
    digits, commas and dots. *)
Definition isAmount (a : string) : bool :=
  match a with
  | String c rest =>
      isPriceChar c && allChars (fun c => isPriceChar c || (code c =? 46)%N) rest
  | EmptyString => false
  end.

End ShoppingShapes.

(** *** Items along the extraction service *)

Module Enrichment.
Import JsString JsObject Extraction Item.

(** An item after the image step: the description is the enhanced one,
    the image fields are whatever the step produced, and every other
    field is the one of the item that went in. *)
Definition enriched (item item' : ExtractedItem) : Prop :=
  id item' = id item /\
  pieceType item' = pieceType item /\
  boundingBox item' = boundingBox item /\
  confidence item' = confidence item /\
  color item' = color item /\
  pattern item' = pattern item /\
  style item' = style item /\
  description item' = enhanceItemDescription item.

(** The three fixed items of the fallback, up to their ids. *)
Definition fallbackShaped (items : list ExtractedItem) : Prop :=
  map pieceType items = [ "dress"; "shoes"; "bag" ] /\
  Forall (fun it => confidence it = 0.6%Q /\
                    extractedImageUrl it = None /\
                    extractedImagePath it = None) items.

(** What every parsed item has. *)
Definition usable (it : ExtractedItem) : Prop :=
  truthy (pieceType it) = true /\
  truthy (description it) = true /\
  ~ (confidence it == 0)%Q /\
  extractedImageUrl it = None /\
  extractedImagePath it = None.

End Enrichment.

(** ** The md5 digest ([createHash('md5').update(s).digest('hex')])

    RFC 1321, on the UTF-8 encoding of the string; words are numbers below
    2^32. *)

Module Md5.
Local Open Scope N_scope.

(** [update(s)] hashes the UTF-8 encoding: one byte for a code unit below
    128, two for the others of the code units below 256. *)
Fixpoint utf8 (s : string) : list N :=
  match s with
  | EmptyString => []
  | String c s' =>
      let n := N_of_ascii c in
      if n <? 128 then n :: utf8 s'
      else (192 + n / 64) :: (128 + n mod 64) :: utf8 s'
  end.

Definition word (n : N) : N := n mod 4294967296.

Definition rotl (x : N) (c : N) : N :=
  word (N.lor (N.shiftl x c) (N.shiftr x (32 - c))).

Definition lnot32 (x : N) : N := 4294967295 - x.

(** The per-round shift amounts and the constants [floor(2^32 * |sin(i + 1)|)]. *)
Definition shifts : list N :=
  [ 7; 12; 17; 22; 7; 12; 17; 22; 7; 12; 17; 22; 7; 12; 17; 22;
    5; 9; 14; 20; 5; 9; 14; 20; 5; 9; 14; 20; 5; 9; 14; 20;
    4; 11; 16; 23; 4; 11; 16; 23; 4; 11; 16; 23; 4; 11; 16; 23;
    6; 10; 15; 21; 6; 10; 15; 21; 6; 10; 15; 21; 6; 10; 15; 21 ].

Definition sines : list N :=
  [ 0xd76aa478; 0xe8c7b756; 0x242070db; 0xc1bdceee;
    0xf57c0faf; 0x4787c62a; 0xa8304613; 0xfd469501;
    0x698098d8; 0x8b44f7af; 0xffff5bb1; 0x895cd7be;
    0x6b901122; 0xfd987193; 0xa679438e; 0x49b40821;
    0xf61e2562; 0xc040b340; 0x265e5a51; 0xe9b6c7aa;
    0xd62f105d; 0x02441453; 0xd8a1e681; 0xe7d3fbc8;
    0x21e1cde6; 0xc33707d6; 0xf4d50d87; 0x455a14ed;
    0xa9e3e905; 0xfcefa3f8; 0x676f02d9; 0x8d2a4c8a;
    0xfffa3942; 0x8771f681; 0x6d9d6122; 0xfde5380c;
    0xa4beea44; 0x4bdecfa9; 0xf6bb4b60; 0xbebfbc70;
    0x289b7ec6; 0xeaa127fa; 0xd4ef3085; 0x04881d05;
    0xd9d4d039; 0xe6db99e5; 0x1fa27cf8; 0xc4ac5665;
    0xf4292244; 0x432aff97; 0xab9423a7; 0xfc93a039;
    0x655b59c3; 0x8f0ccc92; 0xffeff47d; 0x85845dd1;
    0x6fa87e4f; 0xfe2ce6e0; 0xa3014314; 0x4e0811a1;
    0xf7537e82; 0xbd3af235; 0x2ad7d2bb; 0xeb86d391 ].

(** Padding: the byte 0x80, zeros up to 56 modulo 64, and the length in
    bits as eight bytes, lowest first. *)
Definition littleEndian (count : nat) (n : N) : list N :=
  map (fun k => (n / 2 ^ (8 * N.of_nat k)) mod 256) (seq 0 count).

Definition padded (message : list N) : list N :=
  let len := N.of_nat (length message) in
  let zeros := N.to_nat ((119 - len mod 64) mod 64) in
  message ++ [128] ++ repeat 0 zeros ++ littleEndian 8 ((8 * len) mod 2 ^ 64).

Fixpoint fromLittleEndian (bytes : list N) : N :=
  match bytes with
  | [] => 0
  | b :: rest => b + 256 * fromLittleEndian rest
  end.

Fixpoint chunks {A : Type} (size count : nat) (l : list A) : list (list A) :=
  match count with
  | O => []
  | S count' => firstn size l :: chunks size count' (skipn size l)
  end.

Record state := mkState { a : N; b : N; c : N; d : N }.

Definition round (block : list N) (st : state) (i : nat) : state :=
  let '(mkState A B C D) := st in
  let f :=
    if (i <? 16)%nat then N.lor (N.land B C) (N.land (lnot32 B) D)
    else if (i <? 32)%nat then N.lor (N.land D B) (N.land (lnot32 D) C)
    else if (i <? 48)%nat then N.lxor B (N.lxor C D)
    else N.lxor C (N.lor B (lnot32 D)) in
  let g :=
    if (i <? 16)%nat then i
    else if (i <? 32)%nat then ((5 * i + 1) mod 16)%nat
    else if (i <? 48)%nat then ((3 * i + 5) mod 16)%nat
    else ((7 * i) mod 16)%nat in
  let sum := word (f + A + nth i sines 0 + nth g block 0) in
  mkState D (word (B + rotl sum (nth i shifts 0))) B C.

Definition compress (st : state) (bytes : list N) : state :=
  let block := map fromLittleEndian (chunks 4 16 bytes) in
  let '(mkState A B C D) := fold_left (round block) (seq 0 64) st in
  mkState (word (a st + A)) (word (b st + B)) (word (c st + C)) (word (d st + D)).

Definition initial : state :=
  mkState 0x67452301 0xefcdab89 0x98badcfe 0x10325476.

Definition hexDigit (n : N) : ascii :=
  if n <? 10 then ascii_of_N (48 + n) else ascii_of_N (87 + n).

Fixpoint hexBytes (bytes : list N) : string :=
  match bytes with
  | [] => EmptyString
  | x :: rest => String (hexDigit (x / 16)) (String (hexDigit (x mod 16)) (hexBytes rest))
  end.

Definition md5hex (s : string) : string :=
  let bytes := padded (utf8 s) in
  let st := fold_left compress (chunks 64 (length bytes / 64) bytes) initial in
  hexBytes (littleEndian 4 (a st) ++ littleEndian 4 (b st) ++
            littleEndian 4 (c st) ++ littleEndian 4 (d st)).

End Md5.

(** ** Sample data *)

Module Examples.
Import JsString JsObject Effects Fusion Matcher Extraction.

Definition candidate (src : string) (n : nat) : ProductResult :=
  {| title := "Linen midi dress no. " +:+ ofNat n;
     price := "$49.99";
     currency := "USD";
     url := "https://www.zara.com/product/" +:+ ofNat n;
     retailer := "Zara";
     imageUrl := None;
     rating := None;
     reviewCount := None;
     availability := "available";
     source := src |}.

Definition tenCandidates : store := candidate "gemini_web_search".
Definition tenProducts : list ref := seq 0 10.

Definition dress : Item.ExtractedItem :=
  {| Item.id := "extracted-0a1b2c3d";
     Item.pieceType := "dress";
     Item.description := "Red long-sleeve midi dress with belt";
     Item.boundingBox := BoundingBox.mk 0.2 0.1 0.6 0.7;
     Item.confidence := 0.95;
     Item.extractedImagePath := Some "public/generated/items/item_1.png";
     Item.extractedImageUrl := Some "http://localhost:3001/generated/items/item_1.png";
     Item.color := Some "red";
     Item.pattern := Some "solid";
     Item.style := Some "casual elegant" |}.

(** A first output of the fusion stage, and the array that holds it. *)
Definition firstOutput : list RankedProduct :=
  deduplicateAndRankProducts (candidate "google_lens") [3; 1; 3; 2]%nat dress.

Definition fedBack : store * list ref :=
  arrayOf (candidate "" 0) (map product firstOutput).

(** A world that counts the outbound calls, a fetch that succeeds and a
    model that answers with one product. *)
Definition countingGet (target : string) (w : nat) : Result string * nat :=
  (Ok ("bytes of " +:+ target), S w).

Definition answering (item : Item.ExtractedItem) (image : string) (w : nat)
    : Result (option string) * nat :=
  (Ok (Some "{ products: [ ... ] }"), S w).

Definition redDress : RawProduct :=
  {| rawTitle := Some "Red midi dress";
     rawPrice := Some "$59.90";
     rawUrl := Some "https://www.zara.com/product/1";
     rawRetailer := Some "Zara" |}.

Definition oneProduct (text : string) : option (list (option RawProduct)) :=
  Some [ Some redDress ].

Definition shoesWithoutImage : Item.ExtractedItem :=
  {| Item.id := "extracted-fallback-3";
     Item.pieceType := "shoes";
     Item.description := "Shoes identified in flat lay";
     Item.boundingBox := BoundingBox.mk 0.4 0.4 0.3 0.3;
     Item.confidence := 0.7;
     Item.extractedImagePath := None;
     Item.extractedImageUrl := None;
     Item.color := Some "various";
     Item.pattern := Some "unknown";
     Item.style := Some "casual" |}.

Definition start : state nat := {| world := 0%nat; calls := [] |}.

Definition dressResult : ShoppingSearchResults :=
  foundResult dress [ toProduct redDress ].

(** Two reports of one pair of boots, at the same place. *)
Definition leatherBoots : Item.ExtractedItem :=
  {| Item.id := "extracted-1f3870be";
     Item.pieceType := "shoes";
     Item.description := "black leather ankle boots";
     Item.boundingBox := BoundingBox.mk 0 0.5 0.5 0.25;
     Item.confidence := 0.92;
     Item.extractedImagePath := None;
     Item.extractedImageUrl := None;
     Item.color := Some "black";
     Item.pattern := Some "solid";
     Item.style := Some "casual" |}.

Definition ankleBoots : Item.ExtractedItem :=
  {| Item.id := "extracted-274ad478";
     Item.pieceType := "shoes";
     Item.description := "black ankle boots";
     Item.boundingBox := BoundingBox.mk 0 0.5 0.5 0.25;
     Item.confidence := 0.9;
     Item.extractedImagePath := None;
     Item.extractedImageUrl := None;
     Item.color := Some "black";
     Item.pattern := Some "solid";
     Item.style := Some "casual" |}.

(** A clock that advances by one millisecond at each reading. *)
Definition tick (w : Z) : Z * Z := (w, (w + 1)%Z).

Definition flatLay : string := "http://localhost:3001/generated/flatlay_42.png".

(** Collaborators of a service that reaches nothing. *)
Definition noFetch (target : string) (w : Z) : Result string * Z :=
  (Throw "ECONNREFUSED", w).
Definition noText (image : string) (w : Z) : Result string * Z :=
  (Throw "no model", w).
Definition noPicture (alt : bool) (item : Item.ExtractedItem) (image : string) (w : Z)
    : Result (option string) * Z := (Throw "no model", w).
Definition noWrite (path : string) (data : string) (w : Z) : Result unit * Z :=
  (Throw "EACCES", w).
Definition noJson (text : string) : option (list (option RawItem)) := None.

(** A stand-in digest, and an answer that parses to two items. *)
Definition plainHash (s : string) : string := s.



Definition proseAnswer : string :=
  "I can see a red dress, a pair of black shoes and a leather bag.".

End Examples.

(** ** Further sample data *)

Module Samples.
Import JsString JsObject Effects Fusion Examples.

(** Three listings of one dress, at three addresses, found by three
    backends. *)
Definition sameDress (r : ref) : ProductResult :=
  {| title := "Red Midi Dress";
     price := "$59.90";
     currency := "USD";
     url := "https://www.asos.com/product/" +:+ ofNat r;
     retailer := "ASOS";
     imageUrl := None;
     rating := None;
     reviewCount := None;
     availability := "available";
     source := nth r [ "bing_reverse"; "google_lens"; "google_lens" ] "" |}.

(** A listing, a second title at the same address, and a better-trusted
    copy of the first at another address. *)
Definition shadowed (r : ref) : ProductResult :=
  {| title := nth r [ "Red Midi Dress"; "Wrap dress in red"; "red midi dress!" ] "";
     price := "Price not available";
     currency := "USD";
     url := nth r [ "https://www.asos.com/product/1"; "https://www.asos.com/product/1";
                    "https://www.zara.com/product/9" ] "";
     retailer := "Unknown Store";
     imageUrl := None;
     rating := None;
     reviewCount := None;
     availability := "available";
     source := nth r [ "bing_reverse"; "gemini_web_search"; "google_lens" ] "" |}.

(** A fetch that times out, counted by the world. *)
Definition refusingGet (target : string) (w : nat) : Result string * nat :=
  (Throw "ETIMEDOUT", S w).

Definition tomboyJeans : ProductResult :=
  {| title := "Tomboys fit jeans";
     price := "$39.00";
     currency := "USD";
     url := "https://www.gap.com/product/1";
     retailer := "Gap";
     imageUrl := None;
     rating := None;
     reviewCount := None;
     availability := "available";
     source := "google_lens" |}.

(** A catalogue built in one instant. *)
Definition builtAt (index : nat) : string := "2025-01-01T00:00:00.000Z".

End Samples.

(** ** Sample answers of the model *)

Module IdSamples.
Import JsString JsObject Effects Extraction Examples.









End IdSamples.

(** ** Facts about the fusion stage *)

Module FusionFacts.
Import JsString JsObject Fusion.

(** *** [indexOf] and [splice] *)

Lemma spliceOut_cons x y l :
  spliceOut x (y :: l) = if Nat.eqb y x then l else y :: spliceOut x l.
Proof.
  unfold spliceOut. simpl. destruct (Nat.eqb y x); [reflexivity|].
  destruct (indexOf x l); reflexivity.
Qed.

Lemma spliceOut_sublist x l : sublist (spliceOut x l) l.
Proof.
  unfold spliceOut. destruct (indexOf x l); [apply sublist_delete | reflexivity].
Qed.

Lemma elem_of_spliceOut x l r :
  NoDup l -> r ∈ spliceOut x l <-> r ∈ l ∧ r ≠ x.
Proof.
  induction l as [|y l IH]; intros Hnd.
  - unfold spliceOut; simpl. split; [intros Hr; inversion Hr | intros [Hr _]; inversion Hr].
  - apply NoDup_cons in Hnd as [Hy Hnd]. rewrite spliceOut_cons.
    destruct (Nat.eqb_spec y x) as [->|Hne].
    + rewrite elem_of_cons. split.
      * intros Hr. split; [by right|]. intros ->. contradiction.
      * intros [[->|Hr] Hne]; [contradiction|done].
    + rewrite !elem_of_cons, IH by done. split.
      * intros [->|[Hr Hrx]]; split; auto.
      * intros [[->|Hr] Hrx]; auto.
Qed.

(** *** The invariant of the deduplication loop *)

Section Loop.
Variable h : store.

Local Abbreviation urlOf := (urlOf h).
Local Abbreviation keyOf := (keyOf h).
Local Abbreviation dedupInv := (dedupInv h).

Lemma dedupInv_init : dedupInv dedupInit.
Proof.
  split; simpl.
  - constructor.
  - intros u. set_solver.
  - intros k r. rewrite lookup_empty. split; [discriminate|]. intros [Hr _]. inversion Hr.
Qed.

Lemma dedupInv_refs st : dedupInv st -> NoDup (unique st).
Proof. intros [Hu _ _]. eapply NoDup_fmap_1. exact Hu. Qed.

Lemma dedupInv_url_inj st r1 r2 :
  dedupInv st -> r1 ∈ unique st -> r2 ∈ unique st -> urlOf r1 = urlOf r2 -> r1 = r2.
Proof.
  intros [Hu _ _] H1 H2 He.
  apply list_elem_of_lookup in H1 as [i Hi], H2 as [j Hj].
  assert (i = j) as ->.
  { eapply NoDup_lookup; [exact Hu| |].
    - rewrite list_lookup_fmap, Hi. reflexivity.
    - rewrite list_lookup_fmap, Hj. simpl. by rewrite He. }
  congruence.
Qed.

Lemma dedupInv_keys st : dedupInv st -> NoDup (map keyOf (unique st)).
Proof.
  intros Hinv. apply NoDup_fmap_2_strong; [|by apply dedupInv_refs].
  intros r1 r2 H1 H2 He.
  destruct Hinv as [_ _ Ht].
  assert (seenTitles st !! keyOf r1 = Some r1) as E1 by (apply Ht; auto).
  assert (seenTitles st !! keyOf r1 = Some r2) as E2 by (apply Ht; auto).
  congruence.
Qed.

Lemma dedupStep_push st p :
  dedupInv st -> urlOf p ∉ seenUrls st -> seenTitles st !! keyOf p = None ->
  dedupInv {| unique := unique st ++ [p];
              seenUrls := {[ urlOf p ]} ∪ seenUrls st;
              seenTitles := <[ keyOf p := p ]> (seenTitles st) |}.
Proof.
  intros Hinv Hurl Hkey. pose proof Hinv as [Hu Hs Ht]. split; simpl.
  - rewrite map_app. simpl. apply NoDup_app. repeat split; [done| |apply NoDup_singleton].
    intros u Hin Hin'. apply list_elem_of_singleton in Hin' as ->.
    apply Hurl, Hs, Hin.
  - intros u. rewrite map_app, elem_of_app, elem_of_union, elem_of_singleton, Hs.
    simpl. rewrite list_elem_of_singleton. tauto.
  - intros k r. rewrite elem_of_app, list_elem_of_singleton.
    destruct (decide (keyOf p = k)) as [<-|Hne].
    + rewrite lookup_insert_eq. split.
      * intros [= <-]. auto.
      * intros [[Hr| ->] Hk]; [|done].
        assert (seenTitles st !! keyOf p = Some r) as E by (apply Ht; auto).
        congruence.
    + rewrite lookup_insert_ne by done. rewrite Ht. split.
      * intros [Hr Hk]. auto.
      * intros [[Hr| ->] Hk]; [auto|contradiction].
Qed.

Lemma dedupStep_replace st p e :
  dedupInv st -> urlOf p ∉ seenUrls st -> seenTitles st !! keyOf p = Some e ->
  dedupInv {| unique := spliceOut e (unique st) ++ [p];
              seenUrls := {[ urlOf p ]} ∪ (seenUrls st ∖ {[ urlOf e ]});
              seenTitles := <[ keyOf p := p ]> (seenTitles st) |}.
Proof.
  intros Hinv Hurl Hkey. pose proof Hinv as [Hu Hs Ht].
  pose proof (dedupInv_refs _ Hinv) as Hnd.
  apply Ht in Hkey as [He Hek].
  split; simpl.
  - rewrite map_app. simpl. apply NoDup_app. repeat split; [| |apply NoDup_singleton].
    + eapply sublist_NoDup; [exact Hu|]. apply fmap_sublist, spliceOut_sublist.
    + intros u Hin Hin'. apply list_elem_of_singleton in Hin' as ->.
      apply Hurl, Hs. eapply elem_of_sublist; [exact Hin|].
      apply fmap_sublist, spliceOut_sublist.
  - intros u.
    rewrite map_app, elem_of_app, elem_of_union, elem_of_singleton,
      elem_of_difference, elem_of_singleton, Hs.
    simpl. rewrite list_elem_of_singleton. split.
    + intros [->|[Hin Hne]]; [by right|]. left.
      apply list_elem_of_fmap in Hin as [r [-> Hr]].
      apply list_elem_of_fmap. exists r. split; [done|].
      apply elem_of_spliceOut; [done|]. split; [done|]. intros ->. done.
    + intros [Hin| ->]; [|by left]. right.
      apply list_elem_of_fmap in Hin as [r [-> Hr]].
      apply elem_of_spliceOut in Hr as [Hr Hre]; [|done].
      split; [apply list_elem_of_fmap; eauto|].
      intros Heq. apply Hre. eapply dedupInv_url_inj; eauto.
  - intros k r. rewrite elem_of_app, list_elem_of_singleton, elem_of_spliceOut by done.
    destruct (decide (keyOf p = k)) as [<-|Hne].
    + rewrite lookup_insert_eq. split.
      * intros [= <-]. auto.
      * intros [[[Hr Hre]| ->] Hk]; [|done].
        assert (seenTitles st !! keyOf p = Some r) as E1 by (apply Ht; auto).
        assert (seenTitles st !! keyOf p = Some e) as E2 by (apply Ht; auto).
        congruence.
    + rewrite lookup_insert_ne by done. rewrite Ht. split.
      * intros [Hr Hk]. split; [|done]. left. split; [done|]. intros ->. congruence.
      * intros [[[Hr Hre]| ->] Hk]; [auto|contradiction].
Qed.

Lemma dedupStep_inv st p : dedupInv st -> dedupInv (dedupStep h st p).
Proof.
  intros Hinv. unfold dedupStep.
  destruct (decide (url (h p) ∈ seenUrls st)) as [|Hurl]; [done|].
  destruct (seenTitles st !! normalizeProductTitle (title (h p))) as [e|] eqn:Hkey.
  - destruct (jsGt _ _); [|done]. by apply dedupStep_replace.
  - by apply dedupStep_push.
Qed.

Lemma fold_dedupStep_inv products st :
  dedupInv st -> dedupInv (fold_left (dedupStep h) products st).
Proof.
  revert st. induction products as [|p ps IH]; intros st Hinv; simpl; [done|].
  apply IH, dedupStep_inv, Hinv.
Qed.

Lemma dedupLoop_inv products : dedupInv (dedupLoop h products).
Proof. apply fold_dedupStep_inv, dedupInv_init. Qed.

(** What is kept is a subsequence of what arrived. *)
Lemma dedupStep_sublist st p : sublist (unique (dedupStep h st p)) (unique st ++ [p]).
Proof.
  unfold dedupStep.
  destruct (decide _); [by apply sublist_inserts_r|].
  destruct (_ !! _).
  - destruct (jsGt _ _); simpl; [|by apply sublist_inserts_r].
    apply sublist_app; [apply spliceOut_sublist|done].
  - simpl. done.
Qed.

Lemma fold_dedupStep_sublist products st :
  sublist (unique (fold_left (dedupStep h) products st)) (unique st ++ products).
Proof.
  revert st. induction products as [|p ps IH]; intros st; simpl.
  - by rewrite app_nil_r.
  - etrans; [apply IH|].
    replace (unique st ++ p :: ps) with ((unique st ++ [p]) ++ ps)
      by (by rewrite <- app_assoc).
    apply sublist_app; [apply dedupStep_sublist|done].
Qed.

Lemma dedupLoop_sublist products : sublist (unique (dedupLoop h products)) products.
Proof. apply (fold_dedupStep_sublist products dedupInit). Qed.

(** Candidates that differ pairwise in url and in title key are all kept,
    in their order. *)
Lemma fold_dedupStep_distinct products st :
  dedupInv st ->
  NoDup (map urlOf (unique st ++ products)) ->
  NoDup (map keyOf (unique st ++ products)) ->
  unique (fold_left (dedupStep h) products st) = unique st ++ products.
Proof.
  revert st. induction products as [|p ps IH]; intros st Hinv Hu Hk; simpl.
  - by rewrite app_nil_r.
  - assert (urlOf p ∉ seenUrls st) as Hurl.
    { rewrite (inv_seen _ _ Hinv). rewrite map_app in Hu.
      apply NoDup_app in Hu as (_ & Hd & _). intros Hin.
      apply (Hd _ Hin). simpl. left. }
    assert (seenTitles st !! keyOf p = None) as Hkey.
    { destruct (seenTitles st !! keyOf p) as [e|] eqn:E; [|done].
      apply (inv_titles _ _ Hinv) in E as [He Hek].
      rewrite map_app in Hk. apply NoDup_app in Hk as (_ & Hd & _).
      exfalso. apply (Hd (keyOf p)).
      - rewrite <- Hek. apply list_elem_of_fmap. eauto.
      - simpl. left. }
    assert (dedupStep h st p =
            {| unique := unique st ++ [p];
               seenUrls := {[ urlOf p ]} ∪ seenUrls st;
               seenTitles := <[ keyOf p := p ]> (seenTitles st) |}) as Hstep.
    { unfold dedupStep. fold (Fusion.urlOf h p). fold (Fusion.keyOf h p).
      destruct (decide (urlOf p ∈ seenUrls st)); [contradiction|].
      by rewrite Hkey. }
    rewrite Hstep, IH; simpl.
    + by rewrite <- app_assoc.
    + by apply dedupStep_push.
    + by rewrite <- app_assoc.
    + by rewrite <- app_assoc.
Qed.

Lemma dedupLoop_distinct products :
  NoDup (map urlOf products) -> NoDup (map keyOf products) ->
  unique (dedupLoop h products) = products.
Proof.
  intros Hu Hk. apply (fold_dedupStep_distinct products dedupInit); auto using dedupInv_init.
Qed.

End Loop.

(** *** The stable sort by descending score *)

Lemma insertDesc_perm x l : insertDesc x l ≡ₚ x :: l.
Proof.
  induction l as [|y l IH]; simpl; [done|].
  destruct (relevanceScore x <? relevanceScore y)%Z; [|done].
  rewrite IH. apply perm_swap.
Qed.

Lemma sortDesc_perm l : sortDesc l ≡ₚ l.
Proof.
  induction l as [|x l IH]; simpl; [done|].
  rewrite insertDesc_perm. by constructor.
Qed.

Lemma insertDesc_sorted x l :
  StronglySorted descending l -> StronglySorted descending (insertDesc x l).
Proof.
  induction 1 as [|y l Hs IH Hall]; simpl.
  - repeat constructor.
  - destruct (Z.ltb_spec (relevanceScore x) (relevanceScore y)) as [Hlt|Hge].
    + constructor; [exact IH|].
      rewrite insertDesc_perm. constructor; [unfold descending; lia|exact Hall].
    + constructor; [by constructor|].
      constructor; [exact Hge|].
      eapply Forall_impl; [exact Hall|]. unfold descending. intros z Hz. lia.
Qed.

Lemma sortDesc_sorted l : StronglySorted descending (sortDesc l).
Proof.
  induction l as [|x l IH]; simpl; [constructor|]. by apply insertDesc_sorted.
Qed.

Lemma insertDesc_filter s x l :
  List.filter (scored s) (insertDesc x l) = List.filter (scored s) (x :: l).
Proof.
  induction l as [|y l IH]; [done|].
  cbn [insertDesc].
  destruct (Z.ltb_spec (relevanceScore x) (relevanceScore y)) as [Hlt|Hge]; [|done].
  cbn [List.filter] in *. rewrite IH. unfold scored.
  destruct (Z.eqb_spec (relevanceScore y) s), (Z.eqb_spec (relevanceScore x) s);
    try done.
  lia.
Qed.

Lemma sortDesc_stable s l :
  List.filter (scored s) (sortDesc l) = List.filter (scored s) l.
Proof.
  induction l as [|x l IH]; [done|].
  cbn [sortDesc fold_right]. fold (sortDesc l).
  rewrite insertDesc_filter. cbn [List.filter]. by rewrite IH.
Qed.

Lemma sortDesc_sorted_id l : StronglySorted descending l -> sortDesc l = l.
Proof.
  induction 1 as [|x l Hs IH Hall]; simpl; [done|].
  rewrite IH. destruct l as [|y l]; simpl; [done|].
  apply Forall_cons in Hall as [Hy _]. unfold descending in Hy.
  destruct (Z.ltb_spec (relevanceScore x) (relevanceScore y)); [lia|done].
Qed.

Lemma sorted_lookup l i j a b :
  StronglySorted descending l -> (i < j)%nat ->
  l !! i = Some a -> l !! j = Some b -> (relevanceScore b <= relevanceScore a)%Z.
Proof.
  intros Hs. revert i j. induction Hs as [|x l Hs IH Hall]; intros i j Hij Hi Hj.
  - by rewrite lookup_nil in Hi.
  - destruct j as [|j]; [lia|]. simpl in Hj. destruct i as [|i]; simpl in Hi.
    + injection Hi as <-. rewrite Forall_forall in Hall.
      apply Hall. eapply list_elem_of_lookup_2. exact Hj.
    + eapply IH; [|exact Hi|exact Hj]. lia.
Qed.

(** *** The output of the fusion stage *)

Section Output.
Variable h : store.
Variable products : list ref.
Variable item : Item.ExtractedItem.

Local Abbreviation kept := (unique (dedupLoop h products)).
Local Abbreviation out := (deduplicateAndRankProducts h products item).

Lemma out_perm : out ≡ₚ map (fun r => rank item (h r)) kept.
Proof. apply sortDesc_perm. Qed.

Lemma out_urls : map (fun r => url (product r)) out ≡ₚ map (urlOf h) kept.
Proof.
  rewrite (Permutation_map _ out_perm), map_map. reflexivity.
Qed.

Lemma out_keys :
  map (fun r => normalizeProductTitle (title (product r))) out ≡ₚ map (keyOf h) kept.
Proof.
  rewrite (Permutation_map _ out_perm), map_map. reflexivity.
Qed.

Lemma out_distinct :
  NoDup (map (fun r => url (product r)) out) /\
  NoDup (map (fun r => normalizeProductTitle (title (product r))) out).
Proof.
  split.
  - rewrite out_urls. apply inv_urls, dedupLoop_inv.
  - rewrite out_keys. apply dedupInv_keys, dedupLoop_inv.
Qed.

Lemma out_ranked : Forall (fun r => r = rank item (product r)) out.
Proof.
  rewrite out_perm. apply Forall_forall. intros r Hr.
  apply list_elem_of_fmap in Hr as [x [-> _]]. reflexivity.
Qed.

End Output.

(** The score follows the trust of the source. *)
Lemma trust_base src n :
  getSourceScore src = JNum n ->
  (n = 5 /\ sourceBase src = 25 \/ n = 4 /\ sourceBase src = 20 \/
   n = 3 /\ sourceBase src = 15 \/ n = 2 /\ sourceBase src = 10 \/
   n = 1 /\ sourceBase src = 8 \/ n = 0 /\ sourceBase src = 0)%Z.
Proof.
  unfold getSourceScore, sourceBase, sourceScores. cbn [assoc].
  repeat (destruct (String.eqb src _); [intros H; inversion H; tauto|]).
  destruct (assoc src objectPrototype); intros H; inversion H; tauto.
Qed.

Lemma calculateRelevance_sum p item :
  calculateRelevance p item = (sourceBase (source p) + bonus p)%Z.
Proof.
  unfold calculateRelevance, bonus.
  destruct (existsb _ _), (truthy (price p) && _), (truthyOpt _); lia.
Qed.

End FusionFacts.

Module FusionClaims.
Import JsString JsObject Fusion FusionFacts Examples.

(** C1: the list returned by [deduplicateAndRankProducts] has pairwise
    distinct urls and pairwise distinct normalized title keys. *)
Theorem fusion_output_has_no_duplicates
    (h : store) (products : list ref) (item : Item.ExtractedItem) :
  NoDup (map (fun r => url (product r)) (deduplicateAndRankProducts h products item)) /\
  NoDup (map (fun r => normalizeProductTitle (title (product r)))
             (deduplicateAndRankProducts h products item)).
Proof.
  split.
  - rewrite out_urls. apply inv_urls, dedupLoop_inv.
  - rewrite out_keys. apply dedupInv_keys, dedupLoop_inv.
Qed.

(** C2, as stated, fails: ten valid candidates with distinct urls and
    titles come back as ten, above the cap of 8. *)
Lemma fusion_ten_candidates_not_capped :
  NoDup (map (fun r => url (tenCandidates r)) tenProducts) /\
  NoDup (map (fun r => normalizeProductTitle (title (tenCandidates r))) tenProducts) /\
  length (deduplicateAndRankProducts tenCandidates tenProducts dress) = 10%nat /\
  ~ (length (deduplicateAndRankProducts tenCandidates tenProducts dress) <= 8)%nat.
Proof.
  split; [compute_done|]. split; [compute_done|].
  split; [vm_compute; reflexivity|]. vm_compute. lia.
Qed.

(** C2, amended: the output is sorted by descending score, candidates of
    equal score stay in arrival order, and the only bound on the length is
    the length of the input. *)
Theorem fusion_sorted_stable_bounded
    (h : store) (products : list ref) (item : Item.ExtractedItem) :
  let out := deduplicateAndRankProducts h products item in
  StronglySorted descending out /\
  (exists kept : list ref,
      sublist kept products /\
      out ≡ₚ map (fun r => rank item (h r)) kept /\
      forall s, List.filter (scored s) out =
                List.filter (scored s) (map (fun r => rank item (h r)) kept)) /\
  (length out <= length products)%nat.
Proof.
  intros out. split; [apply sortDesc_sorted|]. split.
  - exists (unique (dedupLoop h products)). split; [apply dedupLoop_sublist|].
    split; [apply out_perm|]. intros s. apply sortDesc_stable.
  - unfold out. rewrite (Permutation_length (out_perm h products item)), length_map.
    apply sublist_length, dedupLoop_sublist.
Qed.

(** C4: feeding the output of the fusion stage back in gives the same
    output, whatever array holds the returned objects. *)
Theorem fusion_idempotent
    (h : store) (products : list ref) (item : Item.ExtractedItem)
    (h' : store) (products' : list ref) :
  map h' products' = map product (deduplicateAndRankProducts h products item) ->
  deduplicateAndRankProducts h' products' item =
  deduplicateAndRankProducts h products item.
Proof.
  intros Hsame.
  pose proof (out_distinct h products item) as [Hu Hk].
  set (out := deduplicateAndRankProducts h products item) in *.
  assert (unique (dedupLoop h' products') = products') as Hkept.
  { apply dedupLoop_distinct.
    - replace (map (urlOf h') products') with (map url (map h' products'))
        by (by rewrite map_map).
      rewrite Hsame, map_map. exact Hu.
    - replace (map (keyOf h') products')
        with (map (fun p => normalizeProductTitle (title p)) (map h' products'))
        by (by rewrite map_map).
      rewrite Hsame, map_map. exact Hk. }
  unfold deduplicateAndRankProducts at 1. rewrite Hkept.
  replace (map (fun r => rank item (h' r)) products')
    with (map (rank item) (map h' products')) by (by rewrite map_map).
  rewrite Hsame, map_map.
  assert (map (fun r => rank item (product r)) out = out) as ->.
  { pose proof (out_ranked h products item) as Hall. fold out in Hall.
    clearbody out. clear -Hall.
    induction out as [|r l IH]; [done|].
    apply Forall_cons in Hall as [Hr Hl]. cbn [map]. rewrite <- Hr. f_equal. auto. }
  apply sortDesc_sorted_id, sortDesc_sorted.
Qed.

(** Four candidates, one of them twice, and their output fed back. *)
Lemma fusion_idempotent_witness :
  deduplicateAndRankProducts (fst fedBack) (snd fedBack) dress = firstOutput.
Proof.
  apply (fusion_idempotent (candidate "google_lens") [3; 1; 3; 2]%nat dress
           (fst fedBack) (snd fedBack)).
  vm_compute. reflexivity.
Defined.

(** C5: with the same retailer, price and image url, the candidate of the
    source of higher trust gets the strictly higher score and stands
    before the other one in every output of the fusion stage; the base
    scores go from 25 for the most trusted source of the table to 8 for the
    least, with 3, 2 and 1 added for a preferred retailer, a real price
    and an image url. *)
Theorem relevance_monotonic_in_source_trust
    (p1 p2 : ProductResult) (item : Item.ExtractedItem) (n1 n2 : Z) :
  retailer p1 = retailer p2 -> price p1 = price p2 -> imageUrl p1 = imageUrl p2 ->
  getSourceScore (source p1) = JNum n1 ->
  getSourceScore (source p2) = JNum n2 ->
  (n2 < n1)%Z ->
  (calculateRelevance p2 item < calculateRelevance p1 item)%Z /\
  (forall h products i j a b,
      deduplicateAndRankProducts h products item !! i = Some a ->
      deduplicateAndRankProducts h products item !! j = Some b ->
      product a = p1 -> product b = p2 -> (i < j)%nat) /\
  map sourceBase (map fst sourceScores) = [25; 20; 15; 10; 8]%Z /\
  calculateRelevance p1 item =
    (sourceBase (source p1)
     + (if existsb (String.eqb (retailer p1)) preferredRetailers then 3 else 0)
     + (if truthy (price p1) && negb (String.eqb (price p1) "Price not available")
        then 2 else 0)
     + (if truthyOpt (imageUrl p1) then 1 else 0))%Z.
Proof.
  intros Hr Hp Hi H1 H2 Hlt.
  assert (calculateRelevance p2 item < calculateRelevance p1 item)%Z as Hscore.
  { rewrite !calculateRelevance_sum. unfold bonus. rewrite Hr, Hp, Hi.
    apply trust_base in H1, H2. lia. }
  split; [exact Hscore|]. split; [|split].
  - intros h products i j a b Ha Hb <- <-.
    pose proof (out_ranked h products item) as Hall. rewrite Forall_forall in Hall.
    pose proof (Hall a (list_elem_of_lookup_2 _ _ _ Ha)) as Ea.
    pose proof (Hall b (list_elem_of_lookup_2 _ _ _ Hb)) as Eb.
    assert (relevanceScore b < relevanceScore a)%Z as Hab.
    { rewrite Ea, Eb. exact Hscore. }
    destruct (Nat.lt_trichotomy i j) as [Hij|[->|Hji]]; [exact Hij| |].
    + rewrite Ha in Hb. injection Hb as ->. lia.
    + pose proof (sorted_lookup _ _ _ _ _ (sortDesc_sorted _) Hji Hb Ha). lia.
  - reflexivity.
  - rewrite calculateRelevance_sum. unfold bonus. lia.
Qed.

(** The same dress offer found by two sources. *)
Lemma relevance_monotonic_in_source_trust_witness :
  (calculateRelevance (candidate "bing_reverse" 1) dress
   < calculateRelevance (candidate "google_lens" 2) dress)%Z.
Proof.
  apply (relevance_monotonic_in_source_trust
           (candidate "google_lens" 2) (candidate "bing_reverse" 1) dress 4 2);
    try reflexivity.
Defined.

End FusionClaims.

(** ** Facts about the matcher *)

Module MatcherFacts.
Import JsObject Effects Fusion Matcher.

Section Service.
Variable World : Type.
Variable Image : Type.
Variable genAI : bool.
Variable axiosGet : string -> World -> Result Image * World.
Variable generateContent :
  Item.ExtractedItem -> Image -> World -> Result (option string) * World.
Variable parseProductsJson : string -> option (list (option RawProduct)).

Local Abbreviation state := (state World).
Local Abbreviation searchWithGeminiWebSearch :=
  (searchWithGeminiWebSearch World Image genAI axiosGet generateContent parseProductsJson).
Local Abbreviation searchByImage :=
  (searchByImage World Image genAI axiosGet generateContent parseProductsJson).
Local Abbreviation searchOne :=
  (searchOne World Image genAI axiosGet generateContent parseProductsJson).
Local Abbreviation searchLoop :=
  (searchLoop World Image genAI axiosGet generateContent parseProductsJson).

Lemma returns_here {A : Type} item (a : A) (s : state) : returns item (ret a) s a s.
Proof. split; [done|]. exists []. by rewrite app_nil_r. Qed.

Lemma searchWithGeminiWebSearch_returns item s :
  exists ps s', returns item (searchWithGeminiWebSearch item) s ps s'.
Proof.
  unfold Matcher.searchWithGeminiWebSearch.
  destruct (negb genAI || negb (truthyOpt (Item.extractedImageUrl item))).
  { exists [], s. apply returns_here. }
  unfold returns, tryCatch, bind, remote, ret.
  destruct (axiosGet _ (world s)) as [[img|e] w1]; cbn.
  - destruct (generateContent item img w1) as [[text|e] w2]; cbn.
    + eexists _, _. split; [reflexivity|]. cbn. rewrite <- app_assoc.
      eexists. split; [reflexivity|]. by repeat constructor.
    + eexists _, _. split; [reflexivity|]. cbn. rewrite <- app_assoc.
      eexists. split; [reflexivity|]. by repeat constructor.
  - eexists _, _. split; [reflexivity|]. cbn.
    eexists. split; [reflexivity|]. by repeat constructor.
Qed.

Lemma searchByImage_returns item s :
  exists ps s', returns item (searchByImage item) s ps s'.
Proof.
  unfold Matcher.searchByImage.
  destruct (negb (truthyOpt (Item.extractedImageUrl item))).
  { exists [], s. apply returns_here. }
  destruct genAI eqn:Hg.
  - destruct (searchWithGeminiWebSearch_returns item s) as (ps & s' & Hrun & Hnew).
    exists ps, s'. split; [|exact Hnew]. unfold tryCatch.
    rewrite Hg in Hrun. by rewrite Hrun.
  - exists [], s. apply returns_here.
Qed.

(** The [try] block of the loop never throws: each item gets the result
    built from the products found for it, and an item without an image
    gets it without any call. *)
Lemma searchOne_returns item s :
  exists ps s',
    returns item (searchOne item) s (foundResult item ps) s' /\
    (hasImage item = false -> ps = [] /\ s' = s).
Proof.
  unfold Matcher.searchOne, hasImage.
  destruct (truthyOpt (Item.extractedImageUrl item)) eqn:Himg.
  - destruct (searchByImage_returns item s) as (ps & s' & Hrun & Hnew).
    exists ps, s'. split; [|discriminate].
    split; [|exact Hnew]. unfold tryCatch, bind. by rewrite Hrun.
  - exists [], s. split; [apply returns_here|done].
Qed.

Lemma searchLoop_returns items acc s :
  exists rs s',
    searchLoop items acc s = (Ok (acc ++ rs), s') /\
    Forall2 resultFor items rs /\
    exists new, calls s' = calls s ++ new /\
                Forall (fun c => hasImage (callItem c) = true) new.
Proof.
  revert acc s. induction items as [|item rest IH]; intros acc s.
  - exists [], s. rewrite app_nil_r. split; [done|]. split; [constructor|].
    exists []. by rewrite app_nil_r.
  - destruct (searchOne_returns item s) as (ps & s1 & [Hrun (new1 & Hc1 & Hn1)] & Hno).
    destruct (IH (acc ++ [foundResult item ps]) s1)
      as (rs & s2 & Hloop & Hall & new2 & Hc2 & Hn2).
    exists (foundResult item ps :: rs), s2. split; [|split].
    + cbn [Matcher.searchLoop]. unfold bind at 1. rewrite Hrun, Hloop.
      by rewrite <- app_assoc.
    + constructor; [|exact Hall]. exists ps. split; [done|]. intros H. by apply Hno.
    + exists (new1 ++ new2). rewrite Hc2, Hc1, <- app_assoc. split; [done|].
      apply Forall_app. split; [|exact Hn2].
      destruct (hasImage item) eqn:Himg.
      * eapply Forall_impl; [exact Hn1|]. intros c ->. exact Himg.
      * destruct (Hno eq_refl) as [_ ->].
        apply (f_equal length) in Hc1. rewrite length_app in Hc1.
        destruct new1; [constructor|]. simpl in Hc1. lia.
Qed.

(** The loop over a list in two parts is the loop over the first part
    followed by the loop over the second. *)
Lemma searchLoop_app l1 l2 acc s :
  searchLoop (l1 ++ l2) acc s = bind (searchLoop l1 acc) (searchLoop l2) s.
Proof.
  revert acc s. induction l1 as [|item l1 IH]; intros acc s; [done|].
  cbn [app Matcher.searchLoop]. unfold bind.
  destruct (searchOne item s) as [[r|e] s1]; [|done].
  rewrite IH. done.
Qed.

(** The products of the result of one item are the ones the visual search
    returned for it, in the state the item is reached in. *)
Lemma searchOne_found item s :
  exists found s',
    (if hasImage item then searchByImage item s = (Ok found, s')
     else found = [] /\ s' = s) /\
    searchOne item s = (Ok (foundResult item found), s').
Proof.
  unfold Matcher.searchOne, hasImage.
  destruct (truthyOpt (Item.extractedImageUrl item)) eqn:Himg.
  - destruct (searchByImage_returns item s) as (ps & s' & Hrun & _).
    exists ps, s'. split; [exact Hrun|]. unfold tryCatch, bind. by rewrite Hrun.
  - by exists [], s.
Qed.

(** The result at position [i] of a run is the one of the item at that
    position, searched in the state the run over the items before it has
    left. *)
Lemma searchLoop_at items acc s i item :
  items !! i = Some item ->
  exists rs s' si si' found,
    searchLoop items acc s = (Ok (acc ++ rs), s') /\
    length rs = length items /\
    searchLoop (take i items) acc s = (Ok (acc ++ take i rs), si) /\
    (if hasImage item then searchByImage item si = (Ok found, si')
     else found = [] /\ si' = si) /\
    rs !! i = Some (foundResult item found) /\
    searchLoop (take (S i) items) acc s = (Ok (acc ++ take (S i) rs), si').
Proof.
  intros Hi.
  destruct (searchLoop_returns (take i items) acc s) as (rs1 & si & Hrun1 & Hall1 & _).
  destruct (searchOne_found item si) as (found & si' & Hfound & Hone).
  destruct (searchLoop_returns (drop (S i) items) ((acc ++ rs1) ++ [foundResult item found]) si')
    as (rs2 & s' & Hrun2 & Hall2 & _).
  apply Forall2_length in Hall1, Hall2.
  assert (Hlen1 : length rs1 = i).
  { rewrite <- Hall1, length_take. apply lookup_lt_Some in Hi. lia. }
  exists (rs1 ++ foundResult item found :: rs2), s', si, si', found.
  assert (Htake : take i (rs1 ++ foundResult item found :: rs2) = rs1).
  { by rewrite take_app_length'. }
  assert (Htake' : take (S i) (rs1 ++ foundResult item found :: rs2)
                   = rs1 ++ [foundResult item found]).
  { rewrite take_app_ge by lia. rewrite Hlen1.
    replace (S i - i)%nat with 1%nat by lia. done. }
  assert (Hnext : searchLoop (take (S i) items) acc s
                  = (Ok ((acc ++ rs1) ++ [foundResult item found]), si')).
  { rewrite (take_S_r _ _ _ Hi), searchLoop_app. unfold bind at 1. rewrite Hrun1.
    cbn [Matcher.searchLoop]. unfold bind, ret. by rewrite Hone. }
  split; [|split; [|split; [|split; [|split]]]].
  - rewrite <- (take_drop (S i) items) at 1. rewrite searchLoop_app.
    unfold bind at 1. rewrite Hnext, Hrun2. by rewrite <- !app_assoc.
  - rewrite length_app. cbn [length]. rewrite <- Hall2, length_drop, Hlen1.
    apply lookup_lt_Some in Hi. lia.
  - by rewrite Htake.
  - exact Hfound.
  - rewrite lookup_app_r by lia. by rewrite Hlen1, Nat.sub_diag.
  - by rewrite Htake', app_assoc.
Qed.

End Service.
End MatcherFacts.

Module MatcherClaims.
Import JsObject Effects Fusion Matcher MatcherFacts Examples.

(** C6: an item without an image url gets the empty product list and the
    search method "no_image_available", and none of the calls made during the
    run is made for it. *)
Theorem matcher_item_without_image
    (World Image : Type) (genAI : bool)
    (axiosGet : string -> World -> Result Image * World)
    (generateContent :
       Item.ExtractedItem -> Image -> World -> Result (option string) * World)
    (parseProductsJson : string -> option (list (option RawProduct)))
    (items : list Item.ExtractedItem) (s : state World)
    (i : nat) (item : Item.ExtractedItem) :
  items !! i = Some item ->
  Item.extractedImageUrl item = None ->
  exists results s' r new,
    searchProductsForExtractedItems World Image genAI axiosGet generateContent
      parseProductsJson items s = (Ok results, s') /\
    results !! i = Some r /\
    itemId r = Item.id item /\
    products r = [] /\
    searchMethod r = "no_image_available" /\
    calls s' = calls s ++ new /\
    Forall (fun c => callItem c <> item) new.
Proof.
  intros Hi Hno.
  destruct (searchLoop_returns World Image genAI axiosGet generateContent
              parseProductsJson items [] s)
    as (rs & s' & Hrun & Hall & new & Hc & Hn).
  destruct (Forall2_lookup_l _ _ _ _ _ Hall Hi) as (r & Hr & ps & -> & Hps).
  assert (hasImage item = false) as Himg by (unfold hasImage; by rewrite Hno).
  exists rs, s', (foundResult item ps), new.
  repeat split; try done.
  - by rewrite (Hps Himg).
  - unfold foundResult, searchMethod. fold (hasImage item). by rewrite Himg.
  - eapply Forall_impl; [exact Hn|]. intros c Hc' Heq. cbv beta in Hc'. rewrite Heq in Hc'. congruence.
Qed.

(** A run over a dress with an image and shoes without one. *)
Lemma matcher_item_without_image_witness :
  exists results s' r new,
    searchProductsForExtractedItems nat string true countingGet answering oneProduct
      [dress; shoesWithoutImage] start = (Ok results, s') /\
    results !! 1%nat = Some r /\
    itemId r = Item.id shoesWithoutImage /\
    products r = [] /\
    searchMethod r = "no_image_available" /\
    calls s' = calls start ++ new /\
    Forall (fun c => callItem c <> shoesWithoutImage) new.
Proof.
  apply (matcher_item_without_image nat string true countingGet answering oneProduct
           [dress; shoesWithoutImage] start 1 shoesWithoutImage); reflexivity.
Defined.

(** C10: the matcher returns one result per item, each from the normal
    path.  The products of the result of an item are the products the
    visual search returned for it, called in the state the run over the
    items before it has left, and none when the item has no image url;
    [totalResults] is their number.  The search method is
    "gemini_web_search" exactly when the item has an image url and at least
    one product was found; with an image url and no product it is
    "no_image_available", as for an item without image. *)
Theorem matcher_search_method
    (World Image : Type) (genAI : bool)
    (axiosGet : string -> World -> Result Image * World)
    (generateContent :
       Item.ExtractedItem -> Image -> World -> Result (option string) * World)
    (parseProductsJson : string -> option (list (option RawProduct)))
    (items : list Item.ExtractedItem) (s : state World) :
  exists results s',
    searchProductsForExtractedItems World Image genAI axiosGet generateContent
      parseProductsJson items s = (Ok results, s') /\
    length results = length items /\
    forall i item r,
      items !! i = Some item ->
      results !! i = Some r ->
      itemId r = Item.id item /\
      searchMethod r <> "visual_search_failed" /\
      (searchMethod r = "gemini_web_search" <->
       hasImage item = true /\ products r <> []) /\
      (hasImage item = true -> products r = [] ->
       searchMethod r = "no_image_available") /\
      (hasImage item = false -> searchMethod r = "no_image_available") /\
      exists si si' found,
        searchProductsForExtractedItems World Image genAI axiosGet generateContent
          parseProductsJson (take i items) s = (Ok (take i results), si) /\
        (if hasImage item
         then searchByImage World Image genAI axiosGet generateContent
                parseProductsJson item si = (Ok found, si')
         else found = [] /\ si' = si) /\
        products r = found /\
        totalResults r = length found /\
        (searchMethod r = "gemini_web_search" <->
         hasImage item = true /\ found <> []) /\
        searchProductsForExtractedItems World Image genAI axiosGet generateContent
          parseProductsJson (take (S i) items) s = (Ok (take (S i) results), si').
Proof.
  destruct (searchLoop_returns World Image genAI axiosGet generateContent
              parseProductsJson items [] s)
    as (rs & s' & Hrun & Hall & _).
  exists rs, s'. split; [exact Hrun|]. split; [symmetry; eapply Forall2_length, Hall|].
  intros i item r Hi Hr.
  destruct (searchLoop_at World Image genAI axiosGet generateContent
              parseProductsJson items [] s i item Hi)
    as (rs' & s'' & si & si' & found & Hrun' & _ & Hbefore & Hfound & Hr' & Hafter).
  unfold searchProductsForExtractedItems in *.
  rewrite Hrun in Hrun'. injection Hrun' as <- _.
  rewrite Hr in Hr'. injection Hr' as ->.
  assert (Hmethod : searchMethod (foundResult item found) = "gemini_web_search" <->
                    hasImage item = true /\ found <> []).
  { unfold foundResult, searchMethod. fold (hasImage item).
    destruct (hasImage item), found; simpl; split; try done; intros [? ?]; done. }
  split; [reflexivity|]. split; [|split; [exact Hmethod|split; [|split]]].
  - unfold foundResult, searchMethod. by destruct (_ && _).
  - intros _ Hnone. cbn [products foundResult] in Hnone. subst found.
    unfold foundResult, searchMethod. by rewrite andb_false_r.
  - intros Hno. unfold foundResult, searchMethod. fold (hasImage item). by rewrite Hno.
  - exists si, si', found. repeat split; try done; apply Hmethod; done.
Qed.

(** The sample run: one product is found for the dress, which has an
    image, and none is looked for for the shoes, which have none. *)
Lemma matcher_search_method_witness :
  exists results s',
    searchProductsForExtractedItems nat string true countingGet answering oneProduct
      [dress; shoesWithoutImage] start = (Ok results, s') /\
    searchByImage nat string true countingGet answering oneProduct dress start =
      (Ok [ toProduct redDress ],
       {| world := 2%nat;
          calls := [ AxiosGet dress "http://localhost:3001/generated/items/item_1.png";
                     GenerateContent dress ] |}) /\
    map products results = [ [ toProduct redDress ]; [] ] /\
    map searchMethod results = [ "gemini_web_search"; "no_image_available" ] /\
    map totalResults results = [ 1%nat; 0%nat ].
Proof.
  destruct (matcher_search_method nat string true countingGet answering oneProduct
              [dress; shoesWithoutImage] start)
    as (results & s' & Hrun & Hlen & Hall).
  exists results, s'. split; [exact Hrun|]. split; [vm_compute; reflexivity|].
  destruct results as [|r0 [|r1 [|r2 results]]]; try discriminate Hlen.
  destruct (Hall 0%nat dress r0 eq_refl eq_refl)
    as (_ & _ & _ & _ & _ & si & si' & found & Hbefore & Hfound & Hp0 & Ht0 & Hm0 & _).
  destruct (Hall 1%nat shoesWithoutImage r1 eq_refl eq_refl)
    as (_ & _ & _ & _ & Hm1 & sj & sj' & none & _ & Hnone & Hp1 & Ht1 & _).
  vm_compute in Hbefore. 
  injection Hbefore as <-.
  vm_compute in Hfound. injection Hfound as <- _.
  destruct Hnone as [-> _].
  cbn [map]. rewrite Hp0, Hp1, Ht0, Ht1, (Hm1 eq_refl).
  assert (Hm0' : searchMethod r0 = "gemini_web_search").
  { apply Hm0. split; [reflexivity|discriminate]. }
  rewrite Hm0'.
  repeat split.
Defined.

End MatcherClaims.

(** ** Concatenation of strings *)

Module AppendFacts.

Lemma append_cons c a b : String c a +:+ b = String c (a +:+ b).
Proof. reflexivity. Qed.

Lemma append_nil b : "" +:+ b = b.
Proof. reflexivity. Qed.

End AppendFacts.

(** ** Facts about the extractor *)

Module ExtractionFacts.
Import JsString JsObject Effects Extraction Item Charset AppendFacts.

(** *** The keyword scan *)

Lemma scanKeywords_filter analysisText i types items :
  scanKeywords analysisText i types items =
  items ++ map entryItem (List.filter (found analysisText) (indexed i types)).
Proof.
  revert i items. induction types as [|t types IH]; intros i items.
  - by rewrite app_nil_r.
  - cbn [scanKeywords]. rewrite IH. unfold indexed. cbn [length seq combine List.filter].
    unfold found at 2. cbn [snd].
    destruct (regexTest t analysisText); [|done].
    by rewrite <- app_assoc.
Qed.

Lemma extractItemsWithRegex_eq analysisText flatLayImageUrl :
  extractItemsWithRegex analysisText flatLayImageUrl =
  take 5 (map entryItem (List.filter (found analysisText) (indexed 0 clothingTypes))).
Proof. unfold extractItemsWithRegex. by rewrite scanKeywords_filter. Qed.

Lemma filter_sublist {A : Type} (f : A -> bool) (l : list A) : sublist (List.filter f l) l.
Proof.
  induction l as [|x l IH]; simpl; [constructor|].
  destruct (f x); by constructor.
Qed.

Lemma scan_sublist analysisText flatLayImageUrl :
  sublist (extractItemsWithRegex analysisText flatLayImageUrl)
          (map entryItem (indexed 0 clothingTypes)).
Proof.
  rewrite extractItemsWithRegex_eq. etrans; [apply sublist_take|].
  apply fmap_sublist, filter_sublist.
Qed.

Lemma filter_indexed_snd analysisText i types :
  map snd (List.filter (found analysisText) (indexed i types)) =
  List.filter (fun t => regexTest t analysisText) types.
Proof.
  revert i. induction types as [|t types IH]; intros i; [done|].
  unfold indexed. cbn [length seq combine List.filter]. unfold found at 1. cbn [snd].
  destruct (regexTest t analysisText); cbn [map snd]; [f_equal|]; apply IH.
Qed.

(** *** Effects *)

Lemma bind_Ok {S A B : Type} (m : M S A) (k : A -> M S B) s b s' :
  bind m k s = (Ok b, s') ->
  exists a s1, m s = (Ok a, s1) /\ k a s1 = (Ok b, s').
Proof.
  unfold bind. destruct (m s) as [[a|e] s1]; [eauto|discriminate].
Qed.


Lemma tryCatch_ret {S A : Type} (body : M S A) (x : A) s :
  exists a s', tryCatch body (fun _ => ret x) s = (Ok a, s') /\
               (a = x \/ body s = (Ok a, s')).
Proof.
  unfold tryCatch. destruct (body s) as [[a|e] s1] eqn:E.
  - exists a, s1. auto.
  - exists x, s1. auto.
Qed.

(** *** Ids *)

Lemma mapItems_null md5hex flatLayImageUrl index (arr : list (option RawItem)) :
  None ∈ arr -> mapItems md5hex flatLayImageUrl index arr = None.
Proof.
  revert index. induction arr as [|[raw|] arr IH]; intros index Hin.
  - inversion Hin.
  - apply elem_of_cons in Hin as [Hin|Hin]; [discriminate|].
    cbn [mapItems]. by rewrite IH.
  - reflexivity.
Qed.







Lemma keyword_ids_table :
  map id (map entryItem (indexed 0 clothingTypes)) =
  map (fun i => "extracted-fallback-" +:+ ofNat i) (seq 0 (length clothingTypes)).
Proof. reflexivity. Qed.

Lemma keyword_indices :
  Forall (fun entry => clothingTypes !! fst entry = Some (snd entry))
         (indexed 0 clothingTypes).
Proof. compute_done. Qed.



Lemma keyword_boxes_distinct :
  NoDup (map (fun it => (BoundingBox.x (boundingBox it), BoundingBox.y (boundingBox it)))
             (map entryItem (indexed 0 clothingTypes))).
Proof. compute_done. Qed.

(** *** Keywords in the text *)

(** Every code unit is one of the 256. *)
Lemma every_char (c : ascii) : In c (map ascii_of_nat (seq 0 256)).
Proof.
  rewrite <- (ascii_nat_embedding c). apply in_map, in_seq.
  pose proof (nat_ascii_bounded c). lia.
Qed.

(** Against a small letter, case folding accepts the letter and its
    capital and nothing else. *)
Lemma canonicalize_sameLetter k c :
  isLower k = true ->
  Ascii.eqb (canonicalize k) (canonicalize c) = sameLetter k c.
Proof.
  assert (Hall : forallb (fun k =>
                   forallb (fun c =>
                     implb (isLower k)
                       (Bool.eqb (Ascii.eqb (canonicalize k) (canonicalize c))
                                 (sameLetter k c)))
                     (map ascii_of_nat (seq 0 256)))
                   (map ascii_of_nat (seq 0 256)) = true)
    by (vm_compute; reflexivity).
  intros Hk. rewrite forallb_forall in Hall.
  pose proof (Hall k (every_char k)) as Hc. rewrite forallb_forall in Hc.
  pose proof (Hc c (every_char c)) as H. rewrite Hk in H. cbn [implb] in H.
  by apply Bool.eqb_prop in H.
Qed.

Lemma prefixIgnoreCase_spelled pat : forall s,
  allChars isLower pat = true ->
  prefixIgnoreCase pat s = true <->
  exists word after, s = word +:+ after /\ spelled pat word = true.
Proof.
  induction pat as [|k pat IH]; intros s Hpat.
  - split; [intros _; by exists "", s|reflexivity].
  - cbn [allChars] in Hpat. apply andb_true_iff in Hpat as [Hk Hpat].
    destruct s as [|c s]; cbn [prefixIgnoreCase].
    + split; [discriminate|]. intros ([|c w] & after & Hs & Hw); [|discriminate Hs].
      discriminate Hw.
    + rewrite (canonicalize_sameLetter k c Hk), andb_true_iff, (IH s Hpat). split.
      * intros [Hc (word & after & -> & Hw)]. exists (String c word), after.
        split; [reflexivity|]. cbn [spelled]. by rewrite Hc, Hw.
      * intros ([|c' word] & after & Hs & Hw); [discriminate Hw|].
        rewrite append_cons in Hs. injection Hs as <- ->.
        cbn [spelled] in Hw. apply andb_true_iff in Hw as [Hc Hw].
        split; [exact Hc|]. by exists word, after.
Qed.

(** The test of a pattern of small letters finds the places where the
    text spells it. *)
Lemma regexTest_occursIn pat text :
  allChars isLower pat = true ->
  regexTest pat text = true <-> occursIn pat text.
Proof.
  intros Hpat. unfold occursIn. induction text as [|c text IH]; cbn [regexTest].
  - rewrite orb_false_r, (prefixIgnoreCase_spelled pat "" Hpat). split.
    + intros (word & after & Hs & Hw). by exists "", word, after.
    + intros ([|c b] & word & after & Hs & Hw); [|discriminate Hs].
      by exists word, after.
  - rewrite orb_true_iff, (prefixIgnoreCase_spelled pat _ Hpat), IH. split.
    + intros [(word & after & Hs & Hw)|(before & word & after & -> & Hw)].
      * by exists "", word, after.
      * by exists (String c before), word, after.
    + intros ([|c' before] & word & after & Hs & Hw).
      * left. by exists word, after.
      * right. rewrite append_cons in Hs. injection Hs as <- ->.
        by exists before, word, after.
Qed.

Lemma keywords_lower : Forall (fun type => allChars isLower type = true) clothingTypes.
Proof. repeat constructor. Qed.

Lemma keyword_occursIn type text :
  type ∈ clothingTypes -> regexTest type text = true <-> occursIn type text.
Proof.
  intros Hin. apply regexTest_occursIn.
  pose proof keywords_lower as H. rewrite Forall_forall in H. by apply H.
Qed.

(** Where the boxes of the keywords lie. *)
Lemma placeholderBox_place i :
  (i < length clothingTypes)%nat ->
  ((i <= 5)%nat -> withinImage (placeholderBox i)) /\
  (i = 7%nat ->
   (1 < BoundingBox.x (placeholderBox i) + BoundingBox.width (placeholderBox i))%Q) /\
  ((9 <= i)%nat ->
   (1 < BoundingBox.y (placeholderBox i) + BoundingBox.height (placeholderBox i))%Q).
Proof.
  intros Hi. cbn [length clothingTypes] in Hi.
  do 11 (destruct i as [|i];
         [repeat apply conj; intros H;
          first [lia | unfold withinImage; repeat apply conj; vm_compute; congruence]|]).
  lia.
Qed.

Lemma filter_keywords_sublist analysisText :
  sublist (take 5 (List.filter (fun type => regexTest type analysisText) clothingTypes))
          clothingTypes.
Proof. etrans; [apply sublist_take|apply filter_sublist]. Qed.

Lemma scan_types analysisText flatLayImageUrl :
  map pieceType (extractItemsWithRegex analysisText flatLayImageUrl) =
  take 5 (List.filter (fun type => regexTest type analysisText) clothingTypes).
Proof.
  rewrite extractItemsWithRegex_eq.
  rewrite <- (filter_indexed_snd analysisText 0 clothingTypes).
  change (map pieceType) with (fmap (M:=list) pieceType).
  rewrite fmap_take. f_equal.
  change (fmap (M:=list) pieceType) with (map pieceType). rewrite map_map.
  reflexivity.
Qed.

Lemma scan_found analysisText type :
  type ∈ take 5 (List.filter (fun type => regexTest type analysisText) clothingTypes) ->
  regexTest type analysisText = true.
Proof.
  intros Hin. pose proof (elem_of_sublist _ _ _ Hin (sublist_take _ 5)) as Hin'.
  apply list_elem_of_In, filter_In in Hin'. apply Hin'.
Qed.

(** *** Duplicate removal keeps a sublist *)



(** *** What duplicate removal guarantees *)

Lemma snoc_lookup {A : Type} (D : list A) (x : A) j L :
  (D ++ [x]) !! j = Some L ->
  (D !! j = Some L /\ take j (D ++ [x]) = take j D) \/
  (j = length D /\ L = x /\ take j (D ++ [x]) = D).
Proof.
  intros Hj. apply lookup_app_Some in Hj as [Hj|[Hge Hj]].
  - left. split; [exact Hj|]. apply take_app_le. apply lookup_lt_Some in Hj. lia.
  - right. destruct (j - length D)%nat as [|n] eqn:E; [|by destruct n].
    injection Hj as <-. assert (j = length D) as -> by lia.
    split; [done|]. split; [done|]. apply take_app_length.
Qed.

Lemma removeStep_checked st item : checkedState st -> checkedState (removeStep st item).
Proof.
  intros [Hseen Hchk]. unfold removeStep.
  case_bool_decide as Hkey; cbn [negb].
  - destruct (isDuplicatePairedItem item (deduplicatedItems st)) eqn:Hdup; cbn [negb].
    + split; assumption.
    + split; cbn [seenItems deduplicatedItems].
      * intros k. rewrite Hseen. split.
        -- intros (E & HE & Hk). exists E. split; [|done]. apply elem_of_app. by left.
        -- intros (E & HE & Hk). apply elem_of_app in HE as [HE|HE]; [eauto|].
           apply list_elem_of_singleton in HE as ->.
           apply Hseen. by rewrite <- Hk.
      * intros j L Hj Hex.
        apply snoc_lookup in Hj as [[Hj Ht]|(-> & -> & Ht)]; rewrite Ht in *.
        -- by apply Hchk.
        -- exact Hdup.
  - split; cbn [seenItems deduplicatedItems].
    + intros k. rewrite elem_of_union, elem_of_singleton, Hseen. split.
      * intros [->|(E & HE & Hk)].
        -- exists item. split; [|done]. apply elem_of_app. right. by left.
        -- exists E. split; [|done]. apply elem_of_app. by left.
      * intros (E & HE & Hk). apply elem_of_app in HE as [HE|HE]; [eauto|].
        apply list_elem_of_singleton in HE as ->. by left.
    + intros j L Hj Hex.
      apply snoc_lookup in Hj as [[Hj Ht]|(-> & -> & Ht)]; rewrite Ht in *.
      * by apply Hchk.
      * exfalso. apply Hkey, Hseen. exact Hex.
Qed.

(** An item kept although an earlier kept item has its key is no paired
    duplicate of anything kept before it. *)
Lemma removeDuplicateItems_checked items j L :
  removeDuplicateItems items !! j = Some L ->
  (exists E, E ∈ take j (removeDuplicateItems items) /\
             generateItemKey E = generateItemKey L) ->
  isDuplicatePairedItem L (take j (removeDuplicateItems items)) = false.
Proof.
  unfold removeDuplicateItems.
  assert (checkedState {| deduplicatedItems := []; seenItems := ∅ |}) as Hinit.
  { split; cbn.
    - intros k. split; [intros H; by apply elem_of_empty in H|].
      intros (E & HE & _). inversion HE.
    - intros j' L' Hj. by rewrite lookup_nil in Hj. }
  revert Hinit. generalize {| deduplicatedItems := []; seenItems := ∅ |}.
  induction items as [|item items IH]; intros st Hst; cbn [fold_left].
  - apply Hst.
  - apply IH, removeStep_checked, Hst.
Qed.

(** *** The service *)

Section Service.
Variable World : Type.
Variable Image : Type.
Variable InlineData : Type.
Variable genAI : bool.
Variable model : bool.
Variable port : string.
Variable md5hex : string -> string.
Variable parseJsonArray : string -> option (list (option RawItem)).
Variable now : World -> Z * World.
Variable axiosGet : string -> World -> Result Image * World.
Variable generateText : Image -> World -> Result string * World.
Variable generateImage :
  bool -> ExtractedItem -> Image -> World -> Result (option InlineData) * World.
Variable writeFile : string -> InlineData -> World -> Result unit * World.

Local Abbreviation generateFallbackItems := (generateFallbackItems World now).
Local Abbreviation extractIndividualItems :=
  (extractIndividualItems World Image InlineData genAI model port md5hex parseJsonArray
     now axiosGet generateText generateImage writeFile).
Local Abbreviation generateItemImage :=
  (generateItemImage World Image InlineData genAI model port md5hex now
     generateImage writeFile).
Local Abbreviation generateItemImagesLoop :=
  (generateItemImagesLoop World Image InlineData genAI model port md5hex now
     generateImage writeFile).
Local Abbreviation generateItemImages :=
  (generateItemImages World Image InlineData genAI model port md5hex now
     generateImage writeFile).






End Service.

Section Configured.
Variable World : Type.
Variable Image : Type.
Variable InlineData : Type.
Variable port : string.
Variable md5hex : string -> string.
Variable parseJsonArray : string -> option (list (option RawItem)).
Variable now : World -> Z * World.
Variable axiosGet : string -> World -> Result Image * World.
Variable generateText : Image -> World -> Result string * World.
Variable generateImage :
  bool -> ExtractedItem -> Image -> World -> Result (option InlineData) * World.
Variable writeFile : string -> InlineData -> World -> Result unit * World.


End Configured.

End ExtractionFacts.

Module ExtractionClaims.
Import JsString JsObject Effects Extraction Item ExtractionFacts Examples.

(** C3: two reports of one pair of boots, with different wording and the
    same place, satisfy the pair-duplicate predicate in both directions,
    and [removeDuplicateItems] keeps both: their item keys differ, so the
    paired-item test is never run on the second one. *)
Theorem removeDuplicateItems_keeps_pair_duplicate :
  removeDuplicateItems [leatherBoots; ankleBoots] = [leatherBoots; ankleBoots] /\
  pairDuplicate ankleBoots leatherBoots = true /\
  pairDuplicate leatherBoots ankleBoots = true /\
  isDuplicatePairedItem ankleBoots [leatherBoots] = true /\
  generateItemKey leatherBoots <> generateItemKey ankleBoots.
Proof. repeat split; try (vm_compute; reflexivity). vm_compute. discriminate. Qed.

(** C8: without a configured backend [extractIndividualItems] throws for
    every image reference: no item is returned, the fallback is not taken
    and nothing is called. *)
Theorem extraction_fails_when_not_configured
    (World Image InlineData : Type) (genAI model : bool) (port : string)
    (md5hex : string -> string)
    (parseJsonArray : string -> option (list (option RawItem)))
    (now : World -> Z * World)
    (axiosGet : string -> World -> Result Image * World)
    (generateText : Image -> World -> Result string * World)
    (generateImage :
       bool -> ExtractedItem -> Image -> World -> Result (option InlineData) * World)
    (writeFile : string -> InlineData -> World -> Result unit * World)
    (flatLayImageUrl : string) (w : World) :
  (genAI && model) = false ->
  extractIndividualItems World Image InlineData genAI model port md5hex parseJsonArray
    now axiosGet generateText generateImage writeFile flatLayImageUrl w =
  (Throw "Gemini API not configured", w).
Proof.
  intros Hconf. unfold extractIndividualItems.
  destruct genAI, model; try discriminate; reflexivity.
Qed.

(** A service built without an API key. *)
Lemma extraction_fails_when_not_configured_witness :
  extractIndividualItems Z string string false false "3001" plainHash noJson
    tick noFetch noText noPicture noWrite flatLay 1700000000000%Z =
  (Throw "Gemini API not configured", 1700000000000%Z).
Proof.
  apply (extraction_fails_when_not_configured Z string string false false "3001"
           plainHash noJson tick noFetch noText noPicture noWrite flatLay).
  reflexivity.
Defined.

(** C9: the placeholder boxes of the keyword scan are not all laid out
    inside the image.  An answer in prose that names a jacket and a skirt
    does not parse, and the scan gives two entries of confidence 0.7, one
    for each keyword; the box of the jacket reaches beyond the right edge
    of the image and the box of the skirt beyond its lower edge. *)
Lemma keyword_boxes_leave_the_image :
  exists jacket skirt,
    parseGeminiResponse plainHash noJson "A denim jacket over a pleated skirt." flatLay =
      [ jacket; skirt ] /\
    pieceType jacket = "jacket" /\ pieceType skirt = "skirt" /\
    confidence jacket = 0.7%Q /\ confidence skirt = 0.7%Q /\
    (1 < BoundingBox.x (boundingBox jacket) + BoundingBox.width (boundingBox jacket))%Q /\
    (1 < BoundingBox.y (boundingBox skirt) + BoundingBox.height (boundingBox skirt))%Q /\
    ~ withinImage (boundingBox jacket) /\ ~ withinImage (boundingBox skirt).
Proof.
  eexists _, _. split; [vm_compute; reflexivity|].
  repeat apply conj; try reflexivity.
  - intros (_ & _ & H & _). vm_compute in H. congruence.
  - intros (_ & _ & _ & H). vm_compute in H. congruence.
Qed.

End ExtractionClaims.

(** ** The keyword scan *)

Module ScanProperties.
Import JsString JsObject Effects Extraction Item ExtractionFacts Examples.

(** X30: what the keyword scan does.  When the answer does not parse (no
    JSON array, or a null entry in it), the items are those of the keyword
    scan, at most five.  A keyword of the table is found exactly when the
    text spells it somewhere, in small or capital letters; the entries are
    those of the first five keywords found, in the order of the table,
    one each, so every keyword that occurs has its entry unless five
    entries are returned.  Each entry has confidence 0.7 and a 0.3 by 0.3
    box at the place of its keyword's index, no two at the same place; the
    boxes of the first six keywords lie inside the image, the box of the
    eighth (jacket) reaches beyond its right edge and those of the last
    two (skirt, shorts) beyond its lower edge. *)
Theorem regex_fallback_entries
    (md5hex : string -> string)
    (parseJsonArray : string -> option (list (option RawItem)))
    (analysisText flatLayImageUrl : string) :
  (parseJsonArray analysisText = None \/
   exists arr, parseJsonArray analysisText = Some arr /\ None ∈ arr) ->
  let items := parseGeminiResponse md5hex parseJsonArray analysisText flatLayImageUrl in
  items = extractItemsWithRegex analysisText flatLayImageUrl /\
  (length items <= 5)%nat /\
  map pieceType items =
    take 5 (List.filter (fun type => regexTest type analysisText) clothingTypes) /\
  (forall type, type ∈ clothingTypes ->
     regexTest type analysisText = true <-> occursIn type analysisText) /\
  (forall type, type ∈ clothingTypes -> occursIn type analysisText ->
     type ∈ map pieceType items \/ length items = 5%nat) /\
  NoDup (map pieceType items) /\
  Forall (fun item =>
            confidence item = 0.7%Q /\
            BoundingBox.width (boundingBox item) = 0.3%Q /\
            BoundingBox.height (boundingBox item) = 0.3%Q /\
            occursIn (pieceType item) analysisText /\
            exists i, clothingTypes !! i = Some (pieceType item) /\
                      boundingBox item = placeholderBox i /\
                      ((i <= 5)%nat -> withinImage (boundingBox item)) /\
                      (i = 7%nat ->
                       (1 < BoundingBox.x (boundingBox item) +
                            BoundingBox.width (boundingBox item))%Q) /\
                      ((9 <= i)%nat ->
                       (1 < BoundingBox.y (boundingBox item) +
                            BoundingBox.height (boundingBox item))%Q)) items /\
  NoDup (map (fun item => (BoundingBox.x (boundingBox item),
                           BoundingBox.y (boundingBox item))) items).
Proof.
  intros Hfail items.
  assert (items = extractItemsWithRegex analysisText flatLayImageUrl) as ->.
  { unfold items, parseGeminiResponse.
    destruct Hfail as [->|(arr & -> & Hnull)]; [reflexivity|].
    by rewrite mapItems_null. }
  pose proof (scan_types analysisText flatLayImageUrl) as Htypes.
  split; [reflexivity|]. split; [|split; [exact Htypes|split; [|split; [|split; [|split]]]]].
  - unfold extractItemsWithRegex. apply firstn_le_length.
  - intros type Hin. by apply keyword_occursIn.
  - intros type Hin Hocc. apply (keyword_occursIn type analysisText Hin) in Hocc.
    rewrite <- (length_map pieceType), Htypes.
    set (l := List.filter (fun type => regexTest type analysisText) clothingTypes).
    assert (type ∈ l) as Hl.
    { apply list_elem_of_In, filter_In. split; [by apply list_elem_of_In|exact Hocc]. }
    destruct (decide (length l <= 5)%nat) as [Hle|Hgt].
    + left. by rewrite take_ge.
    + right. rewrite length_take. lia.
  - rewrite Htypes. eapply sublist_NoDup; [|apply filter_keywords_sublist].
    compute_done.
  - apply Forall_forall. intros item Hin.
    assert (occursIn (pieceType item) analysisText) as Hocc.
    { assert (pieceType item ∈ map pieceType (extractItemsWithRegex analysisText flatLayImageUrl))
        as Ht by (apply list_elem_of_fmap; by exists item).
      rewrite Htypes in Ht.
      apply keyword_occursIn; [|by apply scan_found].
      apply (elem_of_sublist _ _ _ Ht), filter_keywords_sublist. }
    pose proof (elem_of_sublist _ _ _ Hin (scan_sublist analysisText flatLayImageUrl))
      as Hin'.
    apply list_elem_of_fmap in Hin' as [[i type] [-> Hentry]].
    split; [reflexivity|]. split; [reflexivity|]. split; [reflexivity|].
    split; [exact Hocc|].
    exists i. cbn [entryItem keywordItem pieceType boundingBox fst snd].
    pose proof keyword_indices as Htable. rewrite Forall_forall in Htable.
    pose proof (Htable _ Hentry) as Hi. cbn [fst snd] in Hi.
    split; [exact Hi|]. split; [reflexivity|].
    apply placeholderBox_place. by apply lookup_lt_Some in Hi.
  - eapply sublist_NoDup; [apply keyword_boxes_distinct|].
    apply fmap_sublist, scan_sublist.
Qed.

(** An answer in prose, with no JSON in it: the scan finds its three
    keywords. *)
Lemma regex_fallback_entries_witness :
  map pieceType (parseGeminiResponse plainHash noJson proseAnswer flatLay) =
    [ "dress"; "shoes"; "bag" ] /\
  occursIn "dress" proseAnswer /\
  Forall (fun item => confidence item = 0.7%Q /\ occursIn (pieceType item) proseAnswer)
         (parseGeminiResponse plainHash noJson proseAnswer flatLay).
Proof.
  destruct (regex_fallback_entries plainHash noJson proseAnswer flatLay)
    as (_ & _ & Htypes & Hiff & _ & _ & Hall & _); [left; reflexivity|].
  split; [rewrite Htypes; vm_compute; reflexivity|].
  split.
  - apply Hiff; [|vm_compute; reflexivity]. apply list_elem_of_In. left. reflexivity.
  - eapply Forall_impl; [exact Hall|]. intros item H. split; apply H.
Defined.

End ScanProperties.

(** ** Source trust in the fusion stage *)

Module FusionTrust.
Import JsString JsObject Fusion FusionFacts Trust.

Lemma ascii_compare_lt_trans a b c :
  Ascii.compare a b = Lt -> Ascii.compare b c = Lt -> Ascii.compare a c = Lt.
Proof.
  unfold Ascii.compare. rewrite !N.compare_lt_iff. lia.
Qed.

Lemma string_compare_lt_trans a : forall b c,
  String.compare a b = Lt -> String.compare b c = Lt -> String.compare a c = Lt.
Proof.
  induction a as [|x a IH]; intros [|y b] [|z c]; simpl; try congruence.
  destruct (Ascii.compare x y) eqn:Hxy; try congruence;
    destruct (Ascii.compare y z) eqn:Hyz; try congruence.
  - apply Ascii.compare_eq_iff in Hxy, Hyz. subst.
    replace (Ascii.compare z z) with Eq
      by (symmetry; unfold Ascii.compare; apply N.compare_refl).
    apply IH.
  - apply Ascii.compare_eq_iff in Hxy. subst. now rewrite Hyz.
  - apply Ascii.compare_eq_iff in Hyz. subst. now rewrite Hxy.
  - now rewrite (ascii_compare_lt_trans _ _ _ Hxy Hyz).
Qed.

Lemma string_ltb_irrefl s : String.ltb s s = false.
Proof.
  unfold String.ltb.
  destruct (String.compare s s) eqn:H; try reflexivity.
  pose proof (String.compare_antisym s s) as Ha. rewrite H in Ha. discriminate.
Qed.

Lemma jsGt_irrefl a : jsGt a a = false.
Proof. destruct a; simpl; [apply Z.ltb_irrefl | apply string_ltb_irrefl]. Qed.

(** A value that does not beat [b] does not beat what beats [b]. *)
Lemma jsGt_not_above a b c :
  jsGt a b = false -> jsGt c b = true -> jsGt a c = false.
Proof.
  destruct a as [x|s], b as [y|t], c as [z|u]; simpl; try congruence.
  - rewrite !Z.ltb_lt, !Z.ltb_ge. lia.
  - unfold String.ltb. intros Hts Htu.
    destruct (String.compare u s) eqn:Hus; try reflexivity.
    destruct (String.compare t u) eqn:Htu'; try discriminate.
    now rewrite (string_compare_lt_trans _ _ _ Htu' Hus) in Hts.
Qed.

Section Loop.
Variable h : store.

Local Abbreviation urlOf := (urlOf h).
Local Abbreviation keyOf := (keyOf h).
Local Abbreviation dedupInv := (dedupInv h).
Local Abbreviation trustOf := (trustOf h).
Local Abbreviation represented := (represented h).
Local Abbreviation numeric := (numeric h).
Local Abbreviation earliest := (earliest h).

Lemma dedupStep_represented done st p :
  urlOf p ∉ seenUrls st ->
  represented done st -> represented (done ++ [p]) (dedupStep h st p).
Proof.
  intros Hurl Hrep r Hr.
  unfold dedupStep. destruct (decide _) as [Hin|_]; [done|].
  fold (keyOf p).
  apply elem_of_app in Hr as [Hr|Hr%list_elem_of_singleton].
  - destruct (Hrep r Hr) as (e & He & Hle).
    destruct (seenTitles st !! keyOf p) as [e'|] eqn:Hk.
    + fold (trustOf p) (trustOf e').
      destruct (jsGt (trustOf p) (trustOf e')) eqn:Hgt; [|eauto].
      cbn [seenTitles]. destruct (decide (keyOf r = keyOf p)) as [Heq|Hne].
      * exists p. rewrite Heq, lookup_insert_eq. split; [done|].
        rewrite Heq, Hk in He. injection He as ->.
        eapply jsGt_not_above; eauto.
      * exists e. rewrite lookup_insert_ne by done. auto.
    + cbn [seenTitles]. exists e. split; [|done].
      rewrite lookup_insert_ne; [done|]. intros Heq. rewrite Heq, He in Hk. done.
  - subst r. destruct (seenTitles st !! keyOf p) as [e'|] eqn:Hk.
    + fold (trustOf p) (trustOf e').
      destruct (jsGt (trustOf p) (trustOf e')) eqn:Hgt.
      * cbn [seenTitles]. exists p. rewrite lookup_insert_eq. split; [done|apply jsGt_irrefl].
      * exists e'. auto.
    + cbn [seenTitles]. exists p. rewrite lookup_insert_eq. split; [done|apply jsGt_irrefl].
Qed.

Lemma unique_urls_seen done st p :
  dedupInv st -> sublist (unique st) done ->
  NoDup (map urlOf (done ++ [p])) -> urlOf p ∉ seenUrls st.
Proof.
  intros Hinv Hsub Hnd Hin.
  apply (inv_urls h) in Hinv as Hu. apply (inv_seen h st Hinv) in Hin.
  rewrite map_app in Hnd. apply NoDup_app in Hnd as (_ & Hdis & _).
  apply list_elem_of_fmap in Hin as (e & He & Hine).
  apply (Hdis (urlOf p)).
  - rewrite He. apply list_elem_of_fmap. exists e. split; [done|].
    eapply elem_of_sublist; eauto.
  - simpl. left.
Qed.

Lemma fold_represented rest : forall done st,
  dedupInv st -> sublist (unique st) done ->
  NoDup (map urlOf (done ++ rest)) ->
  represented done st ->
  represented (done ++ rest) (fold_left (dedupStep h) rest st).
Proof.
  induction rest as [|p rest IH]; intros done st Hinv Hsub Hnd Hrep; simpl.
  - now rewrite app_nil_r.
  - replace (done ++ p :: rest) with ((done ++ [p]) ++ rest) in *
      by now rewrite <- app_assoc.
    assert (Hnd' : NoDup (map urlOf (done ++ [p]))).
    { rewrite map_app in Hnd. now apply NoDup_app in Hnd as (? & _ & _). }
    apply IH; [now apply dedupStep_inv| |done|].
    + etransitivity; [apply dedupStep_sublist|].
      apply sublist_app; [done|reflexivity].
    + apply dedupStep_represented; [|done]. eapply unique_urls_seen; eauto.
Qed.

Lemma dedupLoop_represented products :
  NoDup (map urlOf products) -> represented products (dedupLoop h products).
Proof.
  intros Hnd. apply (fold_represented products [] dedupInit).
  - apply dedupInv_init.
  - constructor.
  - done.
  - intros r Hr. inversion Hr.
Qed.

Lemma jsGt_numeric_above a b c :
  (exists n, a = JNum n) -> (exists n, c = JNum n) ->
  jsGt a b = false -> jsGt c b = true -> jsGt c a = true.
Proof.
  intros [n ->] [m ->]. destruct b as [y|t]; simpl; try congruence.
  rewrite !Z.ltb_lt, !Z.ltb_ge. lia.
Qed.

Lemma earliest_weaken done p st : earliest done st -> earliest (done ++ [p]) st.
Proof.
  intros Hear k e Hk. destruct (Hear k e Hk) as (i & Hi & Hbefore).
  exists i. split; [now apply lookup_app_l_Some|].
  intros j r Hj Hr. apply (Hbefore j); [done|].
  rewrite lookup_app_l in Hr; [done|].
  apply lookup_lt_Some in Hi. lia.
Qed.

Lemma dedupStep_earliest done st p :
  urlOf p ∉ seenUrls st ->
  Forall numeric (done ++ [p]) ->
  represented done st -> earliest done st ->
  earliest (done ++ [p]) (dedupStep h st p).
Proof.
  intros Hurl Hnum Hrep Hear.
  assert (Hlast : (done ++ [p]) !! length done = Some p).
  { rewrite lookup_app_r by lia. now rewrite Nat.sub_diag. }
  assert (Hfresh : forall e,
    (forall r, r ∈ done -> keyOf r = keyOf p -> jsGt (trustOf p) (trustOf r) = true) ->
    earliest (done ++ [p])
      {| unique := e; seenUrls := seenUrls st;
         seenTitles := <[ keyOf p := p ]> (seenTitles st) |}).
  { intros e Hall k e' Hk. cbn [seenTitles] in Hk.
    destruct (decide (k = keyOf p)) as [->|Hne].
    - rewrite lookup_insert_eq in Hk. injection Hk as <-.
      exists (length done). split; [done|].
      intros j r Hj Hr Hkey. rewrite lookup_app_l in Hr by done.
      apply Hall; [|done]. eapply list_elem_of_lookup_2; eauto.
    - rewrite lookup_insert_ne in Hk by done.
      now apply (earliest_weaken done p st Hear). }
  unfold dedupStep. destruct (decide _) as [Hin|_]; [done|].
  fold (keyOf p).
  destruct (seenTitles st !! keyOf p) as [e|] eqn:Hk.
  - fold (trustOf p) (trustOf e).
    destruct (jsGt (trustOf p) (trustOf e)) eqn:Hgt;
      [|now apply earliest_weaken].
    intros k e' Hk'. eapply (Hfresh []); [|exact Hk'].
    intros r Hr Hkey. destruct (Hrep r Hr) as (e0 & He0 & Hle).
    rewrite Hkey, Hk in He0. injection He0 as <-.
    rewrite Forall_forall in Hnum.
    eapply jsGt_numeric_above; eauto; apply Hnum; set_solver.
  - intros k e' Hk'. eapply (Hfresh []); [|exact Hk'].
    intros r Hr Hkey. destruct (Hrep r Hr) as (e0 & He0 & _).
    rewrite Hkey, Hk in He0. done.
Qed.

Lemma fold_earliest rest : forall done st,
  dedupInv st -> sublist (unique st) done ->
  NoDup (map urlOf (done ++ rest)) ->
  Forall numeric (done ++ rest) ->
  represented done st -> earliest done st ->
  earliest (done ++ rest) (fold_left (dedupStep h) rest st).
Proof.
  induction rest as [|p rest IH]; intros done st Hinv Hsub Hnd Hnum Hrep Hear; simpl.
  - now rewrite app_nil_r.
  - replace (done ++ p :: rest) with ((done ++ [p]) ++ rest) in *
      by now rewrite <- app_assoc.
    assert (Hnd' : NoDup (map urlOf (done ++ [p]))).
    { rewrite map_app in Hnd. now apply NoDup_app in Hnd as (? & _ & _). }
    assert (Hurl : urlOf p ∉ seenUrls st) by (eapply unique_urls_seen; eauto).
    apply IH; [now apply dedupStep_inv| |done|done| |].
    + etransitivity; [apply dedupStep_sublist|].
      apply sublist_app; [done|reflexivity].
    + now apply dedupStep_represented.
    + apply dedupStep_earliest; [done| |done|done].
      now apply Forall_app in Hnum as [Hnum _].
Qed.

Lemma dedupLoop_earliest products :
  NoDup (map urlOf products) -> Forall numeric products ->
  earliest products (dedupLoop h products).
Proof.
  intros Hnd Hnum. apply (fold_earliest products [] dedupInit).
  - apply dedupInv_init.
  - constructor.
  - done.
  - done.
  - intros r Hr. inversion Hr.
  - intros k e Hk. cbn in Hk. rewrite lookup_empty in Hk. done.
Qed.

End Loop.
End FusionTrust.

Module FusionProperties.
Import JsString JsObject Fusion FusionFacts Trust FusionTrust Examples Samples.

(** X1: candidates whose urls are pairwise distinct and whose normalized
    titles are pairwise distinct all come back: the output is the ranked
    input, sorted, and has the length of the input. *)
Theorem fusion_keeps_distinct_candidates
    (h : store) (products : list ref) (item : Item.ExtractedItem) :
  NoDup (map (fun r => url (h r)) products) ->
  NoDup (map (fun r => normalizeProductTitle (title (h r))) products) ->
  deduplicateAndRankProducts h products item =
    sortDesc (map (fun r => rank item (h r)) products) /\
  deduplicateAndRankProducts h products item ≡ₚ map (fun r => rank item (h r)) products /\
  length (deduplicateAndRankProducts h products item) = length products.
Proof.
  intros Hu Hk.
  assert (Heq : deduplicateAndRankProducts h products item =
                sortDesc (map (fun r => rank item (h r)) products)).
  { unfold deduplicateAndRankProducts. now rewrite dedupLoop_distinct. }
  split; [done|]. rewrite Heq. split.
  - apply sortDesc_perm.
  - rewrite sortDesc_perm. now rewrite length_map.
Qed.

Lemma fusion_keeps_distinct_candidates_witness :
  length (deduplicateAndRankProducts tenCandidates tenProducts dress) = length tenProducts.
Proof.
  apply (fusion_keeps_distinct_candidates tenCandidates tenProducts dress).
  - compute_done.
  - compute_done.
Defined.

(** X2: when the candidates have pairwise distinct urls, every candidate's
    normalized title is present in the output, carried by a candidate
    that the first one does not beat on source trust. *)
Theorem fusion_keeps_most_trusted
    (h : store) (products : list ref) (item : Item.ExtractedItem) (r : ref) :
  NoDup (map (fun r => url (h r)) products) ->
  r ∈ products ->
  exists o,
    o ∈ deduplicateAndRankProducts h products item /\
    normalizeProductTitle (title (product o)) = normalizeProductTitle (title (h r)) /\
    jsGt (getSourceScore (source (h r))) (getSourceScore (source (product o))) = false.
Proof.
  intros Hnd Hr.
  destruct (dedupLoop_represented h products Hnd r Hr) as (e & He & Hle).
  apply (inv_titles h _ (dedupLoop_inv h products)) in He as [Hin Hkey].
  exists (rank item (h e)). split; [|split; [exact Hkey|exact Hle]].
  rewrite (out_perm h products item). apply list_elem_of_fmap. eauto.
Qed.

Lemma fusion_keeps_most_trusted_witness :
  exists o,
    o ∈ deduplicateAndRankProducts sameDress [0; 1; 2]%nat dress /\
    normalizeProductTitle (title (product o)) = normalizeProductTitle (title (sameDress 0%nat)) /\
    jsGt (getSourceScore (source (sameDress 0%nat)))
         (getSourceScore (source (product o))) = false.
Proof.
  apply (fusion_keeps_most_trusted sameDress [0; 1; 2]%nat dress 0%nat).
  - compute_done.
  - compute_done.
Defined.

(** X3: with pairwise distinct urls and sources scored by the trust table,
    an output candidate stands at some position of the input and has a
    strictly higher source trust than every earlier candidate of the same
    normalized title: on equal trust the earlier candidate is the one that
    stays. *)
Theorem fusion_tie_keeps_earlier
    (h : store) (products : list ref) (item : Item.ExtractedItem) (o : RankedProduct) :
  NoDup (map (fun r => url (h r)) products) ->
  Forall (fun r => exists n, getSourceScore (source (h r)) = JNum n) products ->
  o ∈ deduplicateAndRankProducts h products item ->
  exists i e,
    products !! i = Some e /\ o = rank item (h e) /\
    forall j r, (j < i)%nat -> products !! j = Some r ->
      normalizeProductTitle (title (h r)) = normalizeProductTitle (title (h e)) ->
      jsGt (getSourceScore (source (h e))) (getSourceScore (source (h r))) = true.
Proof.
  intros Hnd Hnum Ho.
  rewrite (out_perm h products item) in Ho.
  apply list_elem_of_fmap in Ho as (e & -> & He).
  assert (Hk : seenTitles (dedupLoop h products) !! keyOf h e = Some e)
    by now apply (inv_titles h _ (dedupLoop_inv h products)).
  destruct (dedupLoop_earliest h products Hnd Hnum _ _ Hk) as (i & Hi & Hbefore).
  exists i, e. split; [done|]. split; [done|].
  intros j r Hj Hr Hkey. now apply (Hbefore j).
Qed.

Lemma fusion_tie_keeps_earlier_witness :
  exists i e,
    [0; 1; 2]%nat !! i = Some e /\
    rank dress (sameDress 1%nat) = rank dress (sameDress e) /\
    forall j r, (j < i)%nat -> [0; 1; 2]%nat !! j = Some r ->
      normalizeProductTitle (title (sameDress r)) = normalizeProductTitle (title (sameDress e)) ->
      jsGt (getSourceScore (source (sameDress e)))
           (getSourceScore (source (sameDress r))) = true.
Proof.
  apply (fusion_tie_keeps_earlier sameDress [0; 1; 2]%nat dress).
  - compute_done.
  - repeat constructor; eexists; vm_compute; reflexivity.
  - vm_compute. left.
Defined.

(** X4: a candidate dropped for its url can lose every trace: when [b]
    repeats the url of [a], and a later [c] at another url has the
    normalized title of [a] and a higher source trust, the output is [c]
    alone, although [b] has neither its url nor, in general, its title
    there. *)
Theorem fusion_url_duplicate_can_vanish
    (h : store) (a b c : ref) (item : Item.ExtractedItem) :
  url (h b) = url (h a) ->
  url (h c) <> url (h a) ->
  normalizeProductTitle (title (h c)) = normalizeProductTitle (title (h a)) ->
  jsGt (getSourceScore (source (h c))) (getSourceScore (source (h a))) = true ->
  deduplicateAndRankProducts h [a; b; c] item = [ rank item (h c) ].
Proof.
  intros Hb Hc Hkey Hgt.
  unfold deduplicateAndRankProducts, dedupLoop. cbn [fold_left].
  assert (H1 : dedupStep h dedupInit a =
               {| unique := [a]; seenUrls := {[ url (h a) ]} ∪ ∅;
                  seenTitles := <[ normalizeProductTitle (title (h a)) := a ]> ∅ |}).
  { unfold dedupStep. destruct (decide _) as [Hin|_]; [now apply not_elem_of_empty in Hin|].
    cbn [seenTitles dedupInit]. now rewrite lookup_empty. }
  rewrite H1.
  assert (H2 : forall st, url (h a) ∈ seenUrls st -> dedupStep h st b = st).
  { intros st Hin. unfold dedupStep. rewrite Hb. now destruct (decide _). }
  rewrite H2 by (cbn; set_solver).
  unfold dedupStep. destruct (decide _) as [Hin|_].
  { cbn [seenUrls] in Hin.
    apply elem_of_union in Hin as [Hin%elem_of_singleton|Hin%elem_of_empty]; done. }
  cbn [seenTitles unique]. rewrite Hkey, lookup_insert_eq, Hgt.
  cbn [unique]. rewrite spliceOut_cons, Nat.eqb_refl. reflexivity.
Qed.

Lemma fusion_url_duplicate_can_vanish_witness :
  deduplicateAndRankProducts shadowed [0; 1; 2]%nat dress = [ rank dress (shadowed 2%nat) ] /\
  url (shadowed 1%nat) <> url (shadowed 2%nat) /\
  normalizeProductTitle (title (shadowed 1%nat)) <>
  normalizeProductTitle (title (shadowed 2%nat)).
Proof.
  split; [|split; [compute_done|compute_done]].
  apply (fusion_url_duplicate_can_vanish shadowed 0%nat 1%nat 2%nat dress).
  - reflexivity.
  - compute_done.
  - vm_compute. reflexivity.
  - vm_compute. reflexivity.
Defined.

(** X5: the retailer, price and image bonuses never overturn a gap of two
    ranks in the source trust table.  For every product the score lies
    between the base of its source and that base plus 6, and so between 0
    and 31; and of two products the one whose source stands two or more
    ranks higher scores strictly higher, whatever their other fields. *)
Theorem relevance_two_rank_gap (item : Item.ExtractedItem) :
  (forall p,
     (sourceBase (source p) <= calculateRelevance p item <= sourceBase (source p) + 6)%Z /\
     (0 <= calculateRelevance p item <= 31)%Z) /\
  (forall p1 p2 n1 n2,
     getSourceScore (source p1) = JNum n1 ->
     getSourceScore (source p2) = JNum n2 ->
     (n2 + 2 <= n1)%Z ->
     (calculateRelevance p2 item < calculateRelevance p1 item)%Z).
Proof.
  assert (Hb : forall p, (0 <= bonus p <= 6)%Z).
  { intros p. unfold bonus.
    destruct (existsb _ _), (_ && _), (truthyOpt _); lia. }
  assert (Hs : forall src, (0 <= sourceBase src <= 25)%Z).
  { intros src. unfold sourceBase. repeat (destruct (String.eqb src _); [lia|]). lia. }
  split.
  - intros p. rewrite calculateRelevance_sum.
    pose proof (Hb p). pose proof (Hs (source p)). lia.
  - intros p1 p2 n1 n2 H1 H2 Hgap. rewrite !calculateRelevance_sum.
    pose proof (Hb p1). pose proof (Hb p2).
    apply trust_base in H1, H2. lia.
Qed.

(** A listing found by Bing against one found by Google Lens. *)
Lemma relevance_two_rank_gap_witness :
  (8 <= calculateRelevance (candidate "gemini_web_search_fallback" 1) dress <= 14)%Z /\
  (calculateRelevance (candidate "bing_reverse" 1) dress
   < calculateRelevance (sameDress 1%nat) dress)%Z.
Proof.
  destruct (relevance_two_rank_gap dress) as [Hrange Hgap]. split.
  - apply (Hrange (candidate "gemini_web_search_fallback" 1)).
  - apply (Hgap (sameDress 1%nat) (candidate "bing_reverse" 1) 4 2)%Z.
    + reflexivity.
    + reflexivity.
    + lia.
Defined.

End FusionProperties.

(** ** The protocol of the matcher *)

Module MatcherTrace.
Import JsObject Effects Fusion Matcher Protocol.

Section Service.
Variable World : Type.
Variable Image : Type.
Variable genAI : bool.
Variable axiosGet : string -> World -> Result Image * World.
Variable generateContent :
  Item.ExtractedItem -> Image -> World -> Result (option string) * World.
Variable parseProductsJson : string -> option (list (option RawProduct)).

Local Abbreviation state := (state World).
Local Abbreviation parseGeminiWebSearchResponse :=
  (parseGeminiWebSearchResponse parseProductsJson).
Local Abbreviation searchWithGeminiWebSearch :=
  (searchWithGeminiWebSearch World Image genAI axiosGet generateContent parseProductsJson).
Local Abbreviation searchByImage :=
  (searchByImage World Image genAI axiosGet generateContent parseProductsJson).
Local Abbreviation searchOne :=
  (searchOne World Image genAI axiosGet generateContent parseProductsJson).
Local Abbreviation searchLoop :=
  (searchLoop World Image genAI axiosGet generateContent parseProductsJson).

Lemma toProduct_wellFormed p : wellFormed (toProduct p).
Proof. now repeat split. Qed.

Lemma parseGeminiWebSearchResponse_wellFormed text :
  Forall wellFormed (parseGeminiWebSearchResponse text).
Proof.
  unfold Matcher.parseGeminiWebSearchResponse.
  destruct (parseProductsJson text) as [arr|]; [|constructor].
  destruct (allPresent arr) as [ps|]; [|constructor].
  apply Forall_forall. intros p [raw [-> Hraw]]%list_elem_of_fmap.
  apply toProduct_wellFormed.
Qed.

(** One item: the calls are appended to the log in one of the three
    shapes, products come only with both calls made, and nothing is called
    without an image or without the client. *)
Lemma searchOne_served item s :
  exists r cs w',
    searchOne item s = (Ok r, {| world := w'; calls := calls s ++ cs |}) /\
    served genAI item (r, cs).
Proof.
  assert (Hnone : exists r cs w',
    (Ok (foundResult item []), s) = (Ok r, {| world := w'; calls := calls s ++ cs |}) /\
    served genAI item (r, cs)).
  { exists (foundResult item []), [], (world s). split.
    - rewrite app_nil_r. now destruct s.
    - exists []. repeat split; [constructor|now left|done]. }
  unfold Matcher.searchOne, Matcher.searchByImage, Matcher.searchWithGeminiWebSearch.
  destruct (truthyOpt (Item.extractedImageUrl item)) eqn:Himg; [|exact Hnone].
  destruct genAI; [|exact Hnone]. cbn [negb orb andb].
  fold (target item).
  unfold served, hasImage. rewrite Himg.
  unfold tryCatch, bind, remote, ret.
  destruct (axiosGet _ (world s)) as [[img|e] w1]; cbn.
  - destruct (generateContent item img w1) as [[text|e] w2]; cbn.
    + eexists _, [ _ ; _ ], w2. rewrite <- app_assoc. split; [reflexivity|].
      eexists. split; [reflexivity|]. cbn [snd].
      split; [apply parseGeminiWebSearchResponse_wellFormed|].
      split; [now right; right|]. split; [done|discriminate].
    + eexists _, [ _ ; _ ], w2. rewrite <- app_assoc. split; [reflexivity|].
      exists []. split; [reflexivity|]. cbn [snd].
      split; [constructor|]. split; [now right; right|]. split; [done|discriminate].
  - eexists _, [ _ ], w1. split; [reflexivity|].
    exists []. split; [reflexivity|]. cbn [snd].
    split; [constructor|]. split; [now right; left|]. split; [done|discriminate].
Qed.

Lemma searchLoop_served items : forall acc s,
  exists rcs w',
    searchLoop items acc s =
      (Ok (acc ++ map fst rcs),
       {| world := w'; calls := calls s ++ concat (map snd rcs) |}) /\
    Forall2 (served genAI) items rcs.
Proof.
  induction items as [|item rest IH]; intros acc s.
  - exists [], (world s). cbn. rewrite !app_nil_r. split; [now destruct s|constructor].
  - destruct (searchOne_served item s) as (r & cs & w1 & Hrun & Hserved).
    destruct (IH (acc ++ [r]) {| world := w1; calls := calls s ++ cs |})
      as (rcs & w2 & Hloop & Hall).
    exists ((r, cs) :: rcs), w2. split; [|now constructor].
    cbn [Matcher.searchLoop]. unfold bind at 1. rewrite Hrun, Hloop.
    cbn. now rewrite <- !app_assoc.
Qed.

End Service.
End MatcherTrace.

Module MatcherProperties.
Import JsObject Effects Fusion Matcher Protocol MatcherTrace Examples Samples.

(** X6: the matcher's calls follow a fixed protocol.  The run returns, and
    the calls it adds to the log are, item by item and in the order of the
    items, nothing, the image fetch alone, or the image fetch followed by
    the model call; an item gets products only when both calls were made,
    an item without image or a service without client causes no call, and
    so at most two calls are made per item that has an image. *)
Theorem matcher_call_protocol
    (World Image : Type) (genAI : bool)
    (axiosGet : string -> World -> Result Image * World)
    (generateContent :
       Item.ExtractedItem -> Image -> World -> Result (option string) * World)
    (parseProductsJson : string -> option (list (option RawProduct)))
    (items : list Item.ExtractedItem) (s : state World) :
  exists (rcs : list (ShoppingSearchResults * list BackendCall)) (w' : World),
    searchProductsForExtractedItems World Image genAI axiosGet generateContent
      parseProductsJson items s =
      (Ok (map fst rcs), {| world := w'; calls := calls s ++ concat (map snd rcs) |}) /\
    Forall2 (fun item rc =>
               itemCalls item (snd rc) /\
               (products (fst rc) <> [] ->
                snd rc = [ AxiosGet item (target item); GenerateContent item ]) /\
               (hasImage item && genAI = false -> snd rc = []))
            items rcs /\
    (length (concat (map snd rcs)) <= 2 * length (List.filter hasImage items))%nat.
Proof.
  destruct (searchLoop_served World Image genAI axiosGet generateContent
              parseProductsJson items [] s) as (rcs & w' & Hrun & Hall).
  exists rcs, w'. split; [exact Hrun|]. split.
  - eapply Forall2_impl; [exact Hall|].
    intros item [r cs] (ps & Hr & _ & Hcalls & Hboth & Hnone). cbn [fst snd] in *.
    subst r. auto.
  - clear Hrun. induction Hall as [|item [r cs] items rcs Hserved _ IH]; [cbn; lia|].
    destruct Hserved as (ps & _ & _ & Hcalls & _ & Hnone). cbn [fst snd] in *.
    cbn [map concat List.filter]. rewrite length_app.
    destruct (hasImage item) eqn:Himg.
    + destruct Hcalls as [->|[->| ->]]; simpl; lia.
    + rewrite (Hnone eq_refl). simpl. lia.
Qed.

(** X7: what the matcher returns mirrors its input: each result repeats
    the piece type, confidence and image address of its item,
    [totalResults] is the number of its products, and every product has
    the source [gemini_web_search], the currency USD, the availability
    [available] and no image, and so a relevance score from 25 to 30. *)
Theorem matcher_results_well_formed
    (World Image : Type) (genAI : bool)
    (axiosGet : string -> World -> Result Image * World)
    (generateContent :
       Item.ExtractedItem -> Image -> World -> Result (option string) * World)
    (parseProductsJson : string -> option (list (option RawProduct)))
    (items : list Item.ExtractedItem) (s : state World) :
  exists results s',
    searchProductsForExtractedItems World Image genAI axiosGet generateContent
      parseProductsJson items s = (Ok results, s') /\
    Forall2 (fun item r =>
               pieceType r = Item.pieceType item /\
               confidence r = Item.confidence item /\
               extractedImageUrl r = Item.extractedImageUrl item /\
               totalResults r = length (products r) /\
               Forall (fun p =>
                         wellFormed p /\
                         forall item', (25 <= calculateRelevance p item' <= 30)%Z)
                      (products r))
            items results.
Proof.
  destruct (searchLoop_served World Image genAI axiosGet generateContent
              parseProductsJson items [] s) as (rcs & w' & Hrun & Hall).
  eexists _, _. split; [exact Hrun|].
  apply Forall2_fmap_r. eapply Forall2_impl; [exact Hall|].
  intros item [r cs] (ps & Hr & Hwf & _). cbn [fst] in *. subst r.
  repeat split; try reflexivity. cbn [products foundResult].
  eapply Forall_impl; [exact Hwf|]. intros p Hp. split; [exact Hp|].
  intros item'. destruct Hp as (Hsrc & _ & Himg & _).
  unfold calculateRelevance. rewrite Hsrc, Himg. cbn [sourceBase String.eqb truthyOpt].
  destruct (existsb _ _), (_ && _); cbn; lia.
Qed.

(** X8: a backend failure costs the item its products and nothing else.
    For an item with an image and a configured client, when the image
    fetch throws, or the fetch succeeds and the model call throws, the run
    still returns, with an empty product list under the method
    [no_image_available], and the model is not called after a failed
    fetch. *)
Theorem matcher_backend_failure_is_swallowed
    (World Image : Type)
    (axiosGet : string -> World -> Result Image * World)
    (generateContent :
       Item.ExtractedItem -> Image -> World -> Result (option string) * World)
    (parseProductsJson : string -> option (list (option RawProduct)))
    (item : Item.ExtractedItem) (s : state World) (e : string) (w1 : World) :
  hasImage item = true ->
  (axiosGet (target item) (world s) = (Throw e, w1) \/
   exists img w0, axiosGet (target item) (world s) = (Ok img, w0) /\
                  generateContent item img w0 = (Throw e, w1)) ->
  exists cs,
    searchProductsForExtractedItems World Image true axiosGet generateContent
      parseProductsJson [item] s =
      (Ok [ foundResult item [] ], {| world := w1; calls := calls s ++ cs |}) /\
    searchMethod (foundResult item []) = "no_image_available" /\
    (axiosGet (target item) (world s) = (Throw e, w1) ->
     cs = [ AxiosGet item (target item) ]).
Proof.
  unfold hasImage. intros Himg Hfail.
  assert (Hm : searchMethod (foundResult item []) = "no_image_available").
  { cbn. now rewrite andb_false_r. }
  unfold searchProductsForExtractedItems, searchLoop, searchOne, searchByImage,
    searchWithGeminiWebSearch.
  rewrite Himg. cbn [negb orb]. fold (target item).
  unfold tryCatch, bind, remote, ret.
  destruct Hfail as [Hget|(img & w0 & Hget & Hgen)]; rewrite Hget; cbn.
  - exists [ AxiosGet item (target item) ]. auto.
  - rewrite Hgen. cbn. rewrite <- app_assoc.
    eexists. split; [reflexivity|]. split; [exact Hm|]. discriminate.
Qed.

Lemma matcher_backend_failure_is_swallowed_witness :
  exists cs,
    searchProductsForExtractedItems nat string true refusingGet answering oneProduct
      [dress] start =
      (Ok [ foundResult dress [] ], {| world := 1%nat; calls := calls start ++ cs |}) /\
    searchMethod (foundResult dress []) = "no_image_available" /\
    (refusingGet (target dress) (world start) = (Throw "ETIMEDOUT", 1%nat) ->
     cs = [ AxiosGet dress (target dress) ]).
Proof.
  apply (matcher_backend_failure_is_swallowed nat string refusingGet answering oneProduct
           dress start "ETIMEDOUT" 1%nat).
  - reflexivity.
  - left. reflexivity.
Defined.

End MatcherProperties.

(** ** Duplicate removal *)

Module RemovalFacts.
Import JsString JsObject Extraction Item ExtractionFacts Settled.

Lemma settled_prefix l x : settled (l ++ [x]) -> settled l.
Proof.
  intros Hs j L Hj Hex.
  assert (Hlt : (j < length l)%nat) by (eapply lookup_lt_Some; eauto).
  specialize (Hs j L). rewrite take_app_le in Hs by lia.
  apply Hs; [|done]. now apply lookup_app_l_Some.
Qed.

Lemma fold_removeStep_settled l :
  settled l ->
  let st := fold_left removeStep l {| deduplicatedItems := []; seenItems := ∅ |} in
  deduplicatedItems st = l /\
  forall k, k ∈ seenItems st <-> exists E, E ∈ l /\ generateItemKey E = k.
Proof.
  induction l as [|x l IH] using rev_ind; intros Hs; cbn zeta.
  - cbn. split; [done|]. intros k. split; [intros H; now apply elem_of_empty in H|].
    intros (E & HE & _). inversion HE.
  - rewrite fold_left_app. cbn [fold_left].
    destruct (IH (settled_prefix _ _ Hs)) as [Hd Hseen].
    set (st := fold_left removeStep l _) in *.
    assert (Hpush : forall seen,
      (forall k, k ∈ seen <-> k = generateItemKey x \/ k ∈ seenItems st) ->
      let st' := {| seenItems := seen; deduplicatedItems := deduplicatedItems st ++ [x] |} in
      deduplicatedItems st' = l ++ [x] /\
      forall k, k ∈ seenItems st' <-> exists E, E ∈ l ++ [x] /\ generateItemKey E = k).
    { intros seen Hin. cbn. rewrite Hd. split; [done|]. intros k.
      rewrite Hin, Hseen. split.
      - intros [->|(E & HE & Hk)].
        + exists x. split; [|done]. apply elem_of_app. right. now left.
        + exists E. split; [|done]. apply elem_of_app. now left.
      - intros (E & HE & Hk). apply elem_of_app in HE as [HE|HE]; [eauto|].
        apply list_elem_of_singleton in HE as ->. now left. }
    unfold removeStep. case_bool_decide as Hkey; cbn [negb].
    + assert (Hdup : isDuplicatePairedItem x (deduplicatedItems st) = false).
      { rewrite Hd. specialize (Hs (length l) x).
        rewrite take_app_length in Hs. apply Hs.
        - rewrite lookup_app_r by lia. now rewrite Nat.sub_diag.
        - now apply Hseen. }
      rewrite Hdup. cbn [negb]. apply Hpush. intros k. split; [auto|].
      intros [->|H]; done.
    + apply Hpush. intros k. now rewrite elem_of_union, elem_of_singleton.
Qed.

Lemma removeDuplicateItems_settled l : settled l -> removeDuplicateItems l = l.
Proof. intros Hs. apply (fold_removeStep_settled l Hs). Qed.

Lemma removeStep_unpaired st item :
  List.filter unpaired (deduplicatedItems (removeStep st item)) =
  List.filter unpaired (deduplicatedItems st ++ [item]).
Proof.
  unfold removeStep. destruct (negb (bool_decide _)); [done|].
  unfold isDuplicatePairedItem.
  destruct (negb (isPairedType _)) eqn:Hun; cbn [negb deduplicatedItems]; [done|].
  destruct (existsb _ _); cbn [negb deduplicatedItems]; [|done].
  rewrite List.filter_app. cbn [List.filter]. unfold unpaired at 3. rewrite Hun.
  now rewrite app_nil_r.
Qed.

Lemma fold_removeStep_unpaired items : forall st,
  List.filter unpaired (deduplicatedItems (fold_left removeStep items st)) =
  List.filter unpaired (deduplicatedItems st ++ items).
Proof.
  induction items as [|item items IH]; intros st; cbn [fold_left].
  - now rewrite app_nil_r.
  - rewrite IH, !List.filter_app, removeStep_unpaired, List.filter_app.
    cbn [List.filter]. rewrite <- app_assoc. f_equal.
    now destruct (unpaired item).
Qed.

Lemma fold_removeStep_checked items : forall st,
  checkedState st -> checkedState (fold_left removeStep items st).
Proof.
  induction items as [|item items IH]; intros st Hst; cbn [fold_left]; [exact Hst|].
  apply IH, removeStep_checked, Hst.
Qed.

Lemma removeDuplicateItems_state items :
  checkedState (fold_left removeStep items {| deduplicatedItems := []; seenItems := ∅ |}).
Proof.
  apply fold_removeStep_checked. split; cbn.
  - intros k. split; [intros H; now apply elem_of_empty in H|].
    intros (E & HE & _). inversion HE.
  - intros j L Hj. now rewrite lookup_nil in Hj.
Qed.

Lemma colorsMatch_refl c : colorsMatch c c = true.
Proof.
  unfold colorsMatch. destruct (negb (truthyOpt c) || negb (truthyOpt c)); [reflexivity|].
  destruct c as [a|]; [|reflexivity]. now rewrite String.eqb_refl.
Qed.

Lemma typeEq_refl v : typeEq v v = true.
Proof. destruct v; cbn; apply String.eqb_refl. Qed.

Lemma filter_all_in (W : list string) :
  List.filter (fun w => inList w W) W = W.
Proof.
  assert (H : forall V, (forall w, In w V -> In w W) ->
                        List.filter (fun w => inList w W) V = V).
  { induction V as [|v V IH]; intros Hsub; [reflexivity|]. cbn [List.filter].
    replace (inList v W) with true.
    - f_equal. apply IH. intros w Hw. apply Hsub. now right.
    - symmetry. unfold inList. apply existsb_exists. exists v.
      split; [apply Hsub; now left|apply String.eqb_refl]. }
  now apply H.
Qed.

Lemma length_nodup_twice (W : list string) :
  List.NoDup W -> length (nodup String.string_dec (W ++ W)) = length W.
Proof.
  intros HW. apply Permutation_length, Stdlib.Sorting.Permutation.NoDup_Permutation.
  - apply NoDup_nodup.
  - exact HW.
  - intros x. rewrite nodup_In, in_app_iff. tauto.
Qed.

(** A description with a word of more than two code units is similar to
    itself above the threshold. *)
Lemma self_similarity d :
  wordSet d <> [] -> Qgtb (calculateDescriptionSimilarity d d) 0.6 = true.
Proof.
  intros Hword. unfold calculateDescriptionSimilarity.
  rewrite filter_all_in, length_nodup_twice by (unfold wordSet; apply NoDup_nodup).
  destruct (wordSet d) as [|w W]; [done|]. cbn [length].
  replace (0 <? S (length W))%nat with true by reflexivity.
  unfold Qgtb. apply negb_true_iff, not_true_iff_false. intros H%Qle_bool_iff.
  unfold ratio in H.
  assert (Hpos : (0 < inject_Z (Z.of_nat (S (length W))))%Q).
  { change 0%Q with (inject_Z 0). rewrite <- Zlt_Qlt. lia. }
  set (x := inject_Z (Z.of_nat (S (length W)))) in *.
  assert (Hlt : (0.6 < x / x)%Q) by (apply Qlt_shift_div_l; [exact Hpos|lra]).
  apply (Qlt_not_le _ _ Hlt H).
Qed.

End RemovalFacts.

Module RemovalProperties.
Import JsString JsObject Extraction Item ExtractionFacts Settled RemovalFacts Examples.

(** X9: duplicate removal is idempotent: run on its own output it removes
    nothing more. *)
Theorem removeDuplicateItems_idempotent (items : list ExtractedItem) :
  removeDuplicateItems (removeDuplicateItems items) = removeDuplicateItems items.
Proof.
  apply removeDuplicateItems_settled. intros j L Hj Hex.
  now apply removeDuplicateItems_checked.
Qed.

(** X10: duplicate removal never removes an item of an unpaired piece
    type: the unpaired items of the output are those of the input, in
    order, so a list without paired pieces comes back unchanged, exact
    repeats included. *)
Theorem removeDuplicateItems_keeps_unpaired (items : list ExtractedItem) :
  List.filter unpaired (removeDuplicateItems items) = List.filter unpaired items /\
  (forallb unpaired items = true -> removeDuplicateItems items = items) /\
  (forall item, unpaired item = true ->
     removeDuplicateItems [item; item] = [item; item]).
Proof.
  assert (Hall : forall l, forallb unpaired l = true -> removeDuplicateItems l = l).
  { intros l Hl. apply removeDuplicateItems_settled. intros j L Hj _.
    unfold isDuplicatePairedItem.
    rewrite forallb_forall in Hl. specialize (Hl L).
    unfold unpaired in Hl. rewrite Hl; [done|].
    apply list_elem_of_In. eapply list_elem_of_lookup_2; eauto. }
  split; [|split].
  - unfold removeDuplicateItems. now rewrite fold_removeStep_unpaired.
  - apply Hall.
  - intros item Hitem. apply Hall. cbn. now rewrite Hitem.
Qed.

(** X11: items whose keys (normalized type, colour and description) are
    pairwise distinct are all kept, in their order. *)
Theorem removeDuplicateItems_keeps_distinct_keys (items : list ExtractedItem) :
  NoDup (map generateItemKey items) ->
  removeDuplicateItems items = items.
Proof.
  intros Hnd. apply removeDuplicateItems_settled. intros j L Hj (E & HE & Hk).
  exfalso.
  rewrite <- (take_drop j items) in Hnd. rewrite map_app in Hnd.
  apply NoDup_app in Hnd as (_ & Hdis & _).
  apply (Hdis (generateItemKey L)).
  - rewrite <- Hk. apply list_elem_of_fmap. eauto.
  - apply list_elem_of_fmap. exists L. split; [done|].
    eapply list_elem_of_lookup_2 with (i := 0%nat).
    rewrite lookup_drop. now rewrite Nat.add_0_r.
Qed.

Lemma removeDuplicateItems_keeps_distinct_keys_witness :
  removeDuplicateItems [leatherBoots; ankleBoots] = [leatherBoots; ankleBoots].
Proof.
  apply (removeDuplicateItems_keeps_distinct_keys [leatherBoots; ankleBoots]).
  compute_done.
Defined.

(** X12: what duplicate removal does remove: an item of a paired type
    that repeats the type, colour and description of a kept item is
    dropped, wherever its box is, when that description has a word of
    more than two code units.  (An item of any other type is kept, see
    above.) *)
Theorem removeDuplicateItems_drops_paired_repeat
    (items : list ExtractedItem) (kept repeat : ExtractedItem) :
  kept ∈ removeDuplicateItems items ->
  pieceType repeat = pieceType kept ->
  color repeat = color kept ->
  description repeat = description kept ->
  unpaired repeat = false ->
  wordSet (normalizeDescription (description repeat)) <> [] ->
  removeDuplicateItems (items ++ [repeat]) = removeDuplicateItems items.
Proof.
  intros Hkept Htype Hcolor Hdesc Hpaired Hword.
  unfold removeDuplicateItems in *. rewrite fold_left_app. cbn [fold_left].
  destruct (removeDuplicateItems_state items) as [Hseen _].
  set (st := fold_left removeStep items _) in *.
  assert (Hkey : generateItemKey repeat ∈ seenItems st).
  { apply Hseen. exists kept. split; [exact Hkept|].
    unfold generateItemKey. now rewrite Htype, Hcolor, Hdesc. }
  unfold removeStep. rewrite (bool_decide_eq_true_2 _ Hkey). cbn [negb].
  replace (isDuplicatePairedItem repeat (deduplicatedItems st)) with true; [reflexivity|].
  symmetry. unfold isDuplicatePairedItem.
  unfold unpaired in Hpaired. rewrite Hpaired.
  apply existsb_exists. exists kept. split; [now apply list_elem_of_In|].
  unfold duplicateOf. rewrite Htype, typeEq_refl, Hcolor, colorsMatch_refl.
  rewrite <- Hdesc, self_similarity by exact Hword. reflexivity.
Qed.

Lemma removeDuplicateItems_drops_paired_repeat_witness :
  removeDuplicateItems ([leatherBoots] ++ [leatherBoots]) = removeDuplicateItems [leatherBoots].
Proof.
  apply (removeDuplicateItems_drops_paired_repeat [leatherBoots] leatherBoots leatherBoots).
  - vm_compute. left.
  - reflexivity.
  - reflexivity.
  - reflexivity.
  - reflexivity.
  - vm_compute. discriminate.
Defined.

End RemovalProperties.

(** ** The ids of extracted items *)

Module ExtractionIdFacts.
Import JsString JsObject Effects Extraction Item ExtractionFacts Settled RemovalFacts.
Import IdSamples.

(** The test suite of RFC 1321. *)
Lemma md5hex_test_suite :
  Md5.md5hex "" = "d41d8cd98f00b204e9800998ecf8427e" /\
  Md5.md5hex "a" = "0cc175b9c0f1b6a831c399e269772661" /\
  Md5.md5hex "abc" = "900150983cd24fb0d6963f7d28e17f72" /\
  Md5.md5hex "message digest" = "f96b697d7cb7938d525a2f31aaf161d0" /\
  Md5.md5hex "abcdefghijklmnopqrstuvwxyz" = "c3fcd3d76192e4007dfb496cca67e13b" /\
  Md5.md5hex "ABCDEFGHIJKLMNOPQRSTUVWXYZabcdefghijklmnopqrstuvwxyz0123456789" =
    "d174ab98d277d9f5a5611c2c9f419d9f" /\
  Md5.md5hex
    "12345678901234567890123456789012345678901234567890123456789012345678901234567890" =
    "57edf4a22be3c955ac49da2e2107b67a".
Proof. repeat split; vm_compute; reflexivity. Qed.


End ExtractionIdFacts.

Module ExtractionIdClaims.
Import JsString JsObject Effects Extraction Item ExtractionFacts.
Import Examples IdSamples ExtractionIdFacts.




End ExtractionIdClaims.

(** ** Normalized strings *)

Module StringFacts.
Import JsString JsObject Charset.

Ltac each_char c := destruct c as [[] [] [] [] [] [] [] []]; vm_compute; reflexivity.

Lemma lowerChar_idem c : lowerChar (lowerChar c) = lowerChar c.
Proof. each_char c. Qed.

Lemma toLowerCase_idem s : toLowerCase (toLowerCase s) = toLowerCase s.
Proof. induction s as [|c s IH]; cbn; [done|]. now rewrite lowerChar_idem, IH. Qed.

Lemma lowerChar_not_upper c : isUpper (lowerChar c) = false.
Proof. each_char c. Qed.

Lemma key_char_of_kept c :
  (isWordChar c || isSpace c) && negb (isUpper c) = true ->
  isSpace c || isKeyChar c = true.
Proof. destruct c as [[] [] [] [] [] [] [] []]; vm_compute; congruence. Qed.

Lemma allChars_impl (P Q : ascii -> bool) s :
  (forall c, P c = true -> Q c = true) -> allChars P s = true -> allChars Q s = true.
Proof.
  intros H. induction s as [|c s IH]; cbn; [done|].
  intros [Hc Hs]%andb_true_iff. rewrite (H c Hc). cbn. auto.
Qed.

Lemma allChars_toLowerCase s : allChars (fun c => negb (isUpper c)) (toLowerCase s) = true.
Proof. induction s as [|c s IH]; cbn; [done|]. now rewrite lowerChar_not_upper. Qed.

Lemma allChars_keepChars (keep R : ascii -> bool) s :
  allChars R s = true -> allChars (fun c => keep c && R c) (keepChars keep s) = true.
Proof.
  induction s as [|c s IH]; cbn; [done|].
  intros [Hc Hs]%andb_true_iff. destruct (keep c) eqn:Hk; cbn; [|auto].
  rewrite Hk, Hc. cbn. auto.
Qed.

Lemma allChars_collapseFrom (Q : ascii -> bool) s : forall inRun,
  Q " "%char = true ->
  allChars (fun c => isSpace c || Q c) s = true ->
  allChars Q (collapseFrom inRun s) = true.
Proof.
  induction s as [|c s IH]; intros inRun Hsp; cbn; [done|].
  intros [Hc Hs]%andb_true_iff.
  destruct (isSpace c) eqn:Hspace.
  - destruct inRun; cbn; [auto|]. rewrite Hsp. cbn. auto.
  - cbn in Hc. cbn. rewrite Hc. cbn. auto.
Qed.

Lemma allChars_trimStart P s : allChars P s = true -> allChars P (trimStart s) = true.
Proof.
  induction s as [|c s IH]; cbn; [done|].
  intros H. destruct (isSpace c); [|exact H].
  apply andb_true_iff in H as [_ H]. auto.
Qed.

Lemma allChars_trimEnd P s : allChars P s = true -> allChars P (trimEnd s) = true.
Proof.
  induction s as [|c s IH]; cbn; [done|].
  intros [Hc Hs]%andb_true_iff. specialize (IH Hs).
  destruct (trimEnd s) as [|d t].
  - destruct (isSpace c); cbn; [done|]. now rewrite Hc.
  - cbn in *. now rewrite Hc, IH.
Qed.

Lemma allChars_substring0 P n : forall s,
  allChars P s = true -> allChars P (substring0 n s) = true.
Proof.
  induction n as [|n IH]; intros [|c s]; cbn; try done.
  intros [Hc Hs]%andb_true_iff. rewrite Hc. cbn. auto.
Qed.

Lemma length_substring0 n : forall s, (String.length (substring0 n s) <= n)%nat.
Proof.
  induction n as [|n IH]; intros [|c s]; cbn; try lia. specialize (IH s). lia.
Qed.

(** [collapseFrom] leaves no two spaces in a row, and no space at the head
    when it starts inside a run. *)
Lemma singleSpaced_collapseFrom s : forall inRun,
  singleSpaced (collapseFrom inRun s) = true /\
  (inRun = true ->
   match collapseFrom inRun s with
   | String a _ => (code a =? 32)%N = false
   | EmptyString => True
   end).
Proof.
  induction s as [|c s IH]; intros inRun; cbn; [done|].
  destruct (isSpace c) eqn:Hspace.
  - destruct inRun.
    + apply IH.
    + split; [|discriminate]. destruct (IH true) as [Hs Hh].
      cbn. destruct (collapseFrom true s) as [|a t]; [done|].
      rewrite (Hh eq_refl). cbn. exact Hs.
  - assert (Hc : (code c =? 32)%N = false).
    { destruct ((code c =? 32)%N) eqn:E; [|done].
      unfold isSpace in Hspace. rewrite E in Hspace.
      now rewrite orb_true_r in Hspace. }
    split; [|now intros _].
    destruct (IH false) as [Hs _]. cbn.
    destruct (collapseFrom false s) as [|a t]; [done|].
    rewrite Hc. cbn. exact Hs.
Qed.

Lemma singleSpaced_cons a b s :
  singleSpaced (String a (String b s)) =
  negb ((code a =? 32)%N && (code b =? 32)%N) && singleSpaced (String b s).
Proof. reflexivity. Qed.

Lemma singleSpaced_tail a s : singleSpaced (String a s) = true -> singleSpaced s = true.
Proof. destruct s as [|b t]; cbn; [done|]. now intros [_ H]%andb_true_iff. Qed.

Lemma singleSpaced_trimStart s : singleSpaced s = true -> singleSpaced (trimStart s) = true.
Proof.
  induction s as [|c s IH]; cbn [trimStart]; [done|].
  intros H. destruct (isSpace c); [|exact H].
  apply IH. eapply singleSpaced_tail; eauto.
Qed.

Lemma singleSpaced_trimEnd s : singleSpaced s = true -> singleSpaced (trimEnd s) = true.
Proof.
  induction s as [|c s IH]; cbn [trimEnd]; [done|].
  intros H. specialize (IH (singleSpaced_tail _ _ H)).
  destruct s as [|b t].
  - cbn. now destruct (isSpace c).
  - cbn [trimEnd] in *. destruct (trimEnd t) as [|d u] eqn:Ht.
    + destruct (isSpace b); [|].
      * cbn. now destruct (isSpace c).
      * cbn in H. apply andb_true_iff in H as [H _]. cbn. now rewrite H.
    + rewrite singleSpaced_cons in H. apply andb_true_iff in H as [H _].
      rewrite singleSpaced_cons. now rewrite H, IH.
Qed.

Lemma singleSpaced_substring0 n : forall s,
  singleSpaced s = true -> singleSpaced (substring0 n s) = true.
Proof.
  induction n as [|n IH]; intros [|a s]; cbn [substring0]; try done.
  intros H. specialize (IH s (singleSpaced_tail _ _ H)).
  destruct n as [|n]; [now destruct s|].
  destruct s as [|b t]; [done|].
  cbn [substring0] in *. rewrite singleSpaced_cons in H.
  apply andb_true_iff in H as [H _].
  rewrite singleSpaced_cons. now rewrite H, IH.
Qed.

Lemma trimStart_head s :
  match trimStart s with String a _ => isSpace a = false | EmptyString => True end.
Proof.
  induction s as [|c s IH]; cbn; [done|]. now destruct (isSpace c) eqn:E.
Qed.

Lemma trimEnd_head s :
  match s with String a _ => isSpace a = false | EmptyString => True end ->
  match trimEnd s with String a _ => isSpace a = false | EmptyString => True end.
Proof.
  destruct s as [|c s]; cbn; [done|]. intros Hc.
  destruct (trimEnd s); [now rewrite Hc|done].
Qed.

End StringFacts.

Module TitleProperties.
Import JsString JsObject Fusion Charset StringFacts.

(** X13: the shape of a normalized title key: at most 60 code units, each
    of them a lower-case letter, a digit, an underscore or a space, no
    space at the head and no two spaces in a row; and the key does not
    depend on the letter case of the title. *)
Theorem normalizeProductTitle_shape (t : string) :
  (String.length (normalizeProductTitle t) <= 60)%nat /\
  allChars isKeyChar (normalizeProductTitle t) = true /\
  singleSpaced (normalizeProductTitle t) = true /\
  (match normalizeProductTitle t with
   | String a _ => isSpace a = false
   | EmptyString => True
   end) /\
  normalizeProductTitle (toLowerCase t) = normalizeProductTitle t.
Proof.
  unfold normalizeProductTitle. split; [apply length_substring0|].
  split; [|split; [|split]].
  - apply allChars_substring0, allChars_trimEnd, allChars_trimStart.
    apply allChars_collapseFrom; [reflexivity|].
    eapply allChars_impl; [apply key_char_of_kept|].
    apply allChars_keepChars, allChars_toLowerCase.
  - apply singleSpaced_substring0, singleSpaced_trimEnd, singleSpaced_trimStart.
    apply singleSpaced_collapseFrom.
  - set (s := collapseWhitespace _). unfold trim.
    pose proof (trimEnd_head (trimStart s) (trimStart_head s)) as H.
    destruct (trimEnd (trimStart s)); [done|exact H].
  - now rewrite toLowerCase_idem.
Qed.

End TitleProperties.

Module TypeProperties.
Import JsString JsObject Extraction StringFacts Examples.

Lemma typeMap_values k v :
  assoc k typeMap = Some v -> normalizePieceType v = TStr v /\ toLowerCase v = v.
Proof.
  unfold typeMap. cbn [assoc].
  repeat (destruct (String.eqb k _);
          [intros H; injection H as <-; split; reflexivity|]).
  discriminate.
Qed.

(** X14: piece types are normalized to canonical names: the result does
    not depend on letter case, and a canonical name is lower case and
    normalizes to itself. *)
Theorem normalizePieceType_canonical (pieceType s : string) :
  normalizePieceType pieceType = TStr s ->
  normalizePieceType s = TStr s /\
  toLowerCase s = s /\
  normalizePieceType (toLowerCase pieceType) = TStr s.
Proof.
  intros H.
  assert (Hcase : normalizePieceType (toLowerCase pieceType) = normalizePieceType pieceType).
  { unfold normalizePieceType. now rewrite toLowerCase_idem. }
  rewrite Hcase, H. split; [|split; [|reflexivity]].
  - unfold normalizePieceType in H.
    destruct (assoc (toLowerCase pieceType) typeMap) as [v|] eqn:Hm.
    + injection H as <-. now apply typeMap_values in Hm.
    + destruct (assoc (toLowerCase pieceType) objectPrototype) eqn:Hp; [discriminate|].
      injection H as <-. unfold normalizePieceType.
      now rewrite toLowerCase_idem, Hm, Hp.
  - unfold normalizePieceType in H.
    destruct (assoc (toLowerCase pieceType) typeMap) as [v|] eqn:Hm.
    + injection H as <-. now apply typeMap_values in Hm.
    + destruct (assoc (toLowerCase pieceType) objectPrototype) eqn:Hp; [discriminate|].
      injection H as <-. apply toLowerCase_idem.
Qed.

Lemma normalizePieceType_canonical_witness :
  normalizePieceType "shoes" = TStr "shoes" /\
  toLowerCase "shoes" = "shoes" /\
  normalizePieceType (toLowerCase "Sneakers") = TStr "shoes".
Proof.
  apply (normalizePieceType_canonical "Sneakers" "shoes"). reflexivity.
Defined.

End TypeProperties.

(** ** The similarity measures *)

Module SimilarityFacts.
Import JsString JsObject Extraction Item.

Lemma inList_In s l : inList s l = true <-> List.In s l.
Proof.
  unfold inList. rewrite existsb_exists. split.
  - intros (x & Hx & Heq). apply String.eqb_eq in Heq. now subst.
  - intros H. exists s. split; [done|apply String.eqb_refl].
Qed.

Lemma wordSet_NoDup desc : List.NoDup (wordSet desc).
Proof. apply NoDup_nodup. Qed.

Lemma length_common (w1 w2 : list string) :
  List.NoDup w1 -> List.NoDup w2 ->
  length (List.filter (fun w => inList w w2) w1) =
  length (List.filter (fun w => inList w w1) w2).
Proof.
  intros H1 H2. apply Permutation_length, Stdlib.Sorting.Permutation.NoDup_Permutation.
  - now apply List.NoDup_filter.
  - now apply List.NoDup_filter.
  - intros x. rewrite !filter_In, !inList_In. tauto.
Qed.

Lemma length_union (w1 w2 : list string) :
  length (nodup String.string_dec (w1 ++ w2)) =
  length (nodup String.string_dec (w2 ++ w1)).
Proof.
  apply Permutation_length, Stdlib.Sorting.Permutation.NoDup_Permutation; try apply NoDup_nodup.
  intros x. rewrite !nodup_In, !in_app_iff. tauto.
Qed.

Lemma calculateDescriptionSimilarity_sym d1 d2 :
  calculateDescriptionSimilarity d1 d2 = calculateDescriptionSimilarity d2 d1.
Proof.
  unfold calculateDescriptionSimilarity.
  rewrite (length_union (wordSet d1) (wordSet d2)).
  now rewrite (length_common _ _ (wordSet_NoDup d1) (wordSet_NoDup d2)).
Qed.

Lemma ratio_range a b : (a <= b)%nat -> (0 < b)%nat -> (0 <= ratio a b <= 1)%Q.
Proof.
  intros Hab Hb. unfold ratio.
  assert (Hb' : (0 < inject_Z (Z.of_nat b))%Q).
  { change 0%Q with (inject_Z 0). rewrite <- Zlt_Qlt. lia. }
  split.
  - apply Qle_shift_div_l; [done|]. rewrite Qmult_0_l.
    change 0%Q with (inject_Z 0). rewrite <- Zle_Qle. lia.
  - apply Qle_shift_div_r; [done|]. rewrite Qmult_1_l.
    rewrite <- Zle_Qle. lia.
Qed.

Lemma calculateDescriptionSimilarity_range d1 d2 :
  (0 <= calculateDescriptionSimilarity d1 d2 <= 1)%Q.
Proof.
  unfold calculateDescriptionSimilarity.
  destruct (0 <? _)%nat eqn:Hpos; [|split; [apply Qle_refl|discriminate]].
  apply Nat.ltb_lt in Hpos. apply ratio_range; [|done].
  etransitivity; [apply List.filter_length_le|].
  apply NoDup_incl_length; [apply wordSet_NoDup|].
  intros x Hx. apply nodup_In, in_app_iff. now left.
Qed.

Lemma calculateSpatialSimilarity_range box1 box2 :
  (0 <= calculateSpatialSimilarity box1 box2 <= 1)%Q.
Proof.
  unfold calculateSpatialSimilarity.
  destruct box1 as [bx1 by1 w1 h1], box2 as [bx2 by2 w2 h2]. cbn [BoundingBox.x
    BoundingBox.y BoundingBox.width BoundingBox.height].
  pose proof (Q.le_max_l bx1 bx2) as Hx1.
  pose proof (Q.le_max_r bx1 bx2) as Hx1'.
  pose proof (Q.le_max_l by1 by2) as Hy1.
  pose proof (Q.le_max_r by1 by2) as Hy1'.
  pose proof (Q.le_min_l (bx1 + w1) (bx2 + w2)) as Hx2.
  pose proof (Q.le_min_r (bx1 + w1) (bx2 + w2)) as Hx2'.
  pose proof (Q.le_min_l (by1 + h1) (by2 + h2)) as Hy2.
  pose proof (Q.le_min_r (by1 + h1) (by2 + h2)) as Hy2'.
  set (x1 := Qmax bx1 bx2) in *. set (y1 := Qmax by1 by2) in *.
  set (x2 := Qmin (bx1 + w1) (bx2 + w2)) in *.
  set (y2 := Qmin (by1 + h1) (by2 + h2)) in *.
  destruct (Qle_bool x2 x1) eqn:Ex; [split; [apply Qle_refl|discriminate]|].
  destruct (Qle_bool y2 y1) eqn:Ey; [split; [apply Qle_refl|discriminate]|].
  cbn [orb].
  assert (Hdx : (x1 < x2)%Q).
  { apply Qnot_le_lt. intros H. apply Qle_bool_iff in H. congruence. }
  assert (Hdy : (y1 < y2)%Q).
  { apply Qnot_le_lt. intros H. apply Qle_bool_iff in H. congruence. }
  unfold Qgtb. destruct (Qle_bool _ 0) eqn:Eu; cbn [negb];
    [split; [apply Qle_refl|discriminate]|].
  assert (Hu : (0 < w1 * h1 + w2 * h2 - (x2 - x1) * (y2 - y1))%Q).
  { apply Qnot_le_lt. intros H. apply Qle_bool_iff in H. congruence. }
  split.
  - apply Qle_shift_div_l; [done|]. rewrite Qmult_0_l. nra.
  - apply Qle_shift_div_r; [done|]. rewrite Qmult_1_l. nra.
Qed.

Lemma Qle_bool_compat a a' b b' :
  (a == a')%Q -> (b == b')%Q -> Qle_bool a b = Qle_bool a' b'.
Proof.
  intros Ha Hb. apply eq_true_iff_eq. rewrite !Qle_bool_iff. now rewrite Ha, Hb.
Qed.

Lemma calculateSpatialSimilarity_sym box1 box2 :
  (calculateSpatialSimilarity box1 box2 == calculateSpatialSimilarity box2 box1)%Q.
Proof.
  unfold calculateSpatialSimilarity.
  destruct box1 as [bx1 by1 w1 h1], box2 as [bx2 by2 w2 h2]. cbn [BoundingBox.x
    BoundingBox.y BoundingBox.width BoundingBox.height].
  pose proof (Q.max_comm bx1 bx2) as Hx1.
  pose proof (Q.max_comm by1 by2) as Hy1.
  pose proof (Q.min_comm (bx1 + w1) (bx2 + w2)) as Hx2.
  pose proof (Q.min_comm (by1 + h1) (by2 + h2)) as Hy2.
  set (x1 := Qmax bx1 bx2) in *. set (y1 := Qmax by1 by2) in *.
  set (x2 := Qmin (bx1 + w1) (bx2 + w2)) in *.
  set (y2 := Qmin (by1 + h1) (by2 + h2)) in *.
  set (x1' := Qmax bx2 bx1) in *. set (y1' := Qmax by2 by1) in *.
  set (x2' := Qmin (bx2 + w2) (bx1 + w1)) in *.
  set (y2' := Qmin (by2 + h2) (by1 + h1)) in *.
  rewrite (Qle_bool_compat x2 x2' x1 x1' Hx2 Hx1).
  rewrite (Qle_bool_compat y2 y2' y1 y1' Hy2 Hy1).
  destruct (Qle_bool x2' x1' || Qle_bool y2' y1'); [reflexivity|].
  assert (Hu : (w1 * h1 + w2 * h2 - (x2 - x1) * (y2 - y1) ==
                w2 * h2 + w1 * h1 - (x2' - x1') * (y2' - y1'))%Q).
  { rewrite Hx1, Hx2, Hy1, Hy2. ring. }
  unfold Qgtb. rewrite (Qle_bool_compat _ _ 0 0 Hu (Qeq_refl 0)).
  destruct (Qle_bool _ 0); cbn [negb]; [reflexivity|].
  now rewrite Hu, Hx1, Hx2, Hy1, Hy2.
Qed.

Lemma Qgtb_compat a a' b : (a == a')%Q -> Qgtb a b = Qgtb a' b.
Proof. intros H. unfold Qgtb. now rewrite (Qle_bool_compat a a' b b H (Qeq_refl b)). Qed.

Lemma typeEq_sym a b : typeEq a b = typeEq b a.
Proof. destruct a, b; cbn; try reflexivity; apply String.eqb_sym. Qed.

Lemma typeEq_eq a b : typeEq a b = true -> a = b.
Proof.
  destruct a, b; cbn; try discriminate; intros H; apply String.eqb_eq in H; now subst.
Qed.

Lemma colorsMatch_sym c1 c2 : colorsMatch c1 c2 = colorsMatch c2 c1.
Proof.
  unfold colorsMatch. rewrite (orb_comm (negb (truthyOpt c2))).
  destruct (negb (truthyOpt c1) || negb (truthyOpt c2)); [reflexivity|].
  destruct c1 as [a|], c2 as [b|]; try reflexivity.
  rewrite (String.eqb_sym (toLowerCase b)).
  destruct (String.eqb _ _); [reflexivity|].
  generalize colorGroups. intros groups.
  induction groups as [|group groups IH]; cbn [existsb]; [reflexivity|].
  now rewrite IH, andb_comm.
Qed.

Lemma duplicateOf_sym a b : duplicateOf a b = duplicateOf b a.
Proof.
  unfold duplicateOf. rewrite (typeEq_sym (normalizePieceType (pieceType a))).
  destruct (typeEq _ _); [|reflexivity].
  rewrite (colorsMatch_sym (color b)).
  rewrite (calculateDescriptionSimilarity_sym (normalizeDescription (description b))).
  now rewrite (Qgtb_compat _ _ 0.3 (calculateSpatialSimilarity_sym (boundingBox b) (boundingBox a))).
Qed.

End SimilarityFacts.

Module SimilarityProperties.
Import JsString JsObject Extraction Item SimilarityFacts Examples.

(** X15: bounds of the two similarity measures of the pair-duplicate test.
    The description similarity of any two descriptions lies between 0 and
    1.  The box similarity of any two boxes, also of zero or negative
    size, is never negative, and it is 0 when the right edge of the common
    part is not right of its left edge or its lower edge is not below its
    upper edge, that is when the boxes do not overlap. *)
Theorem similarity_bounds (desc1 desc2 : string) (box1 box2 : BoundingBox.t) :
  (0 <= calculateDescriptionSimilarity desc1 desc2 <= 1)%Q /\
  (0 <= calculateSpatialSimilarity box1 box2)%Q /\
  ((Qmin (BoundingBox.x box1 + BoundingBox.width box1)
         (BoundingBox.x box2 + BoundingBox.width box2)
    <= Qmax (BoundingBox.x box1) (BoundingBox.x box2) \/
    Qmin (BoundingBox.y box1 + BoundingBox.height box1)
         (BoundingBox.y box2 + BoundingBox.height box2)
    <= Qmax (BoundingBox.y box1) (BoundingBox.y box2))%Q ->
   calculateSpatialSimilarity box1 box2 = 0%Q).
Proof.
  split; [apply calculateDescriptionSimilarity_range|].
  split; [apply calculateSpatialSimilarity_range|].
  intros Hapart. unfold calculateSpatialSimilarity.
  destruct Hapart as [H|H]; apply Qle_bool_iff in H; rewrite H;
    [reflexivity|rewrite orb_true_r; reflexivity].
Qed.

(** X16: the pair-duplicate test does not depend on the order of the two
    items: the colour test, the description similarity and the test on
    one existing item are symmetric, the box similarity is symmetric as a
    number, and so is the pair-duplicate predicate. *)
Theorem pair_duplicate_is_symmetric (a b : ExtractedItem) :
  colorsMatch (color a) (color b) = colorsMatch (color b) (color a) /\
  calculateDescriptionSimilarity (description a) (description b) =
    calculateDescriptionSimilarity (description b) (description a) /\
  (calculateSpatialSimilarity (boundingBox a) (boundingBox b) ==
   calculateSpatialSimilarity (boundingBox b) (boundingBox a))%Q /\
  duplicateOf a b = duplicateOf b a /\
  pairDuplicate a b = pairDuplicate b a.
Proof.
  split; [apply colorsMatch_sym|]. split; [apply calculateDescriptionSimilarity_sym|].
  split; [apply calculateSpatialSimilarity_sym|]. split; [apply duplicateOf_sym|].
  unfold pairDuplicate. rewrite (duplicateOf_sym b a).
  unfold duplicateOf at 1 2.
  destruct (typeEq (normalizePieceType (pieceType b)) (normalizePieceType (pieceType a)))
    eqn:Ht; [|now rewrite !andb_false_r].
  apply typeEq_eq in Ht. now rewrite Ht.
Qed.

End SimilarityProperties.

(** ** The extraction service *)

Module EnrichmentFacts.
Import JsString JsObject Effects Extraction Item ExtractionFacts Enrichment.

Lemma truthy_append a b : truthy b = true -> truthy (a +:+ b) = true.
Proof.
  unfold truthy. destruct a as [|c a]; cbn; [done|reflexivity].
Qed.

Lemma textOr_truthy p d : truthy d = true -> truthy (textOr p d) = true.
Proof.
  intros Hd. unfold textOr. destruct p as [| |s]; [done|done|].
  destruct (truthy s) eqn:Hs; [exact Hs|exact Hd].
Qed.

Lemma orElse_truthy o d : truthy d = true -> truthy (orElse o d) = true.
Proof.
  intros Hd. unfold orElse. destruct o as [s|]; [|done].
  destruct (truthy s) eqn:Hs; [exact Hs|exact Hd].
Qed.

Lemma parsedItem_usable md5hex flatLayImageUrl index raw :
  usable (parsedItem md5hex flatLayImageUrl index raw).
Proof.
  repeat split; cbn.
  - now apply textOr_truthy.
  - apply orElse_truthy. now apply truthy_append.
  - destruct (rawConfidence raw) as [c|]; [|discriminate].
    unfold isZero. destruct (Qeq_bool c 0) eqn:Hc; [discriminate|].
    intros H. apply Qeq_bool_iff in H. congruence.
Qed.

Lemma mapItems_usable md5hex flatLayImageUrl arr : forall index items,
  mapItems md5hex flatLayImageUrl index arr = Some items -> Forall usable items.
Proof.
  induction arr as [|[raw|] arr IH]; intros index items; cbn.
  - intros [= <-]. constructor.
  - destruct (mapItems md5hex flatLayImageUrl (S index) arr) as [rest|] eqn:Hrest;
      cbn; [|discriminate].
    intros [= <-]. constructor; [apply parsedItem_usable|eauto].
  - discriminate.
Qed.

Lemma keyword_items_usable : Forall usable (map entryItem (indexed 0 clothingTypes)).
Proof. cbn. repeat constructor; discriminate. Qed.

Lemma extractItemsWithRegex_usable analysisText flatLayImageUrl :
  Forall usable (extractItemsWithRegex analysisText flatLayImageUrl).
Proof.
  apply Forall_forall. intros it Hit.
  pose proof keyword_items_usable as Hall. rewrite Forall_forall in Hall.
  apply Hall. eapply elem_of_sublist; [exact Hit|apply scan_sublist].
Qed.

Section Service.
Variable World : Type.
Variable Image : Type.
Variable InlineData : Type.
Variable genAI : bool.
Variable model : bool.
Variable port : string.
Variable md5hex : string -> string.
Variable parseJsonArray : string -> option (list (option RawItem)).
Variable now : World -> Z * World.
Variable axiosGet : string -> World -> Result Image * World.
Variable generateText : Image -> World -> Result string * World.
Variable generateImage :
  bool -> ExtractedItem -> Image -> World -> Result (option InlineData) * World.
Variable writeFile : string -> InlineData -> World -> Result unit * World.

Local Abbreviation generateFallbackItems := (generateFallbackItems World now).
Local Abbreviation generateItemImage :=
  (generateItemImage World Image InlineData genAI model port md5hex now
     generateImage writeFile).
Local Abbreviation generateItemImagesLoop :=
  (generateItemImagesLoop World Image InlineData genAI model port md5hex now
     generateImage writeFile).
Local Abbreviation generateItemImages :=
  (generateItemImages World Image InlineData genAI model port md5hex now
     generateImage writeFile).

Lemma generateItemImage_enriched item image w :
  exists item' w',
    generateItemImage item image w = (Ok item', w') /\ enriched item item'.
Proof.
  unfold Extraction.generateItemImage.
  match goal with
  | |- exists _ _, tryCatch ?body (fun _ => ret ?x) _ = _ /\ _ =>
      destruct (tryCatch_ret body x w) as (a & w' & Hrun & [->|Hbody])
  end.
  - eexists _, w'. split; [exact Hrun|]. now repeat split.
  - exists a, w'. split; [exact Hrun|].
    repeat (apply bind_Ok in Hbody as (? & ? & _ & Hbody)).
    unfold ret in Hbody. injection Hbody as <- _. now repeat split.
Qed.

Lemma generateItemImagesLoop_enriched items image : forall acc w,
  exists items' w',
    generateItemImagesLoop items image acc w = (Ok (acc ++ items'), w') /\
    Forall2 enriched items items'.
Proof.
  induction items as [|item items IH]; intros acc w.
  - exists [], w. rewrite app_nil_r. split; [done|constructor].
  - destruct (generateItemImage_enriched item image w) as (item' & w1 & Hone & Hen).
    destruct (IH (acc ++ [item']) w1) as (items' & w2 & Hloop & Hall).
    exists (item' :: items'), w2. split; [|now constructor].
    cbn [Extraction.generateItemImagesLoop]. unfold bind at 1.
    rewrite Hone, Hloop. now rewrite <- app_assoc.
Qed.

Lemma generateFallbackItems_shaped flatLayImageUrl w :
  exists items w',
    generateFallbackItems flatLayImageUrl w = (Ok items, w') /\ fallbackShaped items.
Proof.
  unfold Extraction.generateFallbackItems, dateNow, bind, ret.
  destruct (now w) as [a w1]. destruct (now w1) as [b w2]. destruct (now w2) as [c w3].
  eexists _, _. split; [reflexivity|]. split; [reflexivity|].
  repeat constructor.
Qed.

End Service.
End EnrichmentFacts.

Module ServiceProperties.
Import JsString JsObject Effects Extraction Item ExtractionFacts Enrichment EnrichmentFacts.
Import Examples.

(** X17: the items read from an answer whose elements have the types of
    the [ExtractedItem] interface (a string, [null] or nothing for the
    piece type, a string or nothing for the description, a number or
    nothing for the confidence) can be used, on the JSON path and on the
    keyword scan alike: each has a piece type and a description that are
    not empty, a confidence that is not zero, and no image yet. *)
Theorem parsed_items_are_usable
    (md5hex : string -> string)
    (parseJsonArray : string -> option (list (option RawItem)))
    (analysisText flatLayImageUrl : string) :
  Forall usable (parseGeminiResponse md5hex parseJsonArray analysisText flatLayImageUrl).
Proof.
  unfold parseGeminiResponse.
  destruct (parseJsonArray analysisText) as [arr|];
    [|apply extractItemsWithRegex_usable].
  destruct (mapItems md5hex flatLayImageUrl 0 arr) as [items|] eqn:Hmap;
    [|apply extractItemsWithRegex_usable].
  eapply mapItems_usable; eauto.
Qed.

(** X18: the image step never fails and changes nothing but the
    description and the image fields: with the client configured every
    item comes back, in order, with the enhanced description and its other
    fields untouched, whatever the model and the disk do; without the
    client the items come back as they are and nothing is called. *)
Theorem generateItemImages_preserves_items
    (World Image InlineData : Type) (genAI model : bool) (port : string)
    (md5hex : string -> string) (now : World -> Z * World)
    (generateImage :
       bool -> ExtractedItem -> Image -> World -> Result (option InlineData) * World)
    (writeFile : string -> InlineData -> World -> Result unit * World)
    (items : list ExtractedItem) (image : Image) (w : World) :
  exists items' w',
    generateItemImages World Image InlineData genAI model port md5hex now
      generateImage writeFile items image w = (Ok items', w') /\
    if genAI && model then Forall2 enriched items items'
    else items' = items /\ w' = w.
Proof.
  unfold generateItemImages.
  destruct genAI, model; cbn [negb orb andb]; try (now exists items, w).
  destruct (generateItemImagesLoop_enriched World Image InlineData true true port md5hex
              now generateImage writeFile items image [] w) as (items' & w' & Hrun & Hall).
  now exists items', w'.
Qed.

(** X19: a configured extraction always answers.  When the image fetch or
    the analysis call throws, the answer is the three fallback items
    (dress, shoes, bag, confidence 0.6, no image); when both succeed, and
    the elements of the answer have the types of the [ExtractedItem]
    interface, it is the parsed and deduplicated items, enriched, even if
    there are none. *)
Theorem extraction_always_answers
    (World Image InlineData : Type) (port : string)
    (md5hex : string -> string)
    (parseJsonArray : string -> option (list (option RawItem)))
    (now : World -> Z * World)
    (axiosGet : string -> World -> Result Image * World)
    (generateText : Image -> World -> Result string * World)
    (generateImage :
       bool -> ExtractedItem -> Image -> World -> Result (option InlineData) * World)
    (writeFile : string -> InlineData -> World -> Result unit * World)
    (flatLayImageUrl : string) (w : World) :
  exists items w',
    extractIndividualItems World Image InlineData true true port md5hex parseJsonArray
      now axiosGet generateText generateImage writeFile flatLayImageUrl w = (Ok items, w') /\
    match axiosGet flatLayImageUrl w with
    | (Throw _, _) => fallbackShaped items
    | (Ok imageResponse, w1) =>
        match generateText imageResponse (snd (now w1)) with
        | (Throw _, _) => fallbackShaped items
        | (Ok analysisText, _) =>
            Forall2 enriched
              (removeDuplicateItems
                 (parseGeminiResponse md5hex parseJsonArray analysisText flatLayImageUrl))
              items
        end
    end.
Proof.
  unfold extractIndividualItems. cbn [negb orb].
  unfold tryCatch, bind at 1.
  destruct (axiosGet flatLayImageUrl w) as [[img|e] w1].
  2:{ apply generateFallbackItems_shaped. }
  unfold bind at 1, dateNow at 1. destruct (now w1) as [t0 w2]. cbn [snd].
  unfold bind at 1.
  destruct (generateText img w2) as [[text|e] w3].
  2:{ apply generateFallbackItems_shaped. }
  unfold bind at 1, dateNow at 1. destruct (now w3) as [t1 w4].
  unfold bind, generateItemImages. cbn [negb orb].
  destruct (generateItemImagesLoop_enriched World Image InlineData true true port md5hex
              now generateImage writeFile
              (removeDuplicateItems
                 (parseGeminiResponse md5hex parseJsonArray text flatLayImageUrl))
              img [] w4) as (items' & w5 & Hrun & Hall).
  rewrite Hrun. cbn. now exists items', w5.
Qed.

End ServiceProperties.

(** ** The model catalogue *)

Module CatalogueFacts.
Import JsString JsObject Catalogue.

Lemma slice_window {A : Type} (l : list A) (offset count : nat) :
  slice (Z.of_nat offset) (Z.of_nat offset + Z.of_nat count) l =
  take count (drop offset l).
Proof.
  unfold slice, relativeIndex.
  destruct (Z.ltb_spec (Z.of_nat offset) 0); [lia|].
  destruct (Z.ltb_spec (Z.of_nat offset + Z.of_nat count) 0); [lia|].
  rewrite Nat2Z.id, <- Nat2Z.inj_add, Nat2Z.id.
  destruct (Nat.le_gt_cases offset (length l)) as [Hle|Hgt].
  - rewrite (Nat.min_l offset) by done.
    destruct (Nat.le_gt_cases (offset + count) (length l)).
    + rewrite Nat.min_l by done. f_equal. lia.
    + rewrite Nat.min_r by lia.
      rewrite !take_ge; [done| |]; rewrite length_drop; lia.
  - rewrite !drop_ge by lia. now rewrite !take_nil.
Qed.

Section Service.
Variable stamp : nat -> string.

Local Abbreviation mockModels := (mockModels stamp).
Local Abbreviation getModels := (getModels stamp).
Local Abbreviation getModelById := (getModelById stamp).

Lemma length_mockModels : length mockModels = 100%nat.
Proof. reflexivity. Qed.

Lemma getModels_window (page limit : nat) :
  (1 <= page)%nat ->
  models (getModels (Z.of_nat page) (Z.of_nat limit)) =
  take limit (drop ((page - 1) * limit) mockModels).
Proof.
  intros Hp. unfold Catalogue.getModels. cbn [models].
  replace ((Z.of_nat page - 1) * Z.of_nat limit)%Z
    with (Z.of_nat ((page - 1) * limit))
    by (rewrite Nat2Z.inj_mul, Nat2Z.inj_sub by lia; reflexivity).
  apply slice_window.
Qed.

Lemma ids_distinct : NoDup (map id mockModels).
Proof. compute_done. Qed.

Lemma find_unique (l : list Model) (m : Model) :
  NoDup (map id l) -> m ∈ l ->
  List.find (fun model => String.eqb (id model) (id m)) l = Some m.
Proof.
  induction l as [|x l IH]; intros Hnd Hin; [inversion Hin|].
  cbn [map] in Hnd. apply NoDup_cons in Hnd as [Hx Hnd].
  cbn [List.find]. apply elem_of_cons in Hin as [->|Hin].
  - now rewrite String.eqb_refl.
  - destruct (String.eqb (id x) (id m)) eqn:Heq; [|auto].
    apply String.eqb_eq in Heq. exfalso. apply Hx. rewrite Heq.
    apply list_elem_of_fmap. eauto.
Qed.

Lemma pages_take (limit k : nat) :
  concat (map (fun p => models (getModels (Z.of_nat p) (Z.of_nat limit))) (seq 1 k)) =
  take (k * limit) mockModels.
Proof.
  induction k as [|k IH]; [reflexivity|].
  rewrite seq_S, map_app, concat_app, IH. cbn [map concat].
  rewrite app_nil_r, getModels_window by lia.
  replace (1 + k - 1)%nat with k by lia.
  rewrite take_take_drop. f_equal. lia.
Qed.

End Service.
End CatalogueFacts.

Module CatalogueProperties.
Import JsString JsObject Catalogue CatalogueFacts Samples.

(** X20: a page of the catalogue is the window of [limit] models that
    starts after the [page - 1] pages before it, cut at the end of the
    catalogue: it never holds more than [limit] models, its models are
    numbered from the offset on, and the total is always 100. *)
Theorem getModels_page_contents (stamp : nat -> string) (page limit : Z) :
  (1 <= page)%Z -> (0 <= limit)%Z ->
  let offset := Z.to_nat ((page - 1) * limit) in
  let size := Nat.min (Z.to_nat limit) (100 - offset) in
  models (getModels stamp page limit) =
    take (Z.to_nat limit) (drop offset (mockModels stamp)) /\
  map id (models (getModels stamp page limit)) =
    map (fun index => "model-" +:+ ofNat (index + 1)) (seq offset size) /\
  length (models (getModels stamp page limit)) = size /\
  (length (models (getModels stamp page limit)) <= Z.to_nat limit)%nat /\
  total (getModels stamp page limit) = 100%nat.
Proof.
  intros Hp Hl offset size.
  assert (Hwin : models (getModels stamp page limit) =
                 take (Z.to_nat limit) (drop offset (mockModels stamp))).
  { pose proof (getModels_window stamp (Z.to_nat page) (Z.to_nat limit)) as H.
    rewrite !Z2Nat.id in H by lia. rewrite H by lia. subst offset.
    rewrite Z2Nat.inj_mul, Z2Nat.inj_sub by lia. reflexivity. }
  assert (Hids : map id (models (getModels stamp page limit)) =
                 map (fun index => "model-" +:+ ofNat (index + 1)) (seq offset size)).
  { rewrite Hwin. unfold mockModels.
    change (@map) with (@fmap list _).
    rewrite <- fmap_drop, <- fmap_take, <- list_fmap_compose.
    rewrite drop_seq, take_seq. reflexivity. }
  split; [exact Hwin|]. split; [exact Hids|].
  assert (Hlen : length (models (getModels stamp page limit)) = size).
  { rewrite <- (length_map id), Hids, length_map. apply length_seq. }
  split; [exact Hlen|]. split; [rewrite Hlen; subst size; lia|reflexivity].
Qed.

Lemma getModels_page_contents_witness :
  map id (models (getModels builtAt 34 3)) =
  map (fun index => "model-" +:+ ofNat (index + 1)) (seq 99 1).
Proof.
  apply (getModels_page_contents builtAt 34 3); lia.
Defined.

(** X21: [hasMore] tells the truth about the next page.  For a page
    number and a limit of at least 1, the response says [hasMore] exactly
    when the next page is not empty, and a response that says so carries a
    full page. *)
Theorem hasMore_announces_next_page (stamp : nat -> string) (page limit : Z) :
  (1 <= page)%Z -> (1 <= limit)%Z ->
  let response := getModelsResponse stamp (Some page) (Some limit) in
  (hasMore response = true <-> models (getModels stamp (page + 1) limit) <> []) /\
  (hasMore response = true -> Z.of_nat (length (data response)) = limit) /\
  data response = models (getModels stamp page limit).
Proof.
  intros Hp Hl response.
  assert (Hpage : orNumber (Some page) 1 = page).
  { unfold orNumber. destruct (Z.eqb_spec page 0); [lia|reflexivity]. }
  assert (Hlimit : orNumber (Some limit) 20 = limit).
  { unfold orNumber. destruct (Z.eqb_spec limit 0); [lia|reflexivity]. }
  assert (Hmore : hasMore response = (page * limit <? 100)%Z).
  { subst response. unfold getModelsResponse. cbn [hasMore]. now rewrite Hpage, Hlimit. }
  assert (Hdata : data response = models (getModels stamp page limit)).
  { subst response. unfold getModelsResponse. cbn [data]. now rewrite Hpage, Hlimit. }
  destruct (getModels_page_contents stamp page limit) as (_ & _ & Hlen & _); [lia|lia|].
  destruct (getModels_page_contents stamp (page + 1) limit) as (_ & _ & Hnext & _);
    [lia|lia|].
  replace (page + 1 - 1)%Z with page in Hnext by lia.
  rewrite Hmore, Z.ltb_lt. split; [|split; [|exact Hdata]].
  - split.
    + intros Hlt Hnil. rewrite Hnil in Hnext. cbn [length] in Hnext. lia.
    + intros Hne. destruct (models (getModels stamp (page + 1) limit)) eqn:E; [done|].
      cbn [length] in Hnext. lia.
  - intros Hlt. rewrite Hdata, Hlen. nia.
Qed.

Lemma hasMore_announces_next_page_witness :
  hasMore (getModelsResponse builtAt (Some 5%Z) (Some 20%Z))
    = true <->
  models (getModels builtAt (5 + 1) 20) <> [].
Proof.
  apply (hasMore_announces_next_page builtAt 5 20); lia.
Defined.

(** X22: the pages partition the catalogue: for any limit, the first [k]
    pages, one after the other, are the first [k * limit] models, so that
    the pages up to the end hold every model exactly once, in order. *)
Theorem pages_partition_the_catalogue (stamp : nat -> string) (limit k : nat) :
  concat (map (fun p => models (getModels stamp (Z.of_nat p) (Z.of_nat limit)))
              (seq 1 k)) =
    take (k * limit) (mockModels stamp) /\
  ((100 <= k * limit)%nat ->
   concat (map (fun p => models (getModels stamp (Z.of_nat p) (Z.of_nat limit)))
               (seq 1 k)) = mockModels stamp).
Proof.
  split; [apply pages_take|].
  intros Hall. rewrite pages_take. apply take_ge. now rewrite length_mockModels.
Qed.

(** X23: looking a model up by id is the inverse of listing: every model
    of the catalogue is found under its id, what is found under an id has
    that id and is in the catalogue, and an id of no model gives [null]. *)
Theorem getModelById_round_trip (stamp : nat -> string) :
  (forall m, m ∈ mockModels stamp -> getModelById stamp (id m) = Some m) /\
  (forall s m, getModelById stamp s = Some m -> id m = s /\ m ∈ mockModels stamp) /\
  (forall s, s ∉ map id (mockModels stamp) -> getModelById stamp s = None).
Proof.
  split; [|split].
  - intros m Hm. apply find_unique; [apply ids_distinct|exact Hm].
  - intros s m Hfind. apply find_some in Hfind as [Hin Heq].
    apply String.eqb_eq in Heq. split; [exact Heq|]. now apply list_elem_of_In.
  - intros s Hs. unfold getModelById.
    destruct (List.find _ _) as [m|] eqn:Hfind; [|reflexivity].
    apply find_some in Hfind as [Hin Heq]. apply String.eqb_eq in Heq.
    exfalso. apply Hs. rewrite <- Heq. apply list_elem_of_fmap.
    exists m. split; [done|]. now apply list_elem_of_In.
Qed.

(** X24: [validatePagination] rejects a request exactly when the page
    number read from it is negative, or the limit read from it is negative
    or above 100.  A value that is missing, unreadable or zero is replaced
    by the default (page 1, limit 20), and what passes on is the text of a
    page number of at least 1 and of a limit from 1 to 100. *)
Theorem validatePagination_accepts
    (numberToString : Z -> string) (parsedPage parsedLimit : option Z) :
  ((exists error message,
       validatePagination numberToString parsedPage parsedLimit = BadRequest error message)
   <->
   (exists n, parsedPage = Some n /\ (n < 0)%Z) \/
   (exists n, parsedLimit = Some n /\ (n < 0 \/ 100 < n)%Z)) /\
  (forall page limit,
     validatePagination numberToString parsedPage parsedLimit = Next page limit ->
     page = numberToString (orNumber parsedPage 1) /\
     limit = numberToString (orNumber parsedLimit 20) /\
     (1 <= orNumber parsedPage 1)%Z /\ (1 <= orNumber parsedLimit 20 <= 100)%Z).
Proof.
  unfold validatePagination.
  assert (Hpage : (orNumber parsedPage 1 < 1)%Z <-> exists n, parsedPage = Some n /\ (n < 0)%Z).
  { unfold orNumber. destruct parsedPage as [n|].
    - destruct (Z.eqb_spec n 0).
      + split; [lia|]. intros (k & [= <-] & Hk). lia.
      + split; [intros; exists n; split; [done|lia]|]. intros (k & [= <-] & Hk). lia.
    - split; [lia|]. intros (k & Hk & _). discriminate. }
  assert (Hlimit : (orNumber parsedLimit 20 < 1 \/ 100 < orNumber parsedLimit 20)%Z <->
                   exists n, parsedLimit = Some n /\ (n < 0 \/ 100 < n)%Z).
  { unfold orNumber. destruct parsedLimit as [n|].
    - destruct (Z.eqb_spec n 0).
      + split; [lia|]. intros (k & [= <-] & Hk). lia.
      + split; [intros; exists n; split; [done|lia]|]. intros (k & [= <-] & Hk). lia.
    - split; [lia|]. intros (k & Hk & _). discriminate. }
  destruct (Z.ltb_spec (orNumber parsedPage 1) 1) as [Hp|Hp].
  { split; [|discriminate]. split; [intros _; left; now apply Hpage|eauto]. }
  destruct (Z.ltb_spec (orNumber parsedLimit 20) 1) as [Hl|Hl]; cbn [orb].
  { split; [|discriminate]. split; [intros _; right; apply Hlimit; lia|eauto]. }
  destruct (Z.ltb_spec 100 (orNumber parsedLimit 20)) as [Hh|Hh].
  { split; [|discriminate]. split; [intros _; right; apply Hlimit; lia|eauto]. }
  split.
  - split; [intros (e & m & H); discriminate|].
    intros [H|H]; [apply Hpage in H|apply Hlimit in H]; lia.
  - intros page limit [= <- <-]. repeat split; lia.
Qed.

(** X25: the outfit id that [getModelOutfit] issues does not lead back to
    its model: for every model that has an outfit, [getOutfitById] on the
    outfit's id names the model [model-model], which is none of the
    catalogue. *)
Theorem outfit_id_does_not_lead_back
    (stamp : nat -> string) (clock : string) (model : string) (outfit : Outfit) :
  getModelOutfit stamp clock model = Some outfit ->
  modelId outfit = model /\
  modelId (getOutfitById clock (outfitId outfit)) = "model-model" /\
  modelId (getOutfitById clock (outfitId outfit)) <> model /\
  getModelById stamp (modelId (getOutfitById clock (outfitId outfit))) = None.
Proof.
  unfold getModelOutfit. destruct (getModelById stamp model) as [m|] eqn:Hfind;
    [|discriminate].
  intros [= <-]. cbn [modelId outfitId].
  apply find_some in Hfind as [Hin Heq]. apply String.eqb_eq in Heq.
  assert (Hall : Forall (fun s =>
                    modelId (getOutfitById clock ("outfit-" +:+ s)) = "model-model" /\
                    "model-model" <> s)
                  (map id (mockModels stamp))).
  { vm_compute. repeat (constructor; [split; [reflexivity|discriminate]|]). constructor. }
  rewrite Forall_forall in Hall. destruct (Hall model) as [Hback Hne].
  { rewrite <- Heq. apply list_elem_of_fmap. exists m. split; [done|].
    now apply list_elem_of_In. }
  split; [reflexivity|]. rewrite Hback. split; [reflexivity|]. split; [exact Hne|].
  reflexivity.
Qed.

Lemma outfit_id_does_not_lead_back_witness :
  modelId (getOutfitById "2025-01-01T00:00:00.000Z" "outfit-model-7") = "model-model".
Proof.
  apply (outfit_id_does_not_lead_back builtAt
           "2025-01-01T00:00:00.000Z" "model-7"
           {| outfitId := "outfit-model-7"; modelId := "model-7"; flatLayUrl := None;
              geminiProcessedAt := None; styleTags := [ "casual"; "street-style" ];
              outfitCreatedAt := "2025-01-01T00:00:00.000Z" |}).
  reflexivity.
Defined.

End CatalogueProperties.

(** ** Helpers of the search backends *)

Module ShoppingFacts.
Import JsString JsObject Fusion Shopping Charset ShoppingShapes AppendFacts StringFacts.

Lemma prefix_append sub post : String.prefix sub (sub +:+ post) = true.
Proof.
  induction sub as [|c sub IH]; simpl; [now destruct post|].
  destruct (ascii_dec c c); [exact IH|done].
Qed.

Lemma includes_here sub post : includes (sub +:+ post) sub = true.
Proof.
  pose proof (prefix_append sub post) as H.
  destruct (sub +:+ post); cbn [includes]; now rewrite H.
Qed.

Lemma includes_append pre s sub : includes s sub = true -> includes (pre +:+ s) sub = true.
Proof.
  intros H. induction pre as [|c pre IH]; [exact H|].
  rewrite append_cons. cbn [includes]. rewrite IH. apply orb_true_r.
Qed.

Lemma includes_middle pre sub post : includes (pre +:+ sub +:+ post) sub = true.
Proof. apply includes_append, includes_here. Qed.

Lemma toLowerCase_append a b : toLowerCase (a +:+ b) = toLowerCase a +:+ toLowerCase b.
Proof.
  induction a as [|c a IH]; [reflexivity|].
  rewrite append_cons. cbn [toLowerCase]. now rewrite append_cons, IH.
Qed.

Lemma append_assoc (a b c : string) : (a +:+ b) +:+ c = a +:+ (b +:+ c).
Proof.
  induction a as [|x a IH]; [reflexivity|]. now rewrite !append_cons, IH.
Qed.

Lemma take_drop_while p s : s = takeWhile p s +:+ dropWhile p s.
Proof.
  induction s as [|c s IH]; [reflexivity|]. cbn [takeWhile dropWhile].
  destruct (p c); [|reflexivity]. now rewrite append_cons, <- IH.
Qed.

Lemma allChars_takeWhile p s : allChars p (takeWhile p s) = true.
Proof. induction s as [|c s IH]; simpl; [done|]. destruct (p c) eqn:E; simpl; [now rewrite E|done]. Qed.

Lemma allChars_append P a b :
  allChars P (a +:+ b) = allChars P a && allChars P b.
Proof.
  induction a as [|c a IH]; [reflexivity|].
  rewrite append_cons. cbn [allChars]. now rewrite IH, andb_assoc.
Qed.

Lemma digit_is_price c : isDigit c = true -> isPriceChar c || (code c =? 46)%N = true.
Proof. unfold isPriceChar. now intros ->. Qed.

(** The amount matched at the head of [s] is an amount that [s] starts
    with; there is one exactly when [s] starts with a digit or comma. *)
Lemma matchAmount_Some s a :
  matchAmount s = Some a -> isAmount a = true /\ exists post, s = a +:+ post.
Proof.
  unfold matchAmount.
  pose proof (take_drop_while isPriceChar s) as Hs.
  pose proof (allChars_takeWhile isPriceChar s) as Hall.
  destruct (takeWhile isPriceChar s) as [|c whole] eqn:Hw; [discriminate|].
  cbn [truthy String.eqb negb].
  assert (Hshape : isAmount (String c whole) = true).
  { cbn [allChars] in Hall. apply andb_true_iff in Hall as [Hc Hall].
    cbn [isAmount]. rewrite Hc. cbn [andb].
    eapply allChars_impl; [|exact Hall]. now intros x ->. }
  destruct (dropWhile isPriceChar s) as [|d rest] eqn:Hd.
  { intros [= <-]. split; [exact Hshape|]. now exists "". }
  destruct (Ascii.eqb d "."%char) eqn:Hdot.
  - apply Ascii.eqb_eq in Hdot. subst d. intros [= <-]. split.
    + cbn [isAmount] in Hshape. apply andb_true_iff in Hshape as [Hc Hrest].
      rewrite append_cons. cbn [isAmount]. rewrite Hc. cbn [andb].
      rewrite allChars_append, Hrest. rewrite append_cons, append_nil.
      cbn [allChars andb]. change (code "." =? 46)%N with true. rewrite orb_true_r.
      cbn [andb].
      eapply allChars_impl; [apply digit_is_price|apply allChars_takeWhile].
    + exists (dropWhile isDigit rest). rewrite Hs at 1.
      rewrite (take_drop_while isDigit rest) at 1.
      rewrite !append_assoc. reflexivity.
  - assert (Hgoal : Some (String c whole) = Some a ->
                    isAmount a = true /\ exists post, s = a +:+ post).
    { intros [= <-]. split; [exact Hshape|]. now exists (String d rest). }
    destruct d as [[] [] [] [] [] [] [] []]; try exact Hgoal. discriminate.
Qed.

Lemma matchAmount_None s :
  matchAmount s = None ->
  match s with String c _ => isPriceChar c = false | EmptyString => True end.
Proof.
  unfold matchAmount. destruct s as [|c s]; [done|]. cbn [takeWhile].
  destruct (isPriceChar c); [|done]. cbn [truthy String.eqb negb].
  now destruct (dropWhile _ _) as [|[[] [] [] [] [] [] [] []] ?].
Qed.

Lemma matchPrice_Some s m :
  matchPrice s = Some m ->
  exists a post, m = "$" +:+ a /\ isAmount a = true /\ s = "$" +:+ a +:+ post.
Proof.
  unfold matchPrice. destruct s as [|c rest]; [discriminate|].
  assert (Hgoal : option_map (String "$"%char) (matchAmount rest) = Some m ->
                  exists a post, m = "$" +:+ a /\ isAmount a = true /\
                                 String "$"%char rest = "$" +:+ a +:+ post).
  { destruct (matchAmount rest) as [a|] eqn:Ha; [|discriminate].
    intros [= <-]. apply matchAmount_Some in Ha as [Hshape [post ->]].
    now exists a, post. }
  destruct c as [[] [] [] [] [] [] [] []]; try discriminate. exact Hgoal.
Qed.

Lemma matchPrice_None s c post :
  matchPrice s = None -> s = "$" +:+ String c post -> isPriceChar c = false.
Proof.
  intros H ->. rewrite append_cons, append_nil in H. cbn [matchPrice] in H.
  destruct (matchAmount (String c post)) eqn:Ha; [discriminate|].
  now apply matchAmount_None in Ha.
Qed.

Lemma firstMatch_price_Some s m :
  firstMatch matchPrice s = Some m ->
  exists pre a post, m = "$" +:+ a /\ isAmount a = true /\ s = pre +:+ "$" +:+ a +:+ post.
Proof.
  induction s as [|c s IH].
  - cbn. discriminate.
  - cbn [firstMatch]. destruct (matchPrice (String c s)) as [m'|] eqn:Hm.
    + intros [= <-]. apply matchPrice_Some in Hm as (a & post & -> & Ha & Hs).
      exists "", a, post. now rewrite Hs.
    + intros H. destruct (IH H) as (pre & a & post & -> & Ha & ->).
      now exists (String c pre), a, post.
Qed.

Lemma firstMatch_price_None s :
  firstMatch matchPrice s = None ->
  forall pre c post, s = pre +:+ "$" +:+ String c post -> isPriceChar c = false.
Proof.
  induction s as [|x s IH]; intros H pre c post Hs.
  - destruct pre; discriminate.
  - cbn [firstMatch] in H. destruct (matchPrice (String x s)) eqn:Hm; [discriminate|].
    destruct pre as [|y pre].
    + eapply matchPrice_None; eauto.
    + injection Hs as _ Hs. eapply IH; eauto.
Qed.

Lemma matchAmount_head c s :
  isPriceChar c = true -> exists a, matchAmount (String c s) = Some a.
Proof.
  intros Hc. unfold matchAmount. cbn [takeWhile]. rewrite Hc.
  cbn [truthy String.eqb negb].
  destruct (dropWhile isPriceChar (String c s)) as [|[[] [] [] [] [] [] [] []] ?]; eauto.
Qed.

Lemma matchOptionalPrice_Some s m :
  matchOptionalPrice s = Some m ->
  exists a, isAmount a = true /\ (m = a \/ m = "$" +:+ a).
Proof.
  unfold matchOptionalPrice.
  assert (Hamount : matchAmount s = Some m ->
                    exists a, isAmount a = true /\ (m = a \/ m = "$" +:+ a)).
  { intros H. apply matchAmount_Some in H as [Ha _]. eauto. }
  assert (Hprice : matchPrice s = Some m ->
                   exists a, isAmount a = true /\ (m = a \/ m = "$" +:+ a)).
  { intros H. apply matchPrice_Some in H as (a & post & -> & Ha & _). eauto. }
  destruct s as [|c s]; [exact Hamount|].
  destruct c as [[] [] [] [] [] [] [] []]; try exact Hamount. exact Hprice.
Qed.

Lemma matchOptionalPrice_None c s :
  matchOptionalPrice (String c s) = None -> isPriceChar c = false.
Proof.
  destruct (isPriceChar c) eqn:Hc; [|done].
  destruct (matchAmount_head c s Hc) as [a Ha].
  unfold matchOptionalPrice.
  destruct c as [[] [] [] [] [] [] [] []]; try (rewrite Ha; discriminate).
  discriminate Hc.
Qed.

Lemma firstMatch_optional_Some s m :
  firstMatch matchOptionalPrice s = Some m ->
  exists a, isAmount a = true /\ (m = a \/ m = "$" +:+ a).
Proof.
  induction s as [|c s IH]; cbn [firstMatch].
  - destruct (matchOptionalPrice "") eqn:H; [|discriminate].
    intros [= <-]. now apply matchOptionalPrice_Some in H.
  - destruct (matchOptionalPrice (String c s)) eqn:H; [|exact IH].
    intros [= <-]. now apply matchOptionalPrice_Some in H.
Qed.

Lemma firstMatch_optional_None s :
  firstMatch matchOptionalPrice s = None ->
  allChars (fun c => negb (isPriceChar c)) s = true.
Proof.
  induction s as [|c s IH]; [reflexivity|]. cbn [firstMatch allChars].
  destruct (matchOptionalPrice (String c s)) eqn:H; [discriminate|].
  intros Hrest. now rewrite (matchOptionalPrice_None c s H), IH.
Qed.

Lemma keepChars_price_chars (keep : ascii -> bool) s :
  (forall c, isPriceChar c = true -> keep c = true) ->
  allChars (fun c => negb (isPriceChar c)) (keepChars keep s) =
  allChars (fun c => negb (isPriceChar c)) s.
Proof.
  intros Hkeep. induction s as [|c s IH]; [reflexivity|]. cbn [keepChars allChars].
  destruct (isPriceChar c) eqn:Hc.
  - rewrite (Hkeep c Hc). cbn [allChars]. now rewrite Hc.
  - destruct (keep c); cbn [allChars negb andb]; [now rewrite Hc, IH|exact IH].
Qed.

Lemma amount_has_price_char a :
  isAmount a = true -> allChars (fun c => negb (isPriceChar c)) a = false.
Proof.
  destruct a as [|c a]; [discriminate|]. cbn [isAmount allChars].
  now intros [-> _]%andb_true_iff.
Qed.

Lemma firstMatch_optional_inside s m :
  firstMatch matchOptionalPrice s = Some m ->
  allChars (fun c => negb (isPriceChar c)) s = false.
Proof.
  induction s as [|c s IH]; cbn [firstMatch].
  - cbn. discriminate.
  - destruct (matchOptionalPrice (String c s)) as [m'|] eqn:H.
    + intros _. cbn [allChars].
      destruct (isPriceChar c) eqn:Hc; [reflexivity|]. cbn [negb andb].
      unfold matchOptionalPrice in H.
      assert (Hrest : matchAmount (String c s) = None).
      { unfold matchAmount. cbn [takeWhile]. now rewrite Hc. }
      destruct c as [[] [] [] [] [] [] [] []]; try congruence.
      cbn [matchPrice] in H. destruct (matchAmount s) as [a|] eqn:Ha; [|discriminate].
      apply matchAmount_Some in Ha as [Ha [post ->]].
      rewrite allChars_append, (amount_has_price_char a Ha). reflexivity.
    + intros Hs. cbn [allChars]. rewrite (IH Hs). apply andb_false_r.
Qed.

End ShoppingFacts.

Module ShoppingProperties.
Import JsString JsObject Fusion Shopping Charset ShoppingShapes ShoppingFacts Samples.

(** X26: the shop test is a substring test on the whole address: an
    address that contains a listed domain anywhere, in any letter case,
    passes, be it in the path, in the query or inside another host
    name. *)
Theorem isShoppingDomain_is_substring_test (pre spelled post domain : string) :
  In domain shoppingDomains ->
  toLowerCase spelled = domain ->
  isShoppingDomain (pre +:+ spelled +:+ post) = true.
Proof.
  intros Hin Hcase. unfold isShoppingDomain. apply existsb_exists.
  exists domain. split; [exact Hin|].
  rewrite !toLowerCase_append, Hcase. apply includes_middle.
Qed.

Lemma isShoppingDomain_is_substring_test_witness :
  isShoppingDomain ("https://blog.example.org/why-i-left-" +:+ "Amazon.com" +:+ "/") = true.
Proof.
  apply (isShoppingDomain_is_substring_test
           "https://blog.example.org/why-i-left-" "Amazon.com" "/" "amazon.com").
  - simpl. left. reflexivity.
  - reflexivity.
Defined.

(** X27: the audience filter works on substrings of the lower-cased
    title.  A product with a title and a url is valid when its title
    mentions [women], whatever else it says; and it is rejected when its
    title contains one of the six terms anywhere, also inside a longer
    word, and does not mention [women]. *)
Theorem isValidProduct_substring_filter (product : ProductResult) :
  truthy (title product) = true ->
  truthy (url product) = true ->
  (includes (toLowerCase (title product)) "women" = true ->
   isValidProduct product = true) /\
  (forall pre spelled post term,
     In term irrelevantTerms ->
     toLowerCase spelled = term ->
     title product = pre +:+ spelled +:+ post ->
     includes (toLowerCase (title product)) "women" = false ->
     isValidProduct product = false).
Proof.
  intros Ht Hu. unfold isValidProduct. rewrite Ht, Hu. cbn [negb orb]. split.
  - intros Hw. rewrite Hw. cbn [negb].
    replace (existsb _ irrelevantTerms) with false; [reflexivity|].
    symmetry. apply not_true_iff_false. intros (t & _ & H)%existsb_exists.
    now rewrite andb_false_r in H.
  - intros pre spelled post term Hin Hcase Htitle Hw. rewrite Hw. cbn [negb].
    replace (existsb _ irrelevantTerms) with true; [reflexivity|].
    symmetry. apply existsb_exists. exists term. split; [exact Hin|].
    rewrite andb_true_r, Htitle, !toLowerCase_append, Hcase. apply includes_middle.
Qed.

Lemma isValidProduct_substring_filter_witness :
  (includes (toLowerCase (title tomboyJeans)) "women" = true ->
   isValidProduct tomboyJeans = true) /\
  (forall pre spelled post term,
     In term irrelevantTerms ->
     toLowerCase spelled = term ->
     title tomboyJeans = pre +:+ spelled +:+ post ->
     includes (toLowerCase (title tomboyJeans)) "women" = false ->
     isValidProduct tomboyJeans = false).
Proof.
  apply (isValidProduct_substring_filter tomboyJeans); reflexivity.
Defined.

(** X28: the price read from a snippet.  Either the snippet has no dollar
    sign followed by a digit or comma, and the result is the text
    [Price not available]; or the result is a dollar sign and an amount
    (a digit or comma, then digits, commas and dots) that stands in the
    snippet. *)
Theorem extractPriceFromSnippet_shape (snippet : string) :
  (extractPriceFromSnippet snippet = "Price not available" /\
   forall pre c post, snippet = pre +:+ "$" +:+ String c post -> isPriceChar c = false) \/
  (exists pre amount post,
     extractPriceFromSnippet snippet = "$" +:+ amount /\
     isAmount amount = true /\
     snippet = pre +:+ "$" +:+ amount +:+ post).
Proof.
  unfold extractPriceFromSnippet.
  destruct (firstMatch matchPrice snippet) as [m|] eqn:Hm.
  - right. apply firstMatch_price_Some in Hm as (pre & a & post & -> & Ha & Hs).
    now exists pre, a, post.
  - left. split; [reflexivity|]. now apply firstMatch_price_None.
Qed.

(** X29: the price read from a price text.  An empty text gives
    [Price not available]; a text without any digit or comma comes back
    as it is; and a text with a digit or comma gives a dollar sign and an
    amount, whether the text had a dollar sign or not. *)
Theorem extractPrice_shape (priceText : string) :
  (priceText = "" -> extractPrice priceText = "Price not available") /\
  (priceText <> "" ->
   allChars (fun c => negb (isPriceChar c)) priceText = true ->
   extractPrice priceText = priceText) /\
  (allChars (fun c => negb (isPriceChar c)) priceText = false ->
   exists amount, extractPrice priceText = "$" +:+ amount /\ isAmount amount = true).
Proof.
  split; [now intros ->|].
  assert (Hkeep : forall c, isPriceChar c = true ->
            isDigit c || (code c =? 46)%N || (code c =? 44)%N || (code c =? 36)%N = true).
  { intros c. unfold isPriceChar. destruct (isDigit c), (code c =? 44)%N; cbn; try done.
    all: intros _; now rewrite ?orb_true_r. }
  pose proof (keepChars_price_chars _ priceText Hkeep) as Hclean.
  unfold extractPrice. split.
  - intros Hne Hnone.
    assert (Ht : truthy priceText = true).
    { unfold truthy. destruct priceText; [done|reflexivity]. }
    rewrite Ht. cbn [negb].
    destruct (firstMatch matchOptionalPrice _) as [m|] eqn:Hm; [|reflexivity].
    apply firstMatch_optional_inside in Hm. congruence.
  - intros Hsome.
    assert (Ht : truthy priceText = true).
    { unfold truthy. destruct priceText; [discriminate Hsome|reflexivity]. }
    rewrite Ht. cbn [negb].
    destruct (firstMatch matchOptionalPrice _) as [m|] eqn:Hm.
    + apply firstMatch_optional_Some in Hm as (a & Ha & [->| ->]).
      * exists a. split; [|exact Ha].
        destruct a as [|c a]; [discriminate|].
        cbn [isAmount] in Ha. apply andb_true_iff in Ha as [Hc _].
        unfold startsWithDollar. cbn [String.prefix].
        destruct (ascii_dec "$" c) as [<-|_]; [discriminate Hc|reflexivity].
      * exists a. split; [|exact Ha]. unfold startsWithDollar.
        now rewrite (prefix_append "$" a).
    + apply firstMatch_optional_None in Hm. congruence.
Qed.

End ShoppingProperties.
